(** * Dritchwear storefront: order pricing and settlement

    A shallow embedding of the pricing utilities of [lib/fees]
    (delivery fee, service fee, order total, promo codes), of the cart
    expansion of [components/ProductModal] and of the settlement
    handlers of [app/(customer)/checkout].

    JavaScript numbers are IEEE 754 binary64 values: they are modelled
    by [spec_float] with the operations of the standard library's
    executable specification at precision 53 and maximal exponent 1024.
    Strings are sequences of code units below 256 (the type [string]);
    case mapping and trimming follow ECMAScript on that range.  Object
    literals used as tables are finite maps of their own properties; a
    read that finds no own property goes on to the members every object
    inherits from [Object.prototype]. *)

From Stdlib Require Import ZArith Bool List String Ascii Lia.
From Stdlib Require Import Floats.SpecFloat.
From stdpp Require Import gmap strings.

Local Open Scope Z_scope.

(** ** JavaScript numbers *)

Module Num.

Definition number : Type := spec_float.

Definition prec : Z := 53.
Definition emax : Z := 1024.

Definition NaN : number := S754_nan.
Definition Infinity : number := S754_infinity false.

(** An integer literal. *)
Definition of_Z (n : Z) : number := binary_normalize prec emax n 0 false.

Definition add : number -> number -> number := SFadd prec emax.
Definition sub : number -> number -> number := SFsub prec emax.
Definition mul : number -> number -> number := SFmul prec emax.
Definition div : number -> number -> number := SFdiv prec emax.

(** [a < b], [a <= b] and [a >= b]; all are false on NaN. *)
Definition lt : number -> number -> bool := SFltb.
Definition le : number -> number -> bool := SFleb.
Definition ge (a b : number) : bool := SFleb b a.

(** A decimal literal [n / 10^k]: the double nearest to it.  Both [n]
    and [10^k] are exact doubles for the literals of the program, so
    the correctly rounded quotient is that double. *)
Definition decimal (n : Z) (k : nat) : number :=
  div (of_Z n) (of_Z (10 ^ Z.of_nat k)).

Definition valid (x : number) : bool := valid_binary prec emax x.

Definition isNaN (x : number) : bool :=
  match x with S754_nan => true | _ => false end.

(** [Math.round]: the integral number closest to [x], the one nearer
    to +Infinity on a tie; integral numbers, zeros, infinities and NaN
    are returned as they are, and a result of zero keeps the sign of
    [x].  For a finite [x = (-1)^s * m * 2^e] with [e < 0] the result is
    [floor (x + 1/2) = floor ((2 * (+-m) + 2^(-e)) / 2^(1 - e))]. *)
Definition round_half_up (s : bool) (m : positive) (e : Z) : Z :=
  Z.shiftr (2 * cond_Zopp s (Zpos m) + Z.shiftl 1 (- e)) (1 - e).

Definition Math_round (x : number) : number :=
  match x with
  | S754_finite s m e =>
      if 0 <=? e then x
      else match round_half_up s m e with
           | Z0 => S754_zero s
           | n => of_Z n
           end
  | _ => x
  end.

(** [Math.max] of two numbers: NaN when one of them is NaN, otherwise
    the larger, +0 counting as larger than -0. *)
Definition Math_max (a b : number) : number :=
  if isNaN a || isNaN b then NaN
  else if lt a b then b
  else if lt b a then a
  else match a with S754_zero true => b | _ => a end.

(** [x || 0] for a number: 0 replaces the falsy numbers +0, -0 and
    NaN. *)
Definition orZero (x : number) : number :=
  match x with
  | S754_zero _ | S754_nan => of_Z 0
  | _ => x
  end.

(** What reading a numeric property gives: a number, or [undefined]
    when the object has no such property.  As an operand of [+],
    [undefined] counts as NaN. *)
Inductive value : Type :=
| Number (x : number)
| Undefined.

Definition toNumber (v : value) : number :=
  match v with
  | Number x => x
  | Undefined => NaN
  end.

End Num.

Import Num.

(** ** JavaScript strings *)

Module Str.

Definition code (c : ascii) : N := N_of_ascii c.

(** [toLowerCase] on one code unit: A-Z, and the Latin-1 capitals
    U+00C0..U+00DE except the multiplication sign U+00D7. *)
Definition lower_char (c : ascii) : ascii :=
  let n := code c in
  if ((65 <=? n) && (n <=? 90))%N then ascii_of_N (n + 32)
  else if ((192 <=? n) && (n <=? 222) && negb (n =? 215))%N
       then ascii_of_N (n + 32)
       else c.

Fixpoint toLowerCase (s : string) : string :=
  match s with
  | EmptyString => EmptyString
  | String c r => String (lower_char c) (toLowerCase r)
  end.

(** White space and line terminators below U+0100. *)
Definition is_space (c : ascii) : bool :=
  let n := code c in
  ((n =? 9) || (n =? 10) || (n =? 11) || (n =? 12) || (n =? 13)
   || (n =? 32) || (n =? 160))%N.

Fixpoint trimStart (s : string) : string :=
  match s with
  | EmptyString => EmptyString
  | String c r => if is_space c then trimStart r else s
  end.

(** Drops the trailing white space: a white-space unit is kept only
    when something is left after it. *)
Fixpoint trimEnd (s : string) : string :=
  match s with
  | EmptyString => EmptyString
  | String c r =>
      match trimEnd r with
      | EmptyString => if is_space c then EmptyString else String c EmptyString
      | r' => String c r'
      end
  end.

Definition trim (s : string) : string := trimEnd (trimStart s).

Fixpoint startsWith (s k : string) {struct k} : bool :=
  match k, s with
  | EmptyString, _ => true
  | String _ _, EmptyString => false
  | String a k', String b s' => Ascii.eqb a b && startsWith s' k'
  end.

(** [s.includes(k)]: [k] occurs in [s] at some position. *)
Fixpoint includes (s k : string) : bool :=
  startsWith s k ||
  match s with
  | EmptyString => false
  | String _ r => includes r k
  end.

(** [!s] for a string: only the empty string is falsy. *)
Definition falsy (s : string) : bool :=
  match s with EmptyString => true | _ => false end.

End Str.

(** ** lib/fees: delivery fee, service fee, order total *)

Module Fees.

Definition SERVICE_FEE_PERCENTAGE : number := decimal 2 2.

(** The object found under a currency, as [calculateDeliveryFee]
    reads it: its properties [local], [national] and [international]. *)
Record FeeTable : Type := {
  local : value;
  national : value;
  international : value
}.

Definition fees (l n i : Z) : FeeTable :=
  {| local := Number (of_Z l); national := Number (of_Z n);
     international := Number (of_Z i) |}.

Definition NGN_FEES : FeeTable := fees 3500 5000 15000.

Definition DELIVERY_FEES_BY_CURRENCY : gmap string FeeTable :=
  list_to_map
    [ ("NGN"%string, NGN_FEES);
      ("USD"%string, fees 5 8 25);
      ("EUR"%string, fees 4 7 20);
      ("GBP"%string, fees 4 6 18);
      ("CAD"%string, fees 6 9 28);
      ("AUD"%string, fees 6 9 30);
      ("JPY"%string, fees 500 800 2500);
      ("CHF"%string, fees 4 7 20);
      ("CNY"%string, fees 30 50 150);
      ("INR"%string, fees 300 500 1500);
      ("ZAR"%string, fees 80 120 400) ].

Definition nigerianStates : list string :=
  [ "abia"; "adamawa"; "akwa ibom"; "anambra"; "bauchi"; "bayelsa";
    "benue"; "borno"; "cross river"; "delta"; "ebonyi"; "edo"; "ekiti";
    "enugu"; "gombe"; "imo"; "jigawa"; "kaduna"; "kano"; "katsina";
    "kebbi"; "kogi"; "kwara"; "nasarawa"; "niger"; "ogun"; "ondo";
    "osun"; "oyo"; "plateau"; "rivers"; "sokoto"; "taraba"; "yobe";
    "zamfara"; "abuja"; "fct" ]%string.

Definition nigerianCities : list string :=
  [ "abuja"; "kano"; "ibadan"; "kaduna"; "port harcourt"; "benin";
    "maiduguri"; "zaria"; "aba"; "jos"; "ilorin"; "oyo"; "enugu";
    "abeokuta"; "abuja"; "sokoto"; "onitsha"; "warri"; "okene";
    "calabar"; "uyo"; "katsina"; "ado-ekiti"; "awka"; "bauchi"; "akure";
    "makurdi"; "lafia"; "gombe"; "yenagoa"; "jalingo"; "owerri";
    "abakaliki"; "dutse"; "damaturu"; "gusau"; "yola"; "minna";
    "birnin kebbi"; "lokoja"; "osogbo" ]%string.

(** The names an object literal inherits from [Object.prototype].
    Reading one of them from a table finds a function (the prototype
    itself under [__proto__]): a truthy value that has none of the
    properties [local], [national] and [international]. *)
Definition Object_prototype : list string :=
  [ "constructor"; "hasOwnProperty"; "isPrototypeOf"; "propertyIsEnumerable";
    "toLocaleString"; "toString"; "valueOf"; "__proto__";
    "__defineGetter__"; "__defineSetter__"; "__lookupGetter__";
    "__lookupSetter__" ]%string.

Definition inherited (key : string) : bool :=
  existsb (String.eqb key) Object_prototype.

Definition inheritedMember : FeeTable :=
  {| local := Undefined; national := Undefined; international := Undefined |}.

(** [DELIVERY_FEES_BY_CURRENCY[currency] || DELIVERY_FEES_BY_CURRENCY.NGN]:
    the table of the currency, else the inherited member of that name,
    else, the read having given [undefined], the NGN table. *)
Definition feesFor (currency : string) : FeeTable :=
  match DELIVERY_FEES_BY_CURRENCY !! currency with
  | Some f => f
  | None => if inherited currency then inheritedMember else NGN_FEES
  end.

Definition calculateDeliveryFee (location currency : string) : value :=
  let fees := feesFor currency in
  if Str.falsy location then local fees
  else
    let normalizedLocation := Str.trim (Str.toLowerCase location) in
    if String.eqb currency "NGN" && Str.includes normalizedLocation "lagos"
    then local fees
    else if String.eqb currency "NGN" then
      if Str.includes normalizedLocation "nigeria"
         || existsb (fun state => Str.includes normalizedLocation state) nigerianStates
         || existsb (fun city => Str.includes normalizedLocation city) nigerianCities
      then national fees
      else international fees
    else if Str.includes normalizedLocation "international"
            || Str.includes normalizedLocation "worldwide"
            || Str.includes normalizedLocation "global"
    then international fees
    else national fees.

Definition calculateServiceFee (subtotal : number) : number :=
  div (Math_round (mul (mul subtotal SERVICE_FEE_PERCENTAGE) (of_Z 100)))
      (of_Z 100).

Record OrderTotals : Type := {
  subtotal : number;
  serviceFee : number;
  deliveryFee : value;
  discountAmount : number;
  total : number;
  currency : string
}.

Definition calculateOrderTotal
    (subtotal : number) (location currency : string)
    (discountAmount : number) : OrderTotals :=
  let serviceFee := calculateServiceFee subtotal in
  let deliveryFee := calculateDeliveryFee location currency in
  let total := add (add subtotal serviceFee) (toNumber deliveryFee) in
  {| subtotal := subtotal;
     serviceFee := serviceFee;
     deliveryFee := deliveryFee;
     discountAmount := discountAmount;
     total := div (Math_round (mul total (of_Z 100))) (of_Z 100);
     currency := currency |}.

(** *** Promo codes *)

(** A [Date] is its time value in milliseconds. *)
Record PromoCode : Type := {
  code : string;
  description : string;
  discount : number;
  isActive : bool;
  maxUses : option number;
  currentUses : option number;
  startDate : option Z;
  endDate : option Z
}.

Definition promo (c d : string) (percent : Z) : PromoCode :=
  {| code := c; description := d; discount := decimal percent 2;
     isActive := true; maxUses := None; currentUses := None;
     startDate := None; endDate := None |}.

Definition PROMO_CODES : gmap string PromoCode :=
  list_to_map
    [ ("WELCOME10", promo "WELCOME10" "10% off your order" 10);
      ("SAVE20", promo "SAVE20" "20% off your order" 20);
      ("FIRST15", promo "FIRST15" "15% off for first-time customers" 15);
      ("STUDENT", promo "STUDENT" "12% student discount" 12);
      ("HOLIDAY25", promo "HOLIDAY25" "25% holiday special" 25) ]%string.

(** The body of [validatePromoCode] over a table of codes and the
    time [now] read from the clock.  A name inherited from
    [Object.prototype] is refused like a code that is not in the table:
    the member found has no property [isActive]. *)
Definition validatePromoCodeIn
    (table : gmap string PromoCode) (now : Z) (c : string)
    : option PromoCode :=
  match table !! c with
  | None => None
  | Some promoCode =>
      if negb (isActive promoCode) then None
      else if match startDate promoCode with
              | Some start => now <? start
              | None => false
              end then None
      else if match endDate promoCode with
              | Some stop => stop <? now
              | None => false
              end then None
      else if match maxUses promoCode, currentUses promoCode with
              | Some cap, Some uses => ge uses cap
              | _, _ => false
              end then None
      else Some promoCode
  end.

Definition validatePromoCode (now : Z) (c : string) : option PromoCode :=
  validatePromoCodeIn PROMO_CODES now c.

Definition calculateDiscount (subtotal : number) (promoCode : PromoCode)
    : number :=
  mul subtotal (discount promoCode).

End Fees.


(** ** Alerts shown to the user *)

Record Alert : Type := { title : string; message : string }.

(** ** components/ProductModal: adding a selection to the cart *)

Module ProductModal.

Record Product : Type := {
  id : string;
  name : string;
  description : string;
  price : number;
  image_url : string;
  category : string;
  sizes : list string;
  colors : list string;
  stock : number
}.

Record CartItem : Type := {
  productId : string;
  productName : string;
  productImage : string;
  itemPrice : number;
  size : string;
  color : string;
  quantity : number
}.

Record Modal : Type := {
  selectedSizes : list string;
  selectedColors : list string;
  selectedQuantity : number;
  loading : bool
}.

Definition resetModal (m : Modal) : Modal :=
  {| selectedSizes := []; selectedColors := [];
     selectedQuantity := of_Z 1; loading := loading m |}.

Definition setLoading (b : bool) (m : Modal) : Modal :=
  {| selectedSizes := selectedSizes m; selectedColors := selectedColors m;
     selectedQuantity := selectedQuantity m; loading := b |}.

(** [prev.includes(x) ? prev.filter(s => s !== x) : [...prev, x]] *)
Definition toggle (x : string) (prev : list string) : list string :=
  if existsb (String.eqb x) prev
  then List.filter (fun s => negb (String.eqb s x)) prev
  else prev ++ [x].

Definition toggleSize (size_ : string) (m : Modal) : Modal :=
  {| selectedSizes := toggle size_ (selectedSizes m);
     selectedColors := selectedColors m;
     selectedQuantity := selectedQuantity m; loading := loading m |}.

Definition toggleColor (color_ : string) (m : Modal) : Modal :=
  {| selectedSizes := selectedSizes m;
     selectedColors := toggle color_ (selectedColors m);
     selectedQuantity := selectedQuantity m; loading := loading m |}.

(** The minus and plus buttons: [setQuantity(Math.max(1, quantity - 1))]
    and [setQuantity(quantity + 1)]. *)
Definition decrementQuantity (m : Modal) : Modal :=
  {| selectedSizes := selectedSizes m; selectedColors := selectedColors m;
     selectedQuantity := Math_max (of_Z 1) (sub (selectedQuantity m) (of_Z 1));
     loading := loading m |}.

Definition incrementQuantity (m : Modal) : Modal :=
  {| selectedSizes := selectedSizes m; selectedColors := selectedColors m;
     selectedQuantity := add (selectedQuantity m) (of_Z 1);
     loading := loading m |}.

(** The two nested [forEach] loops pushing one item per combination. *)
Definition newItems (product : Product) (m : Modal) : list CartItem :=
  flat_map
    (fun size_ =>
       List.map
         (fun color_ =>
            {| productId := id product;
               productName := name product;
               productImage := image_url product;
               itemPrice := price product;
               size := size_;
               color := color_;
               quantity := selectedQuantity m |})
         (selectedColors m))
    (selectedSizes m).

(** What one press of the button did: the alert shown, the list handed
    to [addToCart] when it was called, and the modal afterwards. *)
Record Pressed : Type := {
  shown : Alert;
  handed : option (list CartItem);
  after : Modal
}.

Section HandleAddToCart.

(** Template-literal conversion of a number to text. *)
Variable numberToString : number -> string.

(** Whether the call of [addToCart], a function of the cart context,
    resolves. *)
Variable addToCartResolves : list CartItem -> bool.

Definition handleAddToCart (product : Product) (m : Modal) : Pressed :=
  if (length (selectedSizes m) =? 0)%nat || (length (selectedColors m) =? 0)%nat
  then {| shown := {| title := "Selection Required";
                      message := "Please select at least one size and one color" |};
          handed := None;
          after := m |}
  else
    let items := newItems product m in
    if addToCartResolves items then
      let totalAdded :=
        mul (of_Z (Z.of_nat (length (selectedSizes m))))
            (of_Z (Z.of_nat (length (selectedColors m)))) in
      {| shown := {| title := "Added to Cart";
                     message := "Added " +:+ numberToString totalAdded +:+ " item"
                                +:+ (if lt (of_Z 1) totalAdded then "s" else "")
                                +:+ " to your cart" |};
         handed := Some items;
         after := setLoading false (resetModal (setLoading true m)) |}
    else
      {| shown := {| title := "Error";
                     message := "Failed to add items to cart. Please try again." |};
         handed := Some items;
         after := setLoading false (setLoading true m) |}.

End HandleAddToCart.

End ProductModal.

(** ** app/(customer)/checkout: placing and settling an order *)

Module Checkout.

Import Fees ProductModal.

Record User : Type := { user_id : string; email : string }.

Record Profile : Type := {
  wallet_balance : number;
  preferred_currency : option string;
  profile_location : string
}.

Record OrderItem : Type := {
  product_id : string;
  item_name : string;
  item_price : number;
  item_quantity : number;
  item_size : string;
  item_color : string
}.

Inductive PaymentMethod : Type := wallet | card | paypal.

Definition methodName (p : PaymentMethod) : string :=
  match p with wallet => "wallet" | card => "card" | paypal => "paypal" end.

Record OrderRow : Type := {
  o_user_id : string;
  o_items : list OrderItem;
  o_subtotal : number;
  o_service_fee : number;
  o_delivery_fee : value;
  o_total : number;
  o_payment_method : string;
  o_payment_status : string;
  o_order_status : string;
  o_delivery_address : string;
  o_currency : string;
  o_original_amount : option number;
  o_promo_code : option string;
  o_discount_amount : number
}.

Record TransactionRow : Type := {
  t_user_id : string;
  t_type : string;
  t_amount : number;
  t_currency : option string;
  t_original_amount : option number;
  t_description : string;
  t_reference : string;
  t_status : string;
  t_payment_provider : option string
}.

(** The order kept in [orderData] while a payment sheet is open. *)
Record OrderInfo : Type := {
  i_totals : OrderTotals;
  i_items : list OrderItem;
  i_delivery_address : string;
  i_payment_method : PaymentMethod;
  i_currency : string;
  i_original_amount : number;
  i_appliedPromo : option PromoCode;
  i_discountAmount : number
}.

(** Calls issued to the hosted store and to the contexts. *)
Inductive Call : Type :=
| ValidateStock (order_items : list OrderItem)
| InsertOrder (row : OrderRow)
| UpdateWallet (uid : string) (balance : number)
| InsertTransaction (row : TransactionRow)
| RefreshProfile
| ClearCart.

(** How the remote calls of one attempt answer: an error message when
    a call fails, the id the store gives to the inserted order, and the
    profile the authentication context holds after a refresh. *)
Record Remote : Type := {
  stockValidationError : option string;
  orderError : option string;
  orderId : string;
  walletError : option string;
  transactionError : option string;
  refreshProfileError : option string;
  refreshedProfile : option Profile;
  clearCartError : option string
}.

(** The hosted store, the contexts and the screen. *)
Record State : Type := {
  orders : list (string * OrderRow);
  transactions : list TransactionRow;
  stored_balance : number;
  calls : list Call;
  user : option User;
  profile : option Profile;
  cart : list CartItem;
  items : list CartItem;
  appliedPromo : option PromoCode;
  deliveryAddress : string;
  loading : bool;
  showPaystack : bool;
  showPayPal : bool;
  orderData : option OrderInfo;
  alerts : list Alert
}.

Definition with_store (f : list (string * OrderRow) * list TransactionRow * number
                           -> list (string * OrderRow) * list TransactionRow * number)
    (s : State) : State :=
  let '(o, t, b) := f (orders s, transactions s, stored_balance s) in
  {| orders := o; transactions := t; stored_balance := b;
     calls := calls s; user := user s; profile := profile s; cart := cart s;
     items := items s; appliedPromo := appliedPromo s;
     deliveryAddress := deliveryAddress s; loading := loading s;
     showPaystack := showPaystack s; showPayPal := showPayPal s;
     orderData := orderData s; alerts := alerts s |}.

Definition log (c : Call) (s : State) : State :=
  {| orders := orders s; transactions := transactions s;
     stored_balance := stored_balance s;
     calls := calls s ++ [c]; user := user s; profile := profile s;
     cart := cart s; items := items s; appliedPromo := appliedPromo s;
     deliveryAddress := deliveryAddress s; loading := loading s;
     showPaystack := showPaystack s; showPayPal := showPayPal s;
     orderData := orderData s; alerts := alerts s |}.

Definition with_context (p : option Profile) (c : list CartItem) (s : State) : State :=
  {| orders := orders s; transactions := transactions s;
     stored_balance := stored_balance s;
     calls := calls s; user := user s; profile := p; cart := c;
     items := items s; appliedPromo := appliedPromo s;
     deliveryAddress := deliveryAddress s; loading := loading s;
     showPaystack := showPaystack s; showPayPal := showPayPal s;
     orderData := orderData s; alerts := alerts s |}.

Definition with_screen (l sp spp : bool) (od : option OrderInfo)
    (al : list Alert) (s : State) : State :=
  {| orders := orders s; transactions := transactions s;
     stored_balance := stored_balance s;
     calls := calls s; user := user s; profile := profile s; cart := cart s;
     items := items s; appliedPromo := appliedPromo s;
     deliveryAddress := deliveryAddress s; loading := l;
     showPaystack := sp; showPayPal := spp;
     orderData := od; alerts := al |}.

(** *** Handlers: state passing with exceptions *)

Inductive Outcome (A : Type) : Type :=
| Returned (a : A)
| Thrown (error : string).
Arguments Returned {A} a.
Arguments Thrown {A} error.

Definition M (A : Type) : Type := State -> Outcome A * State.

Definition ret {A} (a : A) : M A := fun s => (Returned a, s).

Definition bind {A B} (m : M A) (k : A -> M B) : M B :=
  fun s =>
    match m s with
    | (Returned a, s') => k a s'
    | (Thrown e, s') => (Thrown e, s')
    end.

Definition throw {A} (e : string) : M A := fun s => (Thrown e, s).

Definition try_catch {A} (m : M A) (handler : string -> M A) : M A :=
  fun s =>
    match m s with
    | (Returned a, s') => (Returned a, s')
    | (Thrown e, s') => handler e s'
    end.

Definition finally {A} (m : M A) (f : M unit) : M A :=
  fun s =>
    let '(r, s') := m s in
    match f s' with
    | (Returned _, s'') => (r, s'')
    | (Thrown e, s'') => (Thrown e, s'')
    end.

Definition modify (f : State -> State) : M unit := fun s => (Returned tt, f s).
Definition get : M State := fun s => (Returned s, s).

Notation "x <- m ;; k" := (bind m (fun x => k))
  (at level 63, m at next level, right associativity).
Notation "m ;;; k" := (bind m (fun _ => k))
  (at level 63, right associativity).

Definition setLoading (b : bool) : M unit :=
  modify (fun s => with_screen b (showPaystack s) (showPayPal s)
                               (orderData s) (alerts s) s).
Definition setShowPaystack (b : bool) : M unit :=
  modify (fun s => with_screen (loading s) b (showPayPal s)
                               (orderData s) (alerts s) s).
Definition setShowPayPal (b : bool) : M unit :=
  modify (fun s => with_screen (loading s) (showPaystack s) b
                               (orderData s) (alerts s) s).
Definition setOrderData (od : OrderInfo) : M unit :=
  modify (fun s => with_screen (loading s) (showPaystack s) (showPayPal s)
                               (Some od) (alerts s) s).
Definition alert (t m : string) : M unit :=
  modify (fun s => with_screen (loading s) (showPaystack s) (showPayPal s)
                               (orderData s)
                               (alerts s ++ [{| title := t; message := m |}]) s).

(** *** Remote calls *)

Definition rpc_validate_stock (r : Remote) (its : list OrderItem)
    : M (option string) :=
  modify (log (ValidateStock its)) ;;; ret (stockValidationError r).

(** Insert into [orders], selecting the created record: its id when
    the insert went through, the error otherwise. *)
Definition insert_order (r : Remote) (row : OrderRow) : M (string + string) :=
  modify (log (InsertOrder row)) ;;;
  match orderError r with
  | Some e => ret (inl e)
  | None =>
      modify (with_store (fun '(o, t, b) => (o ++ [(orderId r, row)], t, b))) ;;;
      ret (inr (orderId r))
  end.

Definition update_wallet (r : Remote) (uid : string) (balance : number)
    : M (option string) :=
  modify (log (UpdateWallet uid balance)) ;;;
  match walletError r with
  | Some e => ret (Some e)
  | None =>
      modify (with_store (fun '(o, t, _) => (o, t, balance))) ;;; ret None
  end.

Definition insert_transaction (r : Remote) (row : TransactionRow)
    : M (option string) :=
  modify (log (InsertTransaction row)) ;;;
  match transactionError r with
  | Some e => ret (Some e)
  | None =>
      modify (with_store (fun '(o, t, b) => (o, t ++ [row], b))) ;;; ret None
  end.

(** [refreshProfile] of [contexts/AuthContext] and [clearCart] of
    [contexts/CartContext] are not among the sources.  Each is a call
    that can fail.  What a refresh loads is left to the environment:
    the profile becomes the one [refreshedProfile] gives.  [clearCart]
    is modelled from the specification, which has the cart cleared: it
    empties the cart. *)
Definition refreshProfile (r : Remote) : M unit :=
  modify (log RefreshProfile) ;;;
  match refreshProfileError r with
  | Some e => throw e
  | None => modify (fun s => with_context (refreshedProfile r) (cart s) s)
  end.

Definition clearCart (r : Remote) : M unit :=
  modify (log ClearCart) ;;;
  match clearCartError r with
  | Some e => throw e
  | None => modify (fun s => with_context (profile s) [] s)
  end.

(** *** The screen's functions *)

Definition orderItem (item : CartItem) : OrderItem :=
  {| product_id := productId item;
     item_name := productName item;
     item_price := itemPrice item;
     item_quantity := quantity item;
     item_size := size item;
     item_color := color item |}.

Definition getSubtotalInNGN (s : State) : number :=
  fold_left (fun sum item => add sum (mul (itemPrice item) (quantity item)))
            (items s) (of_Z 0).

Definition getTotalItems (s : State) : number :=
  fold_left (fun sum item => add sum (quantity item)) (items s) (of_Z 0).

(** [profile?.preferred_currency || 'NGN'] *)
Definition userCurrency (s : State) : string :=
  match profile s with
  | Some p =>
      match preferred_currency p with
      | Some c => if Str.falsy c then "NGN" else c
      | None => "NGN"
      end
  | None => "NGN"
  end.

(** [appliedPromo?.code || null]: no promo code, or one whose code is
    the empty string, is stored as [null]. *)
Definition codeOrNull (applied : option PromoCode) : option string :=
  match applied with
  | Some p => if Str.falsy (code p) then None else Some (code p)
  | None => None
  end.

Definition discountNGN (s : State) : number :=
  match appliedPromo s with
  | Some p => mul (getSubtotalInNGN s) (discount p)
  | None => of_Z 0
  end.

(** The totals of the order, in the base currency, discount applied. *)
Definition orderTotalsNGN (s : State) : OrderTotals :=
  calculateOrderTotal (sub (getSubtotalInNGN s) (discountNGN s))
                      (deliveryAddress s) "NGN" (of_Z 0).

Section Handlers.

(** [convertFromNGN] and [formatCurrency] of [lib/currency], and the
    conversion of a number to text in a template literal. *)
Variable convertFromNGN : number -> string -> number.
Variable formatCurrency : number -> string -> string.
Variable numberToString : number -> string.

Definition getItemPriceInUserCurrency (s : State) (priceInNGN : number) : number :=
  if String.eqb (userCurrency s) "NGN" then priceInNGN
  else convertFromNGN priceInNGN (userCurrency s).

Definition getSubtotal (s : State) : number :=
  fold_left
    (fun sum item =>
       add sum (mul (getItemPriceInUserCurrency s (itemPrice item)) (quantity item)))
    (items s) (of_Z 0).

Definition calculateDiscount (s : State) : number :=
  match appliedPromo s with
  | None => of_Z 0
  | Some p => mul (getSubtotal s) (discount p)
  end.

Definition getDiscountedSubtotal (s : State) : number :=
  sub (getSubtotal s) (calculateDiscount s).

(** The totals shown on the screen, in the currency of the user. *)
Record DisplayTotals : Type := {
  d_subtotal : number;
  d_discount : number;
  d_serviceFee : number;
  d_deliveryFee : value;
  d_total : number
}.

(** The delivery fee of an order priced in NGN is read from the NGN
    table, so it is a number when it is handed to [convertFromNGN]. *)
Definition displayTotals (s : State) : DisplayTotals :=
  let shown (x : number) :=
    if String.eqb (userCurrency s) "NGN" then x
    else convertFromNGN x (userCurrency s) in
  {| d_subtotal := shown (getSubtotalInNGN s);
     d_discount := shown (discountNGN s);
     d_serviceFee := shown (serviceFee (orderTotalsNGN s));
     d_deliveryFee :=
       if String.eqb (userCurrency s) "NGN" then deliveryFee (orderTotalsNGN s)
       else Number (convertFromNGN (toNumber (deliveryFee (orderTotalsNGN s)))
                                   (userCurrency s));
     d_total := shown (total (orderTotalsNGN s)) |}.

Definition paymentDescription (s : State) (applied : option PromoCode)
    : string :=
  "Order payment - " +:+ numberToString (getTotalItems s) +:+ " items"
  +:+ match applied with
      | Some p => " (" +:+ code p +:+ " applied)"
      | None => ""
      end.

Definition processWalletPayment (r : Remote) (u : User) (p : Profile)
    (orderTotals : OrderTotals) (discountAmount : number) : M unit :=
  try_catch
    (s <- get ;;
     let orderItems := List.map orderItem (items s) in
     stockError <- rpc_validate_stock r orderItems ;;
     match stockError with
     | Some m => throw ("Stock validation failed: " +:+ m)
     | None =>
         created <- insert_order r
           {| o_user_id := user_id u;
              o_items := orderItems;
              o_subtotal := subtotal orderTotals;
              o_service_fee := serviceFee orderTotals;
              o_delivery_fee := deliveryFee orderTotals;
              o_total := total orderTotals;
              o_payment_method := "wallet";
              o_payment_status := "paid";
              o_order_status := "pending";
              o_delivery_address := Str.trim (deliveryAddress s);
              o_currency := "NGN";
              o_original_amount := None;
              o_promo_code := codeOrNull (appliedPromo s);
              o_discount_amount := discountAmount |} ;;
         match created with
         | inl e => throw e
         | inr record_id =>
             walletErr <- update_wallet r (user_id u)
                            (sub (wallet_balance p) (total orderTotals)) ;;
             match walletErr with
             | Some e => throw e
             | None =>
                 txErr <- insert_transaction r
                   {| t_user_id := user_id u;
                      t_type := "debit";
                      t_amount := total orderTotals;
                      t_currency := None;
                      t_original_amount := None;
                      t_description := paymentDescription s (appliedPromo s);
                      t_reference := record_id;
                      t_status := "completed";
                      t_payment_provider := None |} ;;
                 match txErr with
                 | Some e => throw e
                 | None =>
                     refreshProfile r ;;;
                     clearCart r ;;;
                     alert "Order Placed Successfully"
                           "Your order has been confirmed and is now pending processing. You will receive updates as it progresses."
                 end
             end
         end
     end)
    (fun e => throw e).

Definition insufficientBalanceMessage (balance needed : number)
    (currency : string) : string :=
  "Your wallet balance is "
  +:+ formatCurrency (convertFromNGN balance currency) currency
  +:+ ". You need "
  +:+ formatCurrency (convertFromNGN needed currency) currency
  +:+ " to complete this order.".

Definition handleOrder (r : Remote) (paymentMethod : PaymentMethod) : M unit :=
  s <- get ;;
  if Str.falsy (Str.trim (deliveryAddress s)) then
    alert "Delivery Address Required" "Please enter your delivery address"
  else
    match user s, profile s with
    | Some u, Some p =>
        setLoading true ;;;
        finally
          (try_catch
             (let subtotalNGN := getSubtotalInNGN s in
              let discountNGN := discountNGN s in
              let discountedSubtotalNGN := sub subtotalNGN discountNGN in
              let orderTotals :=
                calculateOrderTotal discountedSubtotalNGN (deliveryAddress s)
                                    "NGN" (of_Z 0) in
              match paymentMethod with
              | wallet =>
                  if lt (wallet_balance p) (total orderTotals) then
                    alert "Insufficient Balance"
                          (insufficientBalanceMessage
                             (wallet_balance p) (total orderTotals)
                             (userCurrency s)) ;;;
                    setLoading false
                  else processWalletPayment r u p orderTotals discountNGN
              | _ =>
                  let paymentCurrency := userCurrency s in
                  let paymentAmount :=
                    if String.eqb (userCurrency s) "NGN"
                    then total orderTotals
                    else convertFromNGN (total orderTotals) (userCurrency s) in
                  setOrderData
                    {| i_totals := orderTotals;
                       i_items := List.map orderItem (items s);
                       i_delivery_address := Str.trim (deliveryAddress s);
                       i_payment_method := paymentMethod;
                       i_currency := paymentCurrency;
                       i_original_amount := paymentAmount;
                       i_appliedPromo := appliedPromo s;
                       i_discountAmount := discountNGN |} ;;;
                  match paymentMethod with
                  | card =>
                      if String.eqb (userCurrency s) "NGN"
                      then setShowPaystack true
                      else setShowPayPal true
                  | _ => setShowPayPal true
                  end
              end)
             (fun _ => alert "Error" "Failed to process order. Please try again."))
          (setLoading false)
    | _, _ =>
        alert "Authentication Required" "Please sign in to place an order"
    end.

Definition handlePaystackCancel : M unit :=
  setShowPaystack false ;;;
  setLoading false ;;;
  alert "Payment Cancelled" "Your payment was cancelled".

Definition handlePayPalCancel : M unit :=
  setShowPayPal false ;;;
  setLoading false ;;;
  alert "Payment Cancelled" "Your payment was cancelled".

Definition completeOnlinePayment (r : Remote) (u : User)
    (reference provider : string) : M unit :=
  try_catch
    (s <- get ;;
     match orderData s with
     | None => throw "Order data not found"
     | Some od =>
         stockError <- rpc_validate_stock r (i_items od) ;;
         match stockError with
         | Some m => throw ("Stock validation failed: " +:+ m)
         | None =>
             created <- insert_order r
               {| o_user_id := user_id u;
                  o_items := i_items od;
                  o_subtotal := subtotal (i_totals od);
                  o_service_fee := serviceFee (i_totals od);
                  o_delivery_fee := deliveryFee (i_totals od);
                  o_total := total (i_totals od);
                  o_payment_method := provider;
                  o_payment_status := "paid";
                  o_order_status := "pending";
                  o_delivery_address := i_delivery_address od;
                  o_currency := i_currency od;
                  o_original_amount := Some (i_original_amount od);
                  o_promo_code := codeOrNull (i_appliedPromo od);
                  o_discount_amount := orZero (i_discountAmount od) |} ;;
             match created with
             | inl e => throw e
             | inr _ =>
                 txErr <- insert_transaction r
                   {| t_user_id := user_id u;
                      t_type := "debit";
                      t_amount := total (i_totals od);
                      t_currency := Some (i_currency od);
                      t_original_amount := Some (i_original_amount od);
                      t_description := paymentDescription s (i_appliedPromo od);
                      t_reference := reference;
                      t_status := "completed";
                      t_payment_provider := Some provider |} ;;
                 match txErr with
                 | Some e => throw e
                 | None =>
                     clearCart r ;;;
                     alert "Order Placed Successfully"
                           ("Your payment of "
                            +:+ formatCurrency (i_original_amount od) (i_currency od)
                            +:+ " has been processed. Your order is now pending and will be processed soon!")
                 end
             end
         end
     end)
    (fun _ => alert "Error"
                "Payment was successful but failed to create order. Please contact support.").

Definition handlePaystackSuccess (r : Remote) (u : User) (reference : string)
    : M unit :=
  setShowPaystack false ;;; completeOnlinePayment r u reference "paystack".

Definition handlePayPalSuccess (r : Remote) (u : User) (reference : string)
    : M unit :=
  setShowPayPal false ;;; completeOnlinePayment r u reference "paypal".

End Handlers.

End Checkout.

(** * Vocabulary of the properties

    Definitions used to state the properties: they are not part of the
    program. *)

Module StrSpec.

Import Str.

(** A keyword whose first and last code units are not white space. *)
Definition startsSolid (k : string) : bool :=
  match k with
  | EmptyString => false
  | String c _ => negb (is_space c)
  end.

Fixpoint endsSolid (k : string) : bool :=
  match k with
  | EmptyString => false
  | String c EmptyString => negb (is_space c)
  | String _ k' => endsSolid k'
  end.

Definition solid (k : string) : bool := startsSolid k && endsSolid k.

End StrSpec.

Module FeesSpec.

Import Str Fees.

(** The rounding of both fee functions: [Math.round(x * 100) / 100]. *)
Definition roundToCents (x : number) : number :=
  div (Math_round (mul x (of_Z 100))) (of_Z 100).

(** The keyword test of the code, before trimming: [k] is found in the
    lower-cased text of [location]. *)
Definition lowered (location k : string) : bool :=
  includes (toLowerCase location) k.

(** *** Tier selection in the words of the specification

    Case-insensitive substring matching against fixed keyword lists.
    The lists, the matching and the amounts below are written out on
    their own: none of them is taken from the definitions of [Fees]
    and [Str]. *)

(** The code unit [c] is the letter [k] in either case: [k] itself,
    or the capital among A-Z whose small letter is [k]. *)
Definition sameLetter (c k : ascii) : bool :=
  (N_of_ascii c =? N_of_ascii k)%N
  || ((65 <=? N_of_ascii c)%N && (N_of_ascii c <=? 90)%N
      && (N_of_ascii k =? N_of_ascii c + 32)%N).

(** The text [found] is the word [k], letter by letter, in either
    case. *)
Fixpoint sameWord (found k : string) : bool :=
  match found, k with
  | EmptyString, EmptyString => true
  | String a found', String b k' => sameLetter a b && sameWord found' k'
  | _, _ => false
  end.

(** [k] is written at the start of [text], letter case ignored. *)
Fixpoint writtenAt (text k : string) {struct k} : bool :=
  match k, text with
  | EmptyString, _ => true
  | String _ _, EmptyString => false
  | String b k', String a text' => sameLetter a b && writtenAt text' k'
  end.

(** [k] is written somewhere in [text], letter case ignored. *)
Fixpoint occurs (text k : string) : bool :=
  writtenAt text k
  || match text with
     | EmptyString => false
     | String _ rest => occurs rest k
     end.

Definition mentions (location : string) (keywords : list string) : bool :=
  existsb (occurs location) keywords.

Definition localRegions : list string := ["lagos"]%string.

(** The country, its 36 states and the capital territory, and its
    larger cities. *)
Definition domesticRegions : list string :=
  [ "nigeria";
    "abia"; "adamawa"; "akwa ibom"; "anambra"; "bauchi"; "bayelsa"; "benue";
    "borno"; "cross river"; "delta"; "ebonyi"; "edo"; "ekiti"; "enugu";
    "gombe"; "imo"; "jigawa"; "kaduna"; "kano"; "katsina"; "kebbi"; "kogi";
    "kwara"; "nasarawa"; "niger"; "ogun"; "ondo"; "osun"; "oyo"; "plateau";
    "rivers"; "sokoto"; "taraba"; "yobe"; "zamfara"; "abuja"; "fct";
    "aba"; "abakaliki"; "abeokuta"; "ado-ekiti"; "akure"; "awka"; "benin";
    "birnin kebbi"; "calabar"; "damaturu"; "dutse"; "gusau"; "ibadan";
    "ilorin"; "jalingo"; "jos"; "lafia"; "lokoja"; "maiduguri"; "makurdi";
    "minna"; "okene"; "onitsha"; "osogbo"; "owerri"; "port harcourt";
    "uyo"; "warri"; "yenagoa"; "yola"; "zaria" ]%string.

Definition internationalMarkers : list string :=
  ["international"; "worldwide"; "global"]%string.

(** The tier of a delivery: an empty location is local; in the base
    currency a local keyword gives the local tier, otherwise a domestic
    keyword the national tier, otherwise the international tier; in any
    other currency the tier is national unless an international marker
    occurs. *)
Inductive Tier : Type := Local | National | International.

Definition tierOf (location currency : string) : Tier :=
  match location with
  | EmptyString => Local
  | _ =>
      if String.eqb currency "NGN" then
        if mentions location localRegions then Local
        else if mentions location domesticRegions then National
        else International
      else if mentions location internationalMarkers then International
      else National
  end.

Definition tierFee (t : Tier) (fees : FeeTable) : value :=
  match t with
  | Local => local fees
  | National => national fees
  | International => international fees
  end.

(** The amounts of the supported currencies: local, national and
    international. *)
Definition supportedFees : list (string * (Z * Z * Z)) :=
  [ ("NGN", (3500, 5000, 15000)); ("USD", (5, 8, 25)); ("EUR", (4, 7, 20));
    ("GBP", (4, 6, 18)); ("CAD", (6, 9, 28)); ("AUD", (6, 9, 30));
    ("JPY", (500, 800, 2500)); ("CHF", (4, 7, 20)); ("CNY", (30, 50, 150));
    ("INR", (300, 500, 1500)); ("ZAR", (80, 120, 400)) ]%string.

Definition tierAmount (t : Tier) (amounts : Z * Z * Z) : Z :=
  match t, amounts with
  | Local, (l, _, _) => l
  | National, (_, n, _) => n
  | International, (_, _, i) => i
  end.

(** The fee charged to [location] when the amounts in force are
    [amounts], under the rules of [currency]. *)
Definition tierCharge (location currency : string) (amounts : Z * Z * Z)
    : value :=
  Number (of_Z (tierAmount (tierOf location currency) amounts)).

(** A keyword made of code units that case folding leaves alone and
    never produces from another unit below 128: no capital, nothing
    above 127. *)
Definition plainLetter (k : ascii) : bool :=
  (N_of_ascii k <? 128)%N
  && negb ((65 <=? N_of_ascii k)%N && (N_of_ascii k <=? 90)%N).

Fixpoint plainWord (k : string) : bool :=
  match k with
  | EmptyString => true
  | String a k' => plainLetter a && plainWord k'
  end.

(** [k] is one of the keywords [ks]. *)
Definition listed (ks : list string) (k : string) : bool :=
  existsb (String.eqb k) ks.

(** *** Rounding to cents in exact arithmetic *)

(** The value of a finite number in units of [2^-1074]: every finite
    double is a whole number of them. *)
Definition units (x : number) : Z :=
  match x with
  | S754_finite s m e => cond_Zopp s (Zpos m) * 2 ^ (e + 1074)
  | _ => 0
  end.

Definition unitsOf (v : value) : Z := units (toNumber v).

(** A sum of [u] units in cents, rounded half up: [floor (100 * x + 1/2)],
    and whether it lies half-way between two cents. *)
Definition halfUpCents (u : Z) : Z := (200 * u + 2 ^ 1074) / (2 * 2 ^ 1074).

Definition halfWay (u : Z) : bool :=
  (200 * u + 2 ^ 1074) mod (2 * 2 ^ 1074) =? 0.

(** The 2% fee on the decimal [n / 10^k], in cents, rounded half up in
    exact arithmetic: [floor (2 * n / 10^k + 1/2)]. *)
Definition halfUpFeeCents (n : Z) (k : nat) : Z :=
  (4 * n + 10 ^ Z.of_nat k) / (2 * 10 ^ Z.of_nat k).

End FeesSpec.

Module PromoSpec.

Import Fees.

(** The reasons for which a known promo code is refused at time [now]. *)
Definition refused (now : Z) (p : PromoCode) : Prop :=
  isActive p = false
  \/ (exists start, startDate p = Some start /\ now < start)
  \/ (exists stop, endDate p = Some stop /\ stop < now)
  \/ (exists cap uses,
        maxUses p = Some cap /\ currentUses p = Some uses /\ ge uses cap = true).

Definition refusedb (now : Z) (p : PromoCode) : bool :=
  negb (isActive p)
  || match startDate p with Some start => now <? start | None => false end
  || match endDate p with Some stop => stop <? now | None => false end
  || match maxUses p, currentUses p with
     | Some cap, Some uses => ge uses cap
     | _, _ => false
     end.

End PromoSpec.

Module ModalSpec.

Import ProductModal.

(** The selection after the options in [presses] were pressed in turn,
    starting from the empty selection. *)
Definition selectionAfter (presses : list string) : list string :=
  fold_left (fun prev x => toggle x prev) presses [].

Definition pressCount (x : string) (presses : list string) : nat :=
  length (List.filter (String.eqb x) presses).

End ModalSpec.

Module CheckoutSpec.

Import Fees ProductModal Checkout.

Definition failed (e : option string) : bool :=
  match e with Some _ => true | None => false end.

(** The number of calls the wallet settlement issues: it stops at the
    first call that fails. *)
Definition issued (r : Remote) : nat :=
  if failed (stockValidationError r) then 1
  else if failed (orderError r) then 2
  else if failed (walletError r) then 3
  else if failed (transactionError r) then 4
  else if failed (refreshProfileError r) then 5
  else 6.

(** The promo code kept with an order: none without a promo, and
    none for a promo whose code is the empty text. *)
Definition storedCode (applied : option PromoCode) : option string :=
  match applied with
  | None => None
  | Some p =>
      match code p with
      | EmptyString => None
      | String a c => Some (String a c)
      end
  end.

(** The discount kept with an order paid externally: the amount, and 0
    when the amount is a zero or is not a number. *)
Definition storedDiscount (amount : number) : number :=
  match amount with
  | S754_finite _ _ _ | S754_infinity _ => amount
  | S754_zero _ | S754_nan => of_Z 0
  end.

(** The currency in which amounts are shown to a customer: the
    preferred currency of the profile when it names one, NGN
    otherwise. *)
Definition displayCurrency (p : option Profile) : string :=
  match p with
  | Some {| preferred_currency := Some (String a c) |} => String a c
  | _ => "NGN"
  end.

Definition walletOrder (u : User) (t : OrderTotals) (discountAmount : number)
    (s : State) : OrderRow :=
  {| o_user_id := user_id u;
     o_items := List.map orderItem (items s);
     o_subtotal := subtotal t;
     o_service_fee := serviceFee t;
     o_delivery_fee := deliveryFee t;
     o_total := total t;
     o_payment_method := "wallet";
     o_payment_status := "paid";
     o_order_status := "pending";
     o_delivery_address := Str.trim (deliveryAddress s);
     o_currency := "NGN";
     o_original_amount := None;
     o_promo_code := storedCode (appliedPromo s);
     o_discount_amount := discountAmount |}.

(** The state of a signed-in customer with a delivery address. *)
Definition ready (s : State) (u : User) (p : Profile) : Prop :=
  user s = Some u /\ profile s = Some p
  /\ Str.falsy (Str.trim (deliveryAddress s)) = false.

(** What the handlers leave alone when they only touch the screen. *)
Definition sameStore (s after : State) : Prop :=
  orders after = orders s
  /\ transactions after = transactions s
  /\ stored_balance after = stored_balance s
  /\ calls after = calls s
  /\ cart after = cart s.

Definition cancelled : Alert :=
  {| title := "Payment Cancelled"; message := "Your payment was cancelled" |}.

Definition tee : Product :=
  {| id := "p1"; name := "Tee"; description := ""; price := of_Z 9000;
     image_url := ""; category := "tops"; sizes := ["S"; "M"; "L"];
     colors := ["Red"; "Blue"]; stock := of_Z 10 |}%string.

Section Settlement.

Variable convertFromNGN : number -> string -> number.
Variable formatCurrency : number -> string -> string.
Variable numberToString : number -> string.

Definition walletLedgerEntry (r : Remote) (u : User) (t : OrderTotals)
    (s : State) : TransactionRow :=
  {| t_user_id := user_id u;
     t_type := "debit";
     t_amount := total t;
     t_currency := None;
     t_original_amount := None;
     t_description := paymentDescription numberToString s (appliedPromo s);
     t_reference := orderId r;
     t_status := "completed";
     t_payment_provider := None |}.

(** The steps of the wallet settlement, in their order. *)
Definition walletPlan (r : Remote) (u : User) (p : Profile)
    (t : OrderTotals) (discountAmount : number) (s : State) : list Call :=
  [ ValidateStock (List.map orderItem (items s));
    InsertOrder (walletOrder u t discountAmount s);
    UpdateWallet (user_id u) (sub (wallet_balance p) (total t));
    InsertTransaction (walletLedgerEntry r u t s);
    RefreshProfile;
    ClearCart ].

Definition settle (r : Remote) (u : User) (p : Profile)
    (t : OrderTotals) (discountAmount : number) (s : State)
    : Outcome unit * State :=
  processWalletPayment numberToString r u p t discountAmount s.

Definition placeOrder (r : Remote) (method : PaymentMethod) (s : State)
    : Outcome unit * State :=
  handleOrder convertFromNGN formatCurrency numberToString r method s.

(** The row and the ledger entry written when an external payment is
    confirmed, and the steps of that confirmation in their order. *)
Definition onlineOrder (u : User) (od : OrderInfo) (provider : string) : OrderRow :=
  {| o_user_id := user_id u;
     o_items := i_items od;
     o_subtotal := subtotal (i_totals od);
     o_service_fee := serviceFee (i_totals od);
     o_delivery_fee := deliveryFee (i_totals od);
     o_total := total (i_totals od);
     o_payment_method := provider;
     o_payment_status := "paid";
     o_order_status := "pending";
     o_delivery_address := i_delivery_address od;
     o_currency := i_currency od;
     o_original_amount := Some (i_original_amount od);
     o_promo_code := storedCode (i_appliedPromo od);
     o_discount_amount := storedDiscount (i_discountAmount od) |}.

Definition onlineLedgerEntry (u : User) (od : OrderInfo)
    (reference provider : string) (s : State) : TransactionRow :=
  {| t_user_id := user_id u;
     t_type := "debit";
     t_amount := total (i_totals od);
     t_currency := Some (i_currency od);
     t_original_amount := Some (i_original_amount od);
     t_description := paymentDescription numberToString s (i_appliedPromo od);
     t_reference := reference;
     t_status := "completed";
     t_payment_provider := Some provider |}.

Definition onlinePlan (u : User) (od : OrderInfo) (reference provider : string)
    (s : State) : list Call :=
  [ ValidateStock (i_items od);
    InsertOrder (onlineOrder u od provider);
    InsertTransaction (onlineLedgerEntry u od reference provider s);
    ClearCart ].

Definition confirm (r : Remote) (u : User) (reference provider : string)
    (s : State) : Outcome unit * State :=
  completeOnlinePayment formatCurrency numberToString r u reference provider s.

End Settlement.

(** The number of calls the confirmation of an external payment issues. *)
Definition issuedOnline (r : Remote) : nat :=
  if failed (stockValidationError r) then 1
  else if failed (orderError r) then 2
  else if failed (transactionError r) then 3
  else 4.

Definition supportFailure : Alert :=
  {| title := "Error";
     message := "Payment was successful but failed to create order. Please contact support." |}.

(** The screen, apart from the alerts. *)
Definition sameScreen (s after : State) : Prop :=
  loading after = loading s
  /\ showPaystack after = showPaystack s
  /\ showPayPal after = showPayPal s
  /\ orderData after = orderData s.

Definition addressRequired : Alert :=
  {| title := "Delivery Address Required";
     message := "Please enter your delivery address" |}.

Definition signInRequired : Alert :=
  {| title := "Authentication Required";
     message := "Please sign in to place an order" |}.

Definition orderFailed : Alert :=
  {| title := "Error"; message := "Failed to process order. Please try again." |}.

Definition orderPlaced : Alert :=
  {| title := "Order Placed Successfully";
     message := "Your order has been confirmed and is now pending processing. You will receive updates as it progresses." |}.

Definition blank (address : string) : bool := Str.falsy (Str.trim address).

Definition signedIn (s : State) : bool :=
  match user s, profile s with Some _, Some _ => true | _, _ => false end.

(** *** A customer paying a 1000 NGN order to Lagos from the wallet *)

Definition customer : User := {| user_id := "u1"; email := "ada@example.com" |}.

Definition account (balance : number) : Profile :=
  {| wallet_balance := balance; preferred_currency := Some "NGN"%string;
     profile_location := "Lagos" |}.

Definition shirt : CartItem :=
  {| productId := "p1"; productName := "Tee"; productImage := "";
     itemPrice := of_Z 1000; size := "M"; color := "Red";
     quantity := of_Z 1 |}.

Definition atCheckout (balance : number) : State :=
  {| orders := []; transactions := []; stored_balance := balance;
     calls := []; user := Some customer; profile := Some (account balance);
     cart := [shirt]; items := [shirt]; appliedPromo := None;
     deliveryAddress := "Lagos"; loading := false; showPaystack := false;
     showPayPal := false; orderData := None; alerts := [] |}.

Definition allGood : Remote :=
  {| stockValidationError := None; orderError := None; orderId := "o1";
     walletError := None; transactionError := None;
     refreshProfileError := None;
     refreshedProfile := Some (account (of_Z 0));
     clearCartError := None |}.

(** *** A customer abroad, and a cart whose price is beyond the doubles *)

Definition abroad (balance : number) : Profile :=
  {| wallet_balance := balance; preferred_currency := Some "USD"%string;
     profile_location := "Lagos" |}.

Definition atCheckoutAbroad (balance : number) : State :=
  {| orders := []; transactions := []; stored_balance := balance;
     calls := []; user := Some customer; profile := Some (abroad balance);
     cart := [shirt]; items := [shirt]; appliedPromo := None;
     deliveryAddress := "Lagos"; loading := false; showPaystack := false;
     showPayPal := false; orderData := None; alerts := [] |}.

(** The cart text [{price: 1e999, quantity: 1}] is read as a price of
    [Infinity]. *)
Definition priceless : CartItem :=
  {| productId := "p1"; productName := "Tee"; productImage := "";
     itemPrice := Infinity; size := "M"; color := "Red";
     quantity := of_Z 1 |}.

Definition welcome10 : PromoCode := promo "WELCOME10" "10% off your order" 10.

Definition atCheckoutPriceless (balance : number) : State :=
  {| orders := []; transactions := []; stored_balance := balance;
     calls := []; user := Some customer; profile := Some (account balance);
     cart := [priceless]; items := [priceless]; appliedPromo := Some welcome10;
     deliveryAddress := "Lagos"; loading := false; showPaystack := false;
     showPayPal := false; orderData := None; alerts := [] |}.

Definition sameAmount (a : number) (_ : string) : number := a.
Definition currencyOnly (_ : number) (c : string) : string := c.
Definition noDigits (_ : number) : string := "n".

End CheckoutSpec.

(** ** The value of a number and its rounding

    The arithmetic of the fees is followed on integers: a number that
    is not negative is taken to its value in units of [2^-1074], the
    smallest positive double, and each operation of [Num] is described
    by a function on these values. *)

Module RoundSpec.

(** One step of a right shift that keeps the lost bits in a sticky
    last bit: [w >> 1 | w & 1]. *)
Definition ss1 (w : Z) : Z :=
  if (w mod 2 =? 1) && (w / 2 mod 2 =? 0) then w / 2 + 1 else w / 2.

Definition ss (n : nat) (w : Z) : Z := Nat.iter n ss1 w.

(** A code [4 * m + g] is a mantissa [m] followed by a round bit and a
    sticky bit; [rne4] rounds it to the nearest mantissa, ties to even. *)
Definition rne4 (w : Z) : Z :=
  if (w mod 4 =? 3) || ((w mod 4 =? 2) && (w / 4 mod 2 =? 1)) then w / 4 + 1 else w / 4.

(** The value of [Infinity]: above every finite double. *)
Definition TOP : Z := 2 ^ 2098.

(** The double nearest to the quantity of code [f] at the exponent
    [e0], as a value. *)
Definition rndZ (e0 f : Z) : Z :=
  let e1 := fexp prec emax (Zdigits2 (f / 4) + e0) in
  Z.min TOP (rne4 (ss (Z.to_nat (e1 - e0)) f) * 2 ^ (e1 + 1074)).

(** The two guard bits of a location and the code of a shift record. *)
Definition loc_code (l : location) : Z :=
  match l with
  | loc_Exact => 0
  | loc_Inexact Lt => 1
  | loc_Inexact Eq => 2
  | loc_Inexact Gt => 3
  end.

Definition enc (r : shr_record) : Z :=
  4 * shr_m r + (if shr_r r then 2 else 0) + (if shr_s r then 1 else 0).

(** The value of a number that is not negative, in units of [2^-1074];
    [-1] stands for the numbers that have none. *)
Definition ival (x : number) : Z :=
  match x with
  | S754_zero _ => 0
  | S754_finite false m e => Z.pos m * 2 ^ (e + 1074)
  | S754_infinity false => TOP
  | _ => -1
  end.

(** [+0], the positive doubles and [Infinity]. *)
Definition nonneg (x : number) : bool :=
  valid x &&
  match x with
  | S754_zero false | S754_infinity false | S754_finite false _ _ => true
  | _ => false
  end.

(** The number made of a rounded mantissa and its exponent. *)
Definition pack (m1 e1 : Z) : number :=
  match m1 with
  | Z0 => S754_zero false
  | Zpos mm =>
      if m1 =? 2 ^ 53 then
        if e1 + 1 <=? 971 then S754_finite false (2 ^ 52) (e1 + 1)
        else S754_infinity false
      else if e1 <=? 971 then S754_finite false mm e1
      else S754_infinity false
  | Zneg _ => S754_nan
  end.

(** The operations on values: product, sum and difference. *)
Definition mulZ (a c : Z) : Z :=
  if a =? TOP then TOP else rndZ (-2148) (4 * (a * c)).

Definition addZ (a b : Z) : Z :=
  if (a =? TOP) || (b =? TOP) then TOP else rndZ (-1074) (4 * (a + b)).

Definition subZ (a b : Z) : Z :=
  if a =? TOP then TOP else rndZ (-1074) (4 * (a - b)).

(** The code, in half units, of the quotient [N / D], and the guard
    bits of a remainder [r] modulo [D]. *)
Definition sq (N D : Z) : Z := 2 * (N / D) + (if N mod D =? 0 then 0 else 1).

Definition guard (r D : Z) : Z :=
  if r =? 0 then 0 else if 2 * r <? D then 1 else if 2 * r =? D then 2 else 3.

(** The quotient by the positive double [m * 2^e]. *)
Definition divZ (a : Z) (m : positive) (e : Z) : Z :=
  if a =? TOP then TOP
  else rndZ (-2200) (sq (a * 2 ^ (1127 - e)) (Z.pos m)).

(** [Math.round] on values: below [2^52] the nearest integer, the
    upper one on a tie; from there on every double is an integer. *)
Definition roundZ (a : Z) : Z :=
  if a <? 2 ^ 1126 then (a + 2 ^ 1073) / 2 ^ 1074 * 2 ^ 1074 else a.

(** A positive finite double. *)
Definition posfin (c : number) : bool :=
  match c with S754_finite false _ _ => valid c | _ => false end.

(** [x] and [y] are not negative and [x <= y]. *)
Definition rel (x y : number) : Prop :=
  nonneg x = true /\ nonneg y = true /\ ival x <= ival y.

(** Twice a value, [Infinity] from the largest binade on; [dd x y]:
    [y] is at least twice [x]. *)
Definition dbl (a : Z) : Z := Z.min TOP (2 * a).

Definition dd (x y : number) : Prop :=
  nonneg x = true /\ nonneg y = true /\ dbl (ival x) <= ival y.

(** [x], a zero taken as [+0]. *)
Definition plus (x : number) : number :=
  match x with S754_zero _ => S754_zero false | _ => x end.

(** Proof steps: division by a numeral, and linear arithmetic with
    the large powers of two kept abstract. *)
Ltac divmod := Z.to_euclidean_division_equations; lia.

Ltac hide_pow k :=
  let P := fresh "pw" in set (P := 2 ^ k) in *; clearbody P.

Ltac is_large k :=
  match eval compute in (200 <? k) with true => idtac end.

Ltac hide_pows :=
  repeat match goal with
         | |- context [2 ^ ?k] => is_large k; hide_pow k
         | H : context [2 ^ ?k] |- _ => is_large k; hide_pow k
         end.

Ltac zlia := hide_pows; lia.
Ltac znia := hide_pows; nia.
Ltac zring := hide_pows; ring.

End RoundSpec.

Module TotalSpec.

Import Fees FeesSpec.

(** The total of [calculateOrderTotal] as a function of the subtotal
    and the delivery fee, and the same without delivery fee. *)
Definition totalOf (s d : number) : number :=
  roundToCents (add (add s (calculateServiceFee s)) d).

Definition feeOnly (s : number) : number :=
  roundToCents (add s (calculateServiceFee s)).

(** [f] iterated from [a] reaches [goal] within [fuel] steps. *)
Fixpoint climb (f : number -> number) (goal : number) (fuel : nat) (a : number)
  : bool :=
  if le goal a then true
  else match fuel with
       | O => false
       | S n => climb f goal n (f a)
       end.

Definition two52 : number := S754_finite false (2 ^ 52) 0.
Definition two53 : number := S754_finite false (2 ^ 52) 1.

End TotalSpec.

Module QuantitySpec.

Import ProductModal.

(** The plus and minus buttons of the quantity, and a sequence of
    presses. *)
Inductive Button : Type := Plus | Minus.

Definition press (b : Button) (m : Modal) : Modal :=
  match b with
  | Plus => incrementQuantity m
  | Minus => decrementQuantity m
  end.

Definition pressAll (bs : list Button) (m : Modal) : Modal :=
  fold_left (fun m b => press b m) bs m.

End QuantitySpec.

Module CartSpec.

Import ProductModal.

(** A finite number that is at least 0, and an item whose price and
    quantity are such numbers. *)
Definition saneNumber (x : number) : bool :=
  valid x && le (of_Z 0) x && lt x Infinity.

Definition saneItem (it : CartItem) : bool :=
  saneNumber (itemPrice it) && saneNumber (quantity it).

End CartSpec.

(** * Properties *)

(** ** Strings: trimming does not change which keywords occur *)

Module StrFacts.

Import Str StrSpec.

Lemma startsWith_cons c s a k :
  startsWith (String c s) (String a k) = Ascii.eqb a c && startsWith s k.
Proof. reflexivity. Qed.

Lemma startsWith_empty k : k <> EmptyString -> startsWith EmptyString k = false.
Proof. now destruct k. Qed.

Lemma startsWith_nil s : startsWith s EmptyString = true.
Proof. reflexivity. Qed.

Lemma includes_cons c s k :
  includes (String c s) k = startsWith (String c s) k || includes s k.
Proof. reflexivity. Qed.

Lemma startsWith_space c s k :
  is_space c = true -> startsSolid k = true -> startsWith (String c s) k = false.
Proof.
  destruct k as [|a k]; [discriminate|].
  rewrite startsWith_cons. cbn [startsSolid].
  intros Hc Ha. destruct (Ascii.eqb_spec a c) as [->|]; [|reflexivity].
  rewrite Hc in Ha. discriminate.
Qed.

Lemma includes_trimStart s k :
  startsSolid k = true -> includes (trimStart s) k = includes s k.
Proof.
  intros Hk. induction s as [|c s IH]; [reflexivity|].
  cbn [trimStart]. destruct (is_space c) eqn:Hc; [|reflexivity].
  rewrite IH, includes_cons. now rewrite (startsWith_space c s k Hc Hk).
Qed.

Lemma trimEnd_cons c s :
  trimEnd (String c s) =
  match trimEnd s with
  | EmptyString => if is_space c then EmptyString else String c EmptyString
  | _ => String c (trimEnd s)
  end.
Proof. cbn [trimEnd]. now destruct (trimEnd s). Qed.

Lemma endsSolid_nonempty k : endsSolid k = true -> k <> EmptyString.
Proof. now destruct k. Qed.

Lemma startsWith_trimEnd s :
  forall k, endsSolid k = true -> startsWith (trimEnd s) k = startsWith s k.
Proof.
  induction s as [|c s IH]; intros k Hk; [reflexivity|].
  destruct k as [|a k]; [discriminate|].
  rewrite trimEnd_cons, (startsWith_cons c s).
  destruct k as [|b k].
  - cbn [endsSolid] in Hk. rewrite startsWith_nil, andb_true_r.
    destruct (trimEnd s) eqn:Ht.
    + destruct (is_space c) eqn:Hc.
      * rewrite startsWith_empty by discriminate.
        destruct (Ascii.eqb_spec a c) as [->|]; [|reflexivity].
        rewrite Hc in Hk. discriminate.
      * now rewrite startsWith_cons, startsWith_nil, andb_true_r.
    + now rewrite startsWith_cons, startsWith_nil, andb_true_r.
  - assert (Hk' : endsSolid (String b k) = true) by exact Hk.
    rewrite <- (IH _ Hk').
    destruct (trimEnd s) eqn:Ht.
    + rewrite (startsWith_empty (String b k)) by discriminate.
      rewrite andb_false_r.
      destruct (is_space c).
      * now rewrite startsWith_empty by discriminate.
      * rewrite startsWith_cons, (startsWith_empty (String b k)) by discriminate.
        apply andb_false_r.
    + now rewrite startsWith_cons.
Qed.

Lemma includes_trimEnd s k :
  endsSolid k = true -> includes (trimEnd s) k = includes s k.
Proof.
  intros Hk. pose proof (endsSolid_nonempty k Hk) as Hne.
  induction s as [|c s IH]; [reflexivity|].
  rewrite includes_cons, <- (startsWith_trimEnd (String c s) k Hk), <- IH.
  rewrite trimEnd_cons.
  destruct (trimEnd s) eqn:Ht.
  - destruct (is_space c).
    + cbn [includes]. now rewrite startsWith_empty.
    + rewrite includes_cons. reflexivity.
  - now rewrite includes_cons.
Qed.

Lemma includes_trim s k : solid k = true -> includes (trim s) k = includes s k.
Proof.
  unfold solid, trim. intros [H1 H2]%andb_prop.
  now rewrite includes_trimEnd, includes_trimStart.
Qed.

Lemma existsb_includes_trim s ks :
  forallb solid ks = true ->
  existsb (fun k => includes (trim s) k) ks = existsb (fun k => includes s k) ks.
Proof.
  induction ks as [|k ks IH]; [reflexivity|].
  cbn [forallb existsb]. intros [H1 H2]%andb_prop.
  now rewrite IH, includes_trim.
Qed.

End StrFacts.

(** ** lib/fees *)

Module FeesFacts.

Import Str StrSpec StrFacts Fees FeesSpec.

Lemma keywords_solid :
  forallb solid
    (["lagos"; "nigeria"; "international"; "worldwide"; "global"]%string
     ++ nigerianStates ++ nigerianCities) = true.
Proof. vm_compute. reflexivity. Qed.

Lemma lookup_NGN : DELIVERY_FEES_BY_CURRENCY !! "NGN"%string = Some NGN_FEES.
Proof. vm_compute. reflexivity. Qed.

Lemma feesFor_NGN : feesFor "NGN" = NGN_FEES.
Proof. unfold feesFor. now rewrite lookup_NGN. Qed.

Lemma feesFor_unknown currency :
  DELIVERY_FEES_BY_CURRENCY !! currency = None -> inherited currency = false ->
  feesFor currency = NGN_FEES.
Proof. unfold feesFor. now intros -> ->. Qed.

(** No name of [Object.prototype] is a currency of the table. *)
Lemma inherited_unlisted currency :
  inherited currency = true -> DELIVERY_FEES_BY_CURRENCY !! currency = None.
Proof.
  unfold inherited. intros (k & Hk & E)%existsb_exists.
  apply String.eqb_eq in E. subst k. cbn [Object_prototype List.In] in Hk.
  repeat (destruct Hk as [<-|Hk]; [vm_compute; reflexivity|]).
  destruct Hk.
Qed.

Lemma feesFor_inherited currency :
  inherited currency = true -> feesFor currency = inheritedMember.
Proof.
  intros H. unfold feesFor. now rewrite (inherited_unlisted _ H), H.
Qed.

Lemma falsy_spec s : falsy s = true <-> s = EmptyString.
Proof. destruct s; simpl; split; congruence. Qed.

(** The decision of [calculateDeliveryFee], with the keyword tests
    stated on the lower-cased text of the location, untrimmed. *)
Lemma calculateDeliveryFee_unfold location currency :
  calculateDeliveryFee location currency =
  let fees := feesFor currency in
  if falsy location then local fees
  else if String.eqb currency "NGN" then
    if lowered location "lagos" then local fees
    else if existsb (lowered location)
              (("nigeria"%string :: nigerianStates) ++ nigerianCities)
    then national fees
    else international fees
  else if existsb (lowered location)
            ["international"; "worldwide"; "global"]%string
  then international fees
  else national fees.
Proof.
  unfold calculateDeliveryFee, lowered.
  cbv zeta. destruct (falsy location); [reflexivity|].
  rewrite existsb_app. cbn [existsb].
  rewrite !includes_trim by (vm_compute; reflexivity).
  rewrite !existsb_includes_trim by (vm_compute; reflexivity).
  rewrite !orb_false_r.
  destruct (String.eqb currency "NGN"); cbn [andb].
  - now destruct (includes (toLowerCase location) "lagos").
  - now rewrite orb_assoc.
Qed.

(** *** Lower-casing the text against matching in either case *)

Lemma eqb_codes (a b : ascii) :
  Ascii.eqb a b = (N_of_ascii a =? N_of_ascii b)%N.
Proof.
  destruct (Ascii.eqb_spec a b) as [->|Hne].
  - now rewrite N.eqb_refl.
  - symmetry. apply N.eqb_neq. intros E. apply Hne.
    rewrite <- (ascii_N_embedding a), <- (ascii_N_embedding b). now rewrite E.
Qed.

Lemma code_lower_char (c : ascii) :
  N_of_ascii (lower_char c) =
  (if ((65 <=? N_of_ascii c) && (N_of_ascii c <=? 90))
      || ((192 <=? N_of_ascii c) && (N_of_ascii c <=? 222)
          && negb (N_of_ascii c =? 215))
   then N_of_ascii c + 32 else N_of_ascii c)%N.
Proof.
  unfold lower_char, Str.code.
  pose proof (N_ascii_bounded c) as Hb.
  destruct ((65 <=? N_of_ascii c) && (N_of_ascii c <=? 90))%N eqn:E1.
  - cbn [orb]. apply N_ascii_embedding.
    apply andb_prop in E1 as [_ H%N.leb_le]. lia.
  - cbn [orb].
    destruct ((192 <=? N_of_ascii c) && (N_of_ascii c <=? 222)
              && negb (N_of_ascii c =? 215))%N eqn:E2; [|reflexivity].
    apply N_ascii_embedding.
    apply andb_prop in E2 as [[_ H%N.leb_le]%andb_prop _]. lia.
Qed.

Lemma lower_char_plain (c k : ascii) :
  plainLetter k = true -> Ascii.eqb k (lower_char c) = sameLetter c k.
Proof.
  unfold plainLetter, sameLetter. intros Hk.
  rewrite eqb_codes, code_lower_char.
  set (n := N_of_ascii c) in *. set (m := N_of_ascii k) in *. clearbody n m.
  apply andb_prop in Hk as [Hm%N.ltb_lt Hcap].
  apply negb_true_iff in Hcap.
  destruct (N.leb_spec 65 n), (N.leb_spec n 90), (N.leb_spec 192 n),
    (N.leb_spec n 222), (N.eqb_spec n 215); cbn [andb orb negb];
    try lia;
    destruct (N.eqb_spec m (n + 32)), (N.eqb_spec n m), (N.eqb_spec m n);
    cbn [orb]; try reflexivity; try lia;
    exfalso; subst;
    destruct (N.leb_spec 65 m), (N.leb_spec m 90); cbn [andb] in Hcap;
    try discriminate; lia.
Qed.

Lemma startsWith_lowered text :
  forall k, plainWord k = true ->
    startsWith (toLowerCase text) k = writtenAt text k.
Proof.
  induction text as [|c text IH]; intros [|a k] Hk; try reflexivity.
  cbn [plainWord] in Hk. apply andb_prop in Hk as [Ha Hk].
  cbn [toLowerCase startsWith writtenAt].
  now rewrite (lower_char_plain c a Ha), (IH k Hk).
Qed.

Lemma lowered_occurs text k :
  plainWord k = true -> lowered text k = occurs text k.
Proof.
  intros Hk. unfold lowered.
  induction text as [|c text IH].
  - pose proof (startsWith_lowered EmptyString k Hk) as E.
    cbn [toLowerCase] in E. cbn [toLowerCase includes occurs]. now rewrite E.
  - change (toLowerCase (String c text))
      with (String (lower_char c) (toLowerCase text)).
    rewrite includes_cons.
    change (String (lower_char c) (toLowerCase text))
      with (toLowerCase (String c text)).
    rewrite (startsWith_lowered (String c text) k Hk), IH. reflexivity.
Qed.

(** What [occurs] decides: the text holds, somewhere, the word in
    either case. *)
Lemma writtenAt_spec k :
  forall text,
    writtenAt text k = true
    <-> exists found rest, text = found +:+ rest /\ sameWord found k = true.
Proof.
  induction k as [|b k IH]; intros text.
  - split; [intros _; now exists EmptyString, text|].
    intros (found & rest & -> & H). now destruct found.
  - destruct text as [|a text].
    + split; [discriminate|]. intros (found & rest & E & H).
      destruct found; [discriminate H|discriminate E].
    + cbn [writtenAt]. rewrite andb_true_iff, IH. split.
      * intros (Ha & found & rest & -> & H). exists (String a found), rest.
        split; [reflexivity|]. cbn [sameWord]. now rewrite Ha.
      * intros (found & rest & E & H). destruct found as [|a' found];
          [discriminate H|].
        cbn [sameWord] in H. apply andb_prop in H as [Ha H].
        cbn in E. injection E as -> ->. split; [exact Ha|]. now exists found, rest.
Qed.

Lemma occurs_spec k :
  forall text,
    occurs text k = true
    <-> exists before found rest,
          text = before +:+ found +:+ rest /\ sameWord found k = true.
Proof.
  induction text as [|c text IH].
  - cbn [occurs]. rewrite orb_false_r, writtenAt_spec. split.
    + intros (found & rest & E & H). now exists EmptyString, found, rest.
    + intros (before & found & rest & E & H).
      destruct before; [|discriminate E]. now exists found, rest.
  - cbn [occurs]. rewrite orb_true_iff, writtenAt_spec, IH. split.
    + intros [(found & rest & E & H)|(before & found & rest & E & H)].
      * now exists EmptyString, found, rest.
      * exists (String c before), found, rest. split; [|exact H].
        cbn. now rewrite E.
    + intros (before & found & rest & E & H). destruct before as [|c' before].
      * left. now exists found, rest.
      * right. cbn in E. injection E as -> ->. now exists before, found, rest.
Qed.

Lemma existsb_lowered text ks :
  forallb plainWord ks = true ->
  existsb (lowered text) ks = existsb (occurs text) ks.
Proof.
  induction ks as [|k ks IH]; [reflexivity|].
  cbn [forallb existsb]. intros [H1 H2]%andb_prop.
  now rewrite IH, lowered_occurs.
Qed.

(** Two lists of keywords with the same members are mentioned by the
    same locations. *)
Lemma existsb_listed (f : string -> bool) (l1 l2 : list string) :
  forallb (listed l2) l1 = true -> existsb f l1 = true -> existsb f l2 = true.
Proof.
  intros Hin (k & Hk & Hf)%existsb_exists.
  apply existsb_exists. exists k. split; [|exact Hf].
  rewrite forallb_forall in Hin. specialize (Hin k Hk).
  unfold listed in Hin. apply existsb_exists in Hin as (k' & Hk' & E).
  apply String.eqb_eq in E. now subst.
Qed.

Lemma existsb_same_members (f : string -> bool) (l1 l2 : list string) :
  forallb (listed l2) l1 = true -> forallb (listed l1) l2 = true ->
  existsb f l1 = existsb f l2.
Proof.
  intros H12 H21.
  destruct (existsb f l1) eqn:E1, (existsb f l2) eqn:E2; try reflexivity.
  - now rewrite (existsb_listed f l1 l2 H12 E1) in E2.
  - now rewrite (existsb_listed f l2 l1 H21 E2) in E1.
Qed.

(** The fee charged is the fee of the tier of the specification. *)
Lemma deliveryFee_by_tier location currency :
  calculateDeliveryFee location currency
  = tierFee (tierOf location currency) (feesFor currency).
Proof.
  rewrite calculateDeliveryFee_unfold. cbv zeta. unfold tierOf, mentions.
  destruct location as [|c location]; [reflexivity|]. cbn [falsy].
  set (l := String c location).
  rewrite !existsb_lowered by (vm_compute; reflexivity).
  rewrite (lowered_occurs l "lagos") by reflexivity.
  rewrite (existsb_same_members (occurs l)
             (("nigeria"%string :: nigerianStates) ++ nigerianCities)
             domesticRegions)
    by (vm_compute; reflexivity).
  unfold localRegions, internationalMarkers. cbn [existsb].
  rewrite !orb_false_r.
  destruct (String.eqb currency "NGN").
  - destruct (occurs l "lagos"); [reflexivity|].
    now destruct (existsb (occurs l) domesticRegions).
  - now destruct (occurs l "international"), (occurs l "worldwide"),
      (occurs l "global").
Qed.

Lemma supported_table c amounts :
  List.In (c, amounts) supportedFees ->
  feesFor c
  = {| local := Number (of_Z (tierAmount Local amounts));
       national := Number (of_Z (tierAmount National amounts));
       international := Number (of_Z (tierAmount International amounts)) |}.
Proof.
  cbn [supportedFees List.In]. intros H.
  repeat (destruct H as [[= <- <-]|H]; [vm_compute; reflexivity|]).
  destruct H.
Qed.

Lemma deliveryFee_NGN location :
  calculateDeliveryFee location "NGN"
  = tierCharge location "NGN" (3500, 5000, 15000).
Proof.
  rewrite deliveryFee_by_tier, (supported_table "NGN" (3500, 5000, 15000)).
  - unfold tierCharge. now destruct (tierOf location "NGN").
  - now left.
Qed.

(** C1 at the subtotal 0.025 sent to Enugu.  [calculateOrderTotal]
    returns the fee of the subtotal and of the location, carries the
    discount through, and its total does not depend on it; 1000 to
    Lagos totals 4520.  The total is not always the sum rounded to
    cents: for 0.025 the fee is 0 and the delivery 5000; the double
    0.025 lies above 0.025, so the sum lies above 5000.025, off the
    half-way point, and rounds to 5000.03, yet the total returned is
    5000.02, because the sum is first rounded to the double
    5000.0249999999996362. *)
Theorem calculateOrderTotal_at_0_025 :
  (forall (sub : number) (location currency : string) (discountAmount : number),
     let t := calculateOrderTotal sub location currency discountAmount in
     serviceFee t = calculateServiceFee sub
     /\ deliveryFee t = calculateDeliveryFee location currency
     /\ Fees.discountAmount t = discountAmount
     /\ subtotal t = sub
     /\ forall other : number,
          total (calculateOrderTotal sub location currency other) = total t)
  /\ total (calculateOrderTotal (of_Z 1000) "Lagos" "NGN" (of_Z 0)) = of_Z 4520
  /\ let t := calculateOrderTotal (decimal 25 3) "Enugu" "NGN" (of_Z 0) in
     let sum := units (subtotal t) + units (serviceFee t) + unitsOf (deliveryFee t) in
     serviceFee t = of_Z 0
     /\ deliveryFee t = Number (of_Z 5000)
     /\ total t = decimal 500002 2
     /\ add (add (subtotal t) (serviceFee t)) (toNumber (deliveryFee t))
        = S754_finite false 5497585626670694 (-40)
     /\ 500002 * 2 ^ 1074 < 100 * sum < 500003 * 2 ^ 1074
     /\ halfUpCents sum = 500003
     /\ halfWay sum = false
     /\ decimal 500002 2 <> decimal 500003 2.
Proof.
  split; [|split].
  - intros sub location currency discountAmount. cbv zeta. now repeat split.
  - vm_compute. reflexivity.
  - vm_compute. repeat split; discriminate.
Qed.

(** C2, at the subtotal 7.25: 2% of 7.25 is 0.145, which rounds half up
    to 15 cents, but [calculateServiceFee] returns 0.14, because the
    product 7.25 * 0.02 * 100 is the double 14.499999999999998. *)
Theorem calculateServiceFee_at_7_25 :
  calculateServiceFee (decimal 725 2) = decimal 14 2
  /\ mul (mul (decimal 725 2) SERVICE_FEE_PERCENTAGE) (of_Z 100)
     = S754_finite false 8162774324609023 (-49)
  /\ decimal 145 1 = S754_finite false 8162774324609024 (-49)
  /\ halfUpFeeCents 725 2 = 15
  /\ decimal 14 2 <> decimal 15 2.
Proof. vm_compute. repeat split; discriminate. Qed.

(** C3: [calculateDeliveryFee] charges the tier the specification
    selects: local for the empty location; in NGN local (3500) when the
    location mentions a local region, else national (5000) when it
    mentions the country, a state or a city, else international
    (15000); in any other currency international when it mentions
    international, worldwide or global, else national.  Matching
    ignores letter case.  For each supported currency the fee is the
    amount of that tier for that currency. *)
Theorem calculateDeliveryFee_tiers (location currency : string) :
  calculateDeliveryFee location currency
  = tierFee (tierOf location currency) (feesFor currency)
  /\ (forall amounts,
        List.In (currency, amounts) supportedFees ->
        calculateDeliveryFee location currency
        = tierCharge location currency amounts)
  /\ calculateDeliveryFee location "NGN"
     = tierCharge location "NGN" (3500, 5000, 15000)
  /\ calculateDeliveryFee "Lagos" "NGN" = Number (of_Z 3500)
  /\ calculateDeliveryFee "Enugu" "NGN" = Number (of_Z 5000)
  /\ calculateDeliveryFee "Paris" "NGN" = Number (of_Z 15000)
  /\ calculateDeliveryFee "" "USD" = Number (of_Z 5)
  /\ calculateDeliveryFee "Paris" "USD" = Number (of_Z 8)
  /\ calculateDeliveryFee "Worldwide Express" "USD" = Number (of_Z 25).
Proof.
  assert (H : forall c amounts,
            List.In (c, amounts) supportedFees ->
            calculateDeliveryFee location c = tierCharge location c amounts).
  { intros c amounts Hin. rewrite deliveryFee_by_tier.
    rewrite (supported_table c amounts Hin). unfold tierCharge.
    now destruct (tierOf location c). }
  split; [apply deliveryFee_by_tier|].
  split; [apply H|].
  split; [apply H; now left|].
  vm_compute. repeat split.
Qed.

Example deliveryFee_Lagos_Nigeria :
  calculateDeliveryFee "12 Allen Avenue, Ikeja, LAGOS, Nigeria" "NGN"
  = Number (of_Z 3500).
Proof. vm_compute. reflexivity. Qed.

Lemma unknown_not_NGN currency :
  DELIVERY_FEES_BY_CURRENCY !! currency = None -> String.eqb currency "NGN" = false.
Proof.
  intros H. destruct (String.eqb_spec currency "NGN") as [->|]; [|reflexivity].
  rewrite lookup_NGN in H. discriminate.
Qed.

(** For a currency outside the table that is no inherited name, the NGN
    amounts are charged under the rules of the other currencies. *)
Lemma unknown_currency_charge (currency location : string) :
  DELIVERY_FEES_BY_CURRENCY !! currency = None -> inherited currency = false ->
  calculateDeliveryFee location currency
  = tierCharge location currency (3500, 5000, 15000).
Proof.
  intros H Hi. rewrite deliveryFee_by_tier, (feesFor_unknown _ H Hi).
  unfold tierCharge. now destruct (tierOf location currency).
Qed.

Lemma inherited_currency_fee (currency location : string) :
  inherited currency = true -> calculateDeliveryFee location currency = Undefined.
Proof.
  intros Hi. rewrite deliveryFee_by_tier, (feesFor_inherited _ Hi).
  now destruct (tierOf location currency).
Qed.

(** C10 at the currency [constructor] and the location Paris.  The
    name is not in the table and Paris carries no marker, so the fee
    should be the fallback 5000; the read of the table finds the member
    every object inherits under that name, the fallback to NGN is not
    taken, and the fee returned is [undefined].  The same happens for
    every inherited name and every location.  For every other currency
    outside the table the NGN amounts are charged: 3500 for the empty
    location, 15000 when a marker occurs, 5000 otherwise. *)
Theorem fallback_misses_inherited_names :
  DELIVERY_FEES_BY_CURRENCY !! "constructor"%string = None
  /\ mentions "Paris" internationalMarkers = false
  /\ calculateDeliveryFee "Paris" "constructor" = Undefined
  /\ calculateDeliveryFee "Paris" "XYZ" = Number (of_Z 5000)
  /\ (forall currency location : string,
        inherited currency = true ->
        DELIVERY_FEES_BY_CURRENCY !! currency = None
        /\ calculateDeliveryFee location currency = Undefined)
  /\ (forall currency location : string,
        DELIVERY_FEES_BY_CURRENCY !! currency = None ->
        inherited currency = false ->
        calculateDeliveryFee location currency
        = Number (of_Z (match location with
                        | EmptyString => 3500
                        | _ => if mentions location internationalMarkers
                               then 15000 else 5000
                        end))).
Proof.
  split; [reflexivity|]. split; [reflexivity|]. split; [reflexivity|].
  split; [reflexivity|]. split.
  - intros currency location Hi.
    split; [now apply inherited_unlisted|now apply inherited_currency_fee].
  - intros currency location H Hi.
    rewrite (unknown_currency_charge currency location H Hi).
    unfold tierCharge, tierOf. rewrite (unknown_not_NGN _ H).
    destruct location; [reflexivity|].
    now destruct (mentions _ internationalMarkers).
Qed.

End FeesFacts.

(** ** Promo codes *)

Module PromoFacts.

Import Fees PromoSpec.

Lemma refusedb_spec now p : refusedb now p = true <-> refused now p.
Proof.
  unfold refusedb, refused. rewrite !orb_true_iff, negb_true_iff.
  split.
  - intros [[[H|H]|H]|H].
    + now left.
    + right; left. destruct (startDate p) as [start|]; [|discriminate].
      exists start. split; [reflexivity|]. now apply Z.ltb_lt.
    + right; right; left. destruct (endDate p) as [stop|]; [|discriminate].
      exists stop. split; [reflexivity|]. now apply Z.ltb_lt.
    + right; right; right.
      destruct (maxUses p) as [cap|]; [|discriminate].
      destruct (currentUses p) as [uses|]; [|discriminate].
      now exists cap, uses.
  - intros [H|[(start & -> & H)|[(stop & -> & H)|(cap & uses & -> & -> & H)]]].
    + now left; left; left.
    + left; left; right. now apply Z.ltb_lt.
    + left; right. now apply Z.ltb_lt.
    + now right.
Qed.

Lemma validatePromoCodeIn_unfold table now c :
  validatePromoCodeIn table now c =
  match table !! c with
  | Some p => if refusedb now p then None else Some p
  | None => None
  end.
Proof.
  unfold validatePromoCodeIn, refusedb.
  destruct (table !! c) as [p|]; [|reflexivity].
  destruct (isActive p); [|reflexivity]. cbn [negb orb].
  destruct (match startDate p with Some _ => _ | None => _ end); [reflexivity|].
  cbn [orb].
  now destruct (match endDate p with Some _ => _ | None => _ end).
Qed.

(** C6: [validatePromoCode] returns nothing exactly for an unknown
    code and for a known code that is inactive, not yet started,
    ended, or used up to its cap; otherwise it returns the entry of
    the table as it is.  [calculateDiscount] is the one product
    [subtotal * discount], with no rounding step, and 10% of 1000 is
    100. *)
Theorem validatePromoCode_spec
    (table : gmap string PromoCode) (now : Z) (c : string) :
  (validatePromoCodeIn table now c = None
   <-> table !! c = None \/ exists p, table !! c = Some p /\ refused now p)
  /\ (forall p, validatePromoCodeIn table now c = Some p
               <-> table !! c = Some p /\ ~ refused now p)
  /\ validatePromoCode now c = validatePromoCodeIn PROMO_CODES now c
  /\ (forall sub p, calculateDiscount sub p = mul sub (discount p))
  /\ (forall p, discount p = decimal 10 2 ->
               calculateDiscount (of_Z 1000) p = of_Z 100).
Proof.
  rewrite validatePromoCodeIn_unfold.
  split; [|split; [|split; [reflexivity|split; [reflexivity|]]]].
  - destruct (table !! c) as [p|]; [|tauto].
    destruct (refusedb now p) eqn:Hr.
    + apply refusedb_spec in Hr. split; eauto.
    + split; [discriminate|].
      intros [H|(q & [= <-] & H%refusedb_spec)]; congruence.
  - intros q. destruct (table !! c) as [p|]; [|split; [discriminate|now intros [? _]]].
    destruct (refusedb now p) eqn:Hr.
    + split; [discriminate|]. intros [[= <-] H]. exfalso. apply H.
      now apply refusedb_spec.
    + split.
      * intros [= <-]. split; [reflexivity|]. rewrite <- refusedb_spec. congruence.
      * now intros [[= <-] _].
  - intros p Hp. unfold calculateDiscount. rewrite Hp. vm_compute. reflexivity.
Qed.

Example validate_WELCOME10 (now : Z) :
  option_map discount (validatePromoCode now "WELCOME10") = Some (decimal 10 2).
Proof. vm_compute. reflexivity. Qed.

Example validate_unknown (now : Z) : validatePromoCode now "FREE100" = None.
Proof. vm_compute. reflexivity. Qed.

(** A code that ended at time 1000 is refused at time 2000. *)
Example validate_expired :
  validatePromoCodeIn
    {[ "OLD"%string :=
         {| code := "OLD"; description := "ended"; discount := decimal 10 2;
            isActive := true; maxUses := None; currentUses := None;
            startDate := Some 0; endDate := Some 1000 |} ]}
    2000 "OLD" = None.
Proof. vm_compute. reflexivity. Qed.

Lemma validatePromoCode_spec_witness :
  validatePromoCodeIn PROMO_CODES 0 "SAVE20"
  = Some (promo "SAVE20" "20% off your order" 20).
Proof.
  apply (proj1 (proj2 (validatePromoCode_spec PROMO_CODES 0 "SAVE20"))).
  split; [reflexivity|].
  intros H. apply refusedb_spec in H. vm_compute in H. discriminate.
Defined.

End PromoFacts.

(** ** Cart expansion *)

Module CartFacts.

Import ProductModal CheckoutSpec.

Lemma newItems_pairs product m :
  List.map (fun i => (size i, color i)) (newItems product m)
  = list_prod (selectedSizes m) (selectedColors m).
Proof.
  unfold newItems.
  induction (selectedSizes m) as [|s sizes IH]; [reflexivity|].
  cbn [flat_map list_prod]. rewrite List.map_app, IH. f_equal.
  rewrite List.map_map. reflexivity.
Qed.

Lemma newItems_length product m :
  length (newItems product m)
  = (length (selectedSizes m) * length (selectedColors m))%nat.
Proof.
  rewrite <- (List.length_map (fun i => (size i, color i))), newItems_pairs.
  apply List.length_prod.
Qed.

Lemma newItems_fields product m :
  List.Forall
    (fun i => quantity i = selectedQuantity m
              /\ productId i = id product
              /\ productName i = name product
              /\ itemPrice i = price product)
    (newItems product m).
Proof.
  unfold newItems. apply List.Forall_flat_map, List.Forall_forall.
  intros s _. apply List.Forall_map, List.Forall_forall. now intros c _.
Qed.

Section Expansion.

Variable numberToString : number -> string.
Variable addToCartResolves : list CartItem -> bool.

(** C7: pressing the button hands to the cart one item per pair of
    a selected size and a selected colour, in the order of the
    Cartesian product, each with the whole selected quantity; with
    no size or no colour selected it shows the validation alert and
    hands over nothing. *)
Theorem handleAddToCart_expansion (product : Product) (m : Modal) :
  let r := handleAddToCart numberToString addToCartResolves product m in
  handed r =
    match selectedSizes m, selectedColors m with
    | [], _ | _, [] => None
    | _, _ => Some (newItems product m)
    end
  /\ (handed r = None <-> title (shown r) = "Selection Required"%string)
  /\ length (newItems product m)
     = (length (selectedSizes m) * length (selectedColors m))%nat
  /\ List.map (fun i => (size i, color i)) (newItems product m)
     = list_prod (selectedSizes m) (selectedColors m)
  /\ List.Forall
       (fun i => quantity i = selectedQuantity m
                 /\ productId i = id product
                 /\ productName i = name product
                 /\ itemPrice i = price product)
       (newItems product m).
Proof.
  cbv zeta.
  split; [|split; [|split; [apply newItems_length|
                     split; [apply newItems_pairs|apply newItems_fields]]]].
  - unfold handleAddToCart.
    destruct (selectedSizes m) as [|s sizes]; [reflexivity|].
    destruct (selectedColors m) as [|c colors]; [reflexivity|].
    cbn [length Nat.eqb orb].
    now destruct (addToCartResolves _).
  - unfold handleAddToCart.
    destruct (selectedSizes m) as [|s sizes];
      [cbn; split; reflexivity|].
    destruct (selectedColors m) as [|c colors];
      [cbn; split; reflexivity|].
    cbn [length Nat.eqb orb].
    destruct (addToCartResolves _); cbn; split; discriminate.
Qed.

End Expansion.

Example expansion_S_M_Red :
  List.map (fun i => (size i, color i, quantity i))
    (newItems tee {| selectedSizes := ["S"; "M"]; selectedColors := ["Red"];
                     selectedQuantity := of_Z 2; loading := false |})
  = [("S", "Red", of_Z 2); ("M", "Red", of_Z 2)]%string.
Proof. reflexivity. Qed.

End CartFacts.

(** ** Comparison of numbers *)

Module NumFacts.

Lemma compare_cont_antisym (m1 m2 : positive) :
  Pos.compare_cont Eq m2 m1 = CompOpp (Pos.compare_cont Eq m1 m2).
Proof. apply (Pos.compare_antisym m1 m2). Qed.

(** Swapping the operands of a comparison mirrors its result. *)
Lemma SFcompare_swap (a b : number) :
  SFcompare b a = option_map CompOpp (SFcompare a b).
Proof.
  destruct a as [sa|sa| |sa ma ea], b as [sb|sb| |sb mb eb];
    try reflexivity; try (now destruct sa); try (now destruct sb);
    try (now destruct sa, sb).
  cbn [SFcompare option_map].
  destruct sa, sb; try reflexivity;
    rewrite (Z.compare_antisym ea eb);
    destruct (ea ?= eb); cbn [CompOpp]; try reflexivity;
    rewrite compare_cont_antisym; try reflexivity.
Qed.

(** On numbers other than NaN, [a < b] is the negation of [a >= b]. *)
Lemma lt_not_ge (a b : number) :
  isNaN a = false -> isNaN b = false -> lt a b = negb (ge a b).
Proof.
  intros Ha Hb. unfold lt, ge, SFltb, SFleb. rewrite (SFcompare_swap a b).
  destruct a as [sa|sa| |sa ma ea], b as [sb|sb| |sb mb eb];
    try discriminate; cbn [SFcompare option_map];
    try destruct sa; try destruct sb; try reflexivity;
    destruct (ea ?= eb); try reflexivity;
    destruct (Pos.compare_cont Eq ma mb); reflexivity.
Qed.

Lemma ge_refl (a : number) : isNaN a = false -> ge a a = true.
Proof.
  unfold ge, SFleb. destruct a as [s|s| |s m e]; try discriminate; intros _.
  - reflexivity.
  - now destruct s.
  - cbn [SFcompare]. rewrite Z.compare_refl.
    pose proof (Pos.compare_refl m) as H. unfold Pos.compare in H.
    destruct s; rewrite H; reflexivity.
Qed.

End NumFacts.

(** ** Settlement *)

Module CheckoutFacts.

Import Fees ProductModal Checkout NumFacts CheckoutSpec.

Section Settlement.

Variable convertFromNGN : number -> string -> number.
Variable formatCurrency : number -> string -> string.
Variable numberToString : number -> string.

Local Abbreviation walletLedgerEntry := (CheckoutSpec.walletLedgerEntry numberToString).
Local Abbreviation walletPlan := (CheckoutSpec.walletPlan numberToString).
Local Abbreviation settle := (CheckoutSpec.settle numberToString).
Local Abbreviation placeOrder :=
  (CheckoutSpec.placeOrder convertFromNGN formatCurrency numberToString).

Lemma codeOrNull_stored (applied : option PromoCode) :
  codeOrNull applied = storedCode applied.
Proof.
  destruct applied as [q|]; [|reflexivity].
  unfold codeOrNull, storedCode. now destruct (code q).
Qed.

Lemma orZero_stored (x : number) : orZero x = storedDiscount x.
Proof. now destruct x. Qed.

(** The calls of the wallet settlement: those of the plan up to the
    first failure. *)
Lemma settle_calls (r : Remote) (u : User) (p : Profile) (t : OrderTotals)
    (discountAmount : number) (s : State) :
  calls (snd (settle r u p t discountAmount s))
  = calls s ++ firstn (issued r) (walletPlan r u p t discountAmount s).
Proof.
  unfold CheckoutSpec.walletPlan, walletOrder. rewrite <- codeOrNull_stored.
  destruct r as [[e1|] [e2|] oid [e3|] [e4|] [e5|] rp [e6|]];
    unfold issued; cbn [failed stockValidationError orderError
      walletError transactionError refreshProfileError clearCartError orderId];
    cbn; rewrite <- ?List.app_assoc; reflexivity.
Qed.

(** C5: the wallet settlement issues stock validation, the insert of
    the order marked paid, the wallet debit by the total, the ledger
    insert, the profile refresh and the clearing of the cart in this
    order and stops at the first failure; what the calls before the
    failure committed stays committed. *)
Theorem processWalletPayment_sequence
    (r : Remote) (u : User) (p : Profile) (t : OrderTotals)
    (discountAmount : number) (s : State) :
  let after := snd (settle r u p t discountAmount s) in
  calls after
  = calls s ++ firstn (issued r) (walletPlan r u p t discountAmount s)
  /\ o_payment_status (walletOrder u t discountAmount s) = "paid"%string
  /\ orders after
     = (if (2 <=? issued r)%nat && negb (failed (orderError r))
        then orders s ++ [(orderId r, walletOrder u t discountAmount s)]
        else orders s)
  /\ stored_balance after
     = (if (3 <=? issued r)%nat && negb (failed (walletError r))
        then sub (wallet_balance p) (total t)
        else stored_balance s)
  /\ transactions after
     = (if (4 <=? issued r)%nat && negb (failed (transactionError r))
        then transactions s ++ [walletLedgerEntry r u t s]
        else transactions s)
  /\ cart after
     = (if (6 <=? issued r)%nat && negb (failed (clearCartError r))
        then [] else cart s)
  /\ (fst (settle r u p t discountAmount s) = Returned tt
      <-> issued r = 6%nat /\ failed (clearCartError r) = false).
Proof.
  cbv zeta. unfold CheckoutSpec.walletPlan, walletOrder.
  rewrite <- codeOrNull_stored.
  destruct r as [[e1|] [e2|] oid [e3|] [e4|] [e5|] rp [e6|]];
    unfold issued; cbn [failed stockValidationError orderError
      walletError transactionError refreshProfileError clearCartError orderId];
    (repeat split; try reflexivity; try discriminate;
     try (intros [H1 H2]; discriminate));
    cbn; rewrite <- ?List.app_assoc; reflexivity.
Qed.

(** The wrappers of [handleOrder] around the settlement touch the
    screen only. *)
Lemma guarded_store (m : M unit) (t msg : string) (s0 : State) :
  let after :=
    snd (finally (try_catch m (fun _ => alert t msg)) (setLoading false) s0) in
  calls after = calls (snd (m s0))
  /\ orders after = orders (snd (m s0))
  /\ transactions after = transactions (snd (m s0))
  /\ stored_balance after = stored_balance (snd (m s0))
  /\ cart after = cart (snd (m s0))
  /\ loading after = false.
Proof.
  cbv zeta. unfold finally, try_catch.
  destruct (m s0) as [[a|e] s1]; cbn; repeat split.
Qed.

Lemma placeOrder_wallet r s u p :
  ready s u p ->
  placeOrder r wallet s =
  let s1 := snd (setLoading true s) in
  let t := orderTotalsNGN s in
  finally
    (try_catch
       (if lt (wallet_balance p) (total t) then
          alert "Insufficient Balance"
                (insufficientBalanceMessage convertFromNGN formatCurrency
                   (wallet_balance p) (total t) (userCurrency s)) ;;;
          setLoading false
        else processWalletPayment numberToString r u p t (discountNGN s))
       (fun _ => alert "Error" "Failed to process order. Please try again."))
    (setLoading false) s1.
Proof.
  intros (Hu & Hp & Ha). unfold placeOrder, handleOrder.
  unfold bind at 1. unfold get at 1. cbv beta iota.
  rewrite Ha, Hu, Hp. reflexivity.
Qed.

(** A balance that covers the amount is not below it. *)
Lemma ge_not_lt (a b : number) : ge a b = true -> lt a b = false.
Proof.
  unfold lt, ge, SFltb, SFleb. rewrite (SFcompare_swap b a).
  now destruct (SFcompare b a) as [[]|].
Qed.

(** C4 at a cart whose price is beyond the doubles, with the promo
    code WELCOME10 and a balance of 100.  The subtotal is Infinity and
    so is the discount, so the discounted subtotal and the total are
    NaN.  The balance is not at least the total, yet the test
    [balance < total] does not refuse the order: the six calls of the
    settlement are issued, the order is created and the balance written
    to the wallet is NaN. *)
Theorem wallet_gate_passes_NaN :
  let s := atCheckoutPriceless (of_Z 100) in
  let balance := of_Z 100 in
  let needed := total (orderTotalsNGN s) in
  let after := snd (placeOrder allGood wallet s) in
  getSubtotalInNGN s = Infinity
  /\ discountNGN s = Infinity
  /\ needed = NaN
  /\ ge balance needed = false
  /\ lt balance needed = false
  /\ calls after
     = walletPlan allGood customer (account balance) (orderTotalsNGN s)
         (discountNGN s) s
  /\ List.map fst (orders after) = ["o1"%string]
  /\ stored_balance after = NaN
  /\ length (transactions after) = 1%nat
  /\ alerts after = [orderPlaced].
Proof. vm_compute. repeat split. Qed.

Lemma placeOrder_online_store r method s :
  method <> wallet -> sameStore s (snd (placeOrder r method s)).
Proof.
  intros Hm. unfold placeOrder, handleOrder.
  unfold bind at 1. unfold get at 1. cbv beta iota.
  destruct (Str.falsy (Str.trim (deliveryAddress s))); [repeat split|].
  destruct (user s) as [u|]; [|repeat split].
  destruct (profile s) as [p|]; [|repeat split].
  destruct method; [congruence| |].
  - destruct (String.eqb (userCurrency s) "NGN"); repeat split.
  - repeat split.
Qed.

(** C9: a cancel from either payment sheet returns normally, closes
    the sheet, releases the loading state and reports the
    cancellation; it issues no call and creates no order and no
    ledger entry, and neither did opening the sheet. *)
Theorem cancel_is_terminal (r : Remote) (s : State) :
  (forall st : State,
     fst (handlePaystackCancel st) = Returned tt
     /\ sameStore st (snd (handlePaystackCancel st))
     /\ loading (snd (handlePaystackCancel st)) = false
     /\ showPaystack (snd (handlePaystackCancel st)) = false
     /\ alerts (snd (handlePaystackCancel st)) = alerts st ++ [cancelled])
  /\ (forall st : State,
        fst (handlePayPalCancel st) = Returned tt
        /\ sameStore st (snd (handlePayPalCancel st))
        /\ loading (snd (handlePayPalCancel st)) = false
        /\ showPayPal (snd (handlePayPalCancel st)) = false
        /\ alerts (snd (handlePayPalCancel st)) = alerts st ++ [cancelled])
  /\ sameStore s (snd (handlePaystackCancel (snd (placeOrder r card s))))
  /\ sameStore s (snd (handlePayPalCancel (snd (placeOrder r card s))))
  /\ sameStore s (snd (handlePayPalCancel (snd (placeOrder r paypal s)))).
Proof.
  assert (Hps : forall st, sameStore st (snd (handlePaystackCancel st)))
    by (intros st; repeat split).
  assert (Hpp : forall st, sameStore st (snd (handlePayPalCancel st)))
    by (intros st; repeat split).
  assert (Htrans : forall a b c, sameStore a b -> sameStore b c -> sameStore a c).
  { unfold sameStore. intros a b c (?&?&?&?&?) (?&?&?&?&?).
    repeat split; congruence. }
  split; [|split; [|split; [|split]]].
  - intros st. repeat split.
  - intros st. repeat split.
  - eapply Htrans; [apply (placeOrder_online_store r card s)|apply Hps].
    discriminate.
  - eapply Htrans; [apply (placeOrder_online_store r card s)|apply Hpp].
    discriminate.
  - eapply Htrans; [apply (placeOrder_online_store r paypal s)|apply Hpp].
    discriminate.
Qed.

End Settlement.

Example exact_balance_settles :
  let after := snd (placeOrder sameAmount currencyOnly noDigits allGood wallet
                               (atCheckout (of_Z 4520))) in
  List.map fst (orders after) = ["o1"%string]
  /\ stored_balance after = of_Z 0
  /\ cart after = []
  /\ length (transactions after) = 1%nat.
Proof. vm_compute. repeat split. Qed.

Example one_cent_short_is_refused :
  let s := atCheckout (decimal 451999 2) in
  let after := snd (placeOrder sameAmount currencyOnly noDigits allGood wallet s) in
  orders after = [] /\ transactions after = [] /\ calls after = []
  /\ stored_balance after = decimal 451999 2
  /\ List.map title (alerts after) = ["Insufficient Balance"%string].
Proof. vm_compute. repeat split. Qed.

End CheckoutFacts.

(** ** The product sheet *)

Module ModalFacts.

Import ProductModal ModalSpec CartFacts.

Lemma existsb_eqb_In x l : existsb (String.eqb x) l = true <-> List.In x l.
Proof.
  rewrite List.existsb_exists. split.
  - intros (y & Hy & ->%String.eqb_eq). exact Hy.
  - intros H. exists x. split; [exact H|apply String.eqb_refl].
Qed.

Lemma In_toggle x l y :
  List.In y (toggle x l)
  <-> (y <> x /\ List.In y l) \/ (y = x /\ ~ List.In x l).
Proof.
  unfold toggle. destruct (existsb (String.eqb x) l) eqn:E.
  - apply existsb_eqb_In in E. rewrite List.filter_In, negb_true_iff, String.eqb_neq.
    split; [intros [H1 H2]; now left|].
    intros [[H1 H2]|[-> H2]]; [now split|contradiction].
  - assert (Hx : ~ List.In x l).
    { intros H. apply existsb_eqb_In in H. congruence. }
    rewrite List.in_app_iff. cbn [List.In]. split.
    + intros [H|H].
      * left. split; [|exact H]. intros ->. contradiction.
      * destruct H as [H|H]; [|contradiction]. right. now split.
    + intros [[_ H]|[-> _]]; [now left|right; now left].
Qed.

Lemma NoDup_toggle x l : List.NoDup l -> List.NoDup (toggle x l).
Proof.
  intros H. unfold toggle. destruct (existsb (String.eqb x) l) eqn:E.
  - now apply List.NoDup_filter.
  - apply List.NoDup_app; [exact H|repeat constructor; intros []|].
    intros a Ha [<-|[]]. apply existsb_eqb_In in Ha. congruence.
Qed.

Lemma filter_absent x l :
  ~ List.In x l -> List.filter (fun s => negb (String.eqb s x)) l = l.
Proof.
  induction l as [|a l IH]; [reflexivity|]. cbn [List.In List.filter]. intros H.
  destruct (String.eqb_spec a x) as [->|]; [tauto|].
  cbn [negb]. rewrite IH by tauto. reflexivity.
Qed.

Lemma selectionAfter_snoc presses x :
  selectionAfter (presses ++ [x]) = toggle x (selectionAfter presses).
Proof. unfold selectionAfter. now rewrite List.fold_left_app. Qed.

Lemma pressCount_snoc y presses x :
  pressCount y (presses ++ [x])
  = (pressCount y presses + if String.eqb y x then 1 else 0)%nat.
Proof.
  unfold pressCount. rewrite List.filter_app, List.length_app. cbn [List.filter].
  now destruct (String.eqb y x).
Qed.

Lemma toggle_twice_absent x prev :
  ~ List.In x prev -> toggle x (toggle x prev) = prev.
Proof.
  intros Hx. unfold toggle at 2.
  assert (E : existsb (String.eqb x) prev = false).
  { destruct (existsb (String.eqb x) prev) eqn:E; [|reflexivity].
    apply existsb_eqb_In in E. contradiction. }
  rewrite E. unfold toggle.
  assert (E' : existsb (String.eqb x) (prev ++ [x]) = true).
  { apply existsb_eqb_In, List.in_app_iff. right. now left. }
  rewrite E', List.filter_app, (filter_absent x prev Hx). cbn [List.filter].
  rewrite String.eqb_refl. cbn [negb]. apply List.app_nil_r.
Qed.

(** X1: pressing a size flips whether that size is selected and leaves
    the other sizes, the colours and the quantity as they were; pressing
    an unselected size twice gives back the same sheet.  The same holds
    for colours. *)
Theorem toggle_flips (x : string) (m : Modal) :
  (forall y : string,
     List.In y (selectedSizes (toggleSize x m))
     <-> (y <> x /\ List.In y (selectedSizes m))
         \/ (y = x /\ ~ List.In x (selectedSizes m)))
  /\ selectedColors (toggleSize x m) = selectedColors m
  /\ selectedQuantity (toggleSize x m) = selectedQuantity m
  /\ (~ List.In x (selectedSizes m) -> toggleSize x (toggleSize x m) = m)
  /\ (forall y : string,
        List.In y (selectedColors (toggleColor x m))
        <-> (y <> x /\ List.In y (selectedColors m))
            \/ (y = x /\ ~ List.In x (selectedColors m)))
  /\ selectedSizes (toggleColor x m) = selectedSizes m
  /\ selectedQuantity (toggleColor x m) = selectedQuantity m
  /\ (~ List.In x (selectedColors m) -> toggleColor x (toggleColor x m) = m).
Proof.
  destruct m as [ss cs q l]. cbn [toggleSize toggleColor selectedSizes
    selectedColors selectedQuantity ProductModal.loading].
  repeat split; try apply In_toggle; intros H;
    unfold toggleSize, toggleColor; cbn [selectedSizes selectedColors
      selectedQuantity ProductModal.loading];
    now rewrite toggle_twice_absent.
Qed.

(** X2: whatever options were pressed, starting from the empty
    selection, no option is selected twice, and an option is selected
    exactly when it was pressed an odd number of times. *)
Theorem selection_parity (presses : list string) :
  List.NoDup (selectionAfter presses)
  /\ (forall x : string,
        List.In x (selectionAfter presses)
        <-> Nat.odd (pressCount x presses) = true).
Proof.
  induction presses as [|x presses [IH1 IH2]] using List.rev_ind.
  - split; [constructor|]. intros x. cbn. split; [intros []|discriminate].
  - rewrite selectionAfter_snoc. split; [now apply NoDup_toggle|].
    intros y. rewrite In_toggle, pressCount_snoc, !IH2.
    destruct (String.eqb_spec y x) as [->|Hne].
    + rewrite Nat.add_1_r, Nat.odd_succ, <- Nat.negb_odd.
      destruct (Nat.odd (pressCount x presses)); cbn [negb]; split;
        try discriminate; try tauto.
      intros _. right. split; [reflexivity|discriminate].
    + rewrite Nat.add_0_r. split; [intros [[_ H]|[H _]]; tauto|]. intros H. now left.
Qed.

Lemma NoDup_list_prod (l l' : list string) :
  List.NoDup l -> List.NoDup l' -> List.NoDup (list_prod l l').
Proof.
  intros Hl Hl'. induction Hl as [|a l Ha Hl IH]; [constructor|].
  cbn [list_prod]. apply List.NoDup_app; [|exact IH|].
  - apply Finite.Injective_map_NoDup; [|exact Hl'].
    intros u v [= ->]. reflexivity.
  - intros [u v] Hin Hin'. apply List.in_map_iff in Hin as (w & [= <- <-] & _).
    apply List.in_prod_iff in Hin' as [Hin' _]. contradiction.
Qed.

(** X3: when no size and no colour is selected twice, the items handed
    to the cart are pairwise different in their size and colour. *)
Theorem newItems_distinct (product : Product) (m : Modal) :
  List.NoDup (selectedSizes m) -> List.NoDup (selectedColors m) ->
  List.NoDup (List.map (fun i => (size i, color i)) (newItems product m)).
Proof.
  intros Hs Hc. rewrite newItems_pairs. now apply NoDup_list_prod.
Qed.

Lemma newItems_distinct_witness :
  List.NoDup
    (List.map (fun i => (size i, color i))
       (newItems CheckoutSpec.tee {| selectedSizes := selectionAfter ["S"; "M"; "S"; "L"];
                        selectedColors := selectionAfter ["Red"];
                        selectedQuantity := of_Z 2; loading := false |}%string)).
Proof.
  apply newItems_distinct; vm_compute; repeat constructor;
    cbn; intuition discriminate.
Defined.

End ModalFacts.

(** ** Guards, external payments and outcomes of the checkout *)

Module CheckoutMore.

Import Fees FeesSpec FeesFacts ProductModal Checkout NumFacts CheckoutSpec
  CheckoutFacts.

Lemma userCurrency_display (s : State) :
  userCurrency s = displayCurrency (profile s).
Proof.
  unfold userCurrency, displayCurrency.
  destruct (profile s) as [[b [[|a c]|] l]|]; reflexivity.
Qed.

(** X8: an empty cart is not refused: without a promo code its order
    totals are a zero subtotal, a zero service fee and a total equal to
    the delivery fee of the address. *)
Theorem empty_cart_totals (s : State) :
  items s = [] -> appliedPromo s = None ->
  getTotalItems s = of_Z 0
  /\ subtotal (orderTotalsNGN s) = of_Z 0
  /\ serviceFee (orderTotalsNGN s) = of_Z 0
  /\ Number (total (orderTotalsNGN s))
     = calculateDeliveryFee (deliveryAddress s) "NGN".
Proof.
  intros Hi Hp. unfold orderTotalsNGN, getTotalItems, discountNGN, getSubtotalInNGN.
  rewrite Hi, Hp. cbn [fold_left].
  replace (sub (of_Z 0) (of_Z 0)) with (of_Z 0) by (vm_compute; reflexivity).
  unfold calculateOrderTotal. cbn [subtotal serviceFee total].
  replace (calculateServiceFee (of_Z 0)) with (of_Z 0) by (vm_compute; reflexivity).
  repeat split.
  replace (add (of_Z 0) (of_Z 0)) with (of_Z 0) by (vm_compute; reflexivity).
  rewrite deliveryFee_NGN. unfold tierCharge.
  now destruct (tierOf (deliveryAddress s) "NGN"); vm_compute.
Qed.

Lemma empty_cart_totals_witness :
  Number (total (orderTotalsNGN
           {| orders := []; transactions := []; stored_balance := of_Z 0;
              calls := []; user := None; profile := None; cart := [];
              items := []; appliedPromo := None;
              deliveryAddress := "Enugu"; loading := false;
              showPaystack := false; showPayPal := false;
              orderData := None; alerts := [] |}))
  = calculateDeliveryFee "Enugu" "NGN".
Proof.
  apply (empty_cart_totals
           {| orders := []; transactions := []; stored_balance := of_Z 0;
              calls := []; user := None; profile := None; cart := [];
              items := []; appliedPromo := None;
              deliveryAddress := "Enugu"; loading := false;
              showPaystack := false; showPayPal := false;
              orderData := None; alerts := [] |} eq_refl eq_refl).
Defined.

Section Settlement.

Variable convertFromNGN : number -> string -> number.
Variable formatCurrency : number -> string -> string.
Variable numberToString : number -> string.

Local Abbreviation placeOrder :=
  (CheckoutSpec.placeOrder convertFromNGN formatCurrency numberToString).
Local Abbreviation getSubtotal := (Checkout.getSubtotal convertFromNGN).
Local Abbreviation calculateDiscount := (Checkout.calculateDiscount convertFromNGN).
Local Abbreviation getDiscountedSubtotal :=
  (Checkout.getDiscountedSubtotal convertFromNGN).
Local Abbreviation displayTotals := (Checkout.displayTotals convertFromNGN).
Local Abbreviation walletPlan := (CheckoutSpec.walletPlan numberToString).
Local Abbreviation onlinePlan := (CheckoutSpec.onlinePlan numberToString).
Local Abbreviation onlineLedgerEntry :=
  (CheckoutSpec.onlineLedgerEntry numberToString).
Local Abbreviation confirm := (CheckoutSpec.confirm formatCurrency numberToString).

(** X4: confirming an external payment issues stock validation, the
    insert of the order marked paid, the ledger insert and the clearing
    of the cart in this order and stops at the first failure; it never
    touches the wallet and never throws: every failure ends in the one
    alert asking to contact support, and what was committed before
    stays.  The order is stored without promo code when the promo has
    an empty code, and with a discount of 0 when the amount is a zero
    or not a number.  Without a pending order it issues no call at
    all. *)
Theorem completeOnlinePayment_sequence
    (r : Remote) (u : User) (reference provider : string) (s : State) :
  let after := snd (confirm r u reference provider s) in
  fst (confirm r u reference provider s) = Returned tt
  /\ stored_balance after = stored_balance s
  /\ sameScreen s after
  /\ match orderData s with
     | None =>
         calls after = calls s /\ orders after = orders s
         /\ transactions after = transactions s /\ cart after = cart s
         /\ alerts after = alerts s ++ [supportFailure]
     | Some od =>
         calls after
         = calls s ++ firstn (issuedOnline r) (onlinePlan u od reference provider s)
         /\ orders after
            = (if (2 <=? issuedOnline r)%nat && negb (failed (orderError r))
               then orders s ++ [(orderId r, onlineOrder u od provider)]
               else orders s)
         /\ transactions after
            = (if (3 <=? issuedOnline r)%nat && negb (failed (transactionError r))
               then transactions s ++ [onlineLedgerEntry u od reference provider s]
               else transactions s)
         /\ cart after
            = (if (4 <=? issuedOnline r)%nat && negb (failed (clearCartError r))
               then [] else cart s)
         /\ (alerts after = alerts s ++ [supportFailure]
             <-> ~ (issuedOnline r = 4%nat /\ failed (clearCartError r) = false))
     end.
Proof.
  cbv zeta. destruct s as [o t b c us pr ca its ap da lo sp spp [od|] al].
  2:{ unfold sameScreen. cbn. repeat split. }
  cbn [orderData]. unfold CheckoutSpec.onlinePlan, onlineOrder.
  rewrite <- codeOrNull_stored, <- orZero_stored.
  destruct r as [[e1|] [e2|] oid [e3|] [e4|] [e5|] rp [e6|]];
    unfold issuedOnline, sameScreen;
    cbn [failed stockValidationError orderError walletError transactionError
         refreshProfileError clearCartError orderId];
    cbn; rewrite <- ?List.app_assoc; cbn [List.app];
    (repeat split; try reflexivity; try discriminate;
     try (intros _ [_ H]; discriminate); try (intros _ [H _]; discriminate);
     try (intros H; exfalso; apply H; now split);
     try (intros H%List.app_inv_head; discriminate H)).
Qed.

(** X5: an order is refused before anything happens when the delivery
    address is blank, and otherwise when nobody is signed in: whatever
    the payment method, the only effect is the alert, the address check
    coming first. *)
Theorem handleOrder_guards (r : Remote) (method : PaymentMethod) (s : State) :
  blank (deliveryAddress s) = true \/ signedIn s = false ->
  let after := snd (placeOrder r method s) in
  fst (placeOrder r method s) = Returned tt
  /\ sameStore s after
  /\ sameScreen s after
  /\ alerts after
     = alerts s ++ [if blank (deliveryAddress s) then addressRequired
                    else signInRequired].
Proof.
  intros H. cbv zeta.
  set (a := if blank (deliveryAddress s) then addressRequired else signInRequired).
  assert (E : placeOrder r method s = alert (title a) (message a) s).
  { unfold CheckoutSpec.placeOrder, handleOrder.
    unfold bind at 1. unfold get at 1. cbv beta iota.
    unfold a, blank, signedIn in *.
    destruct (Str.falsy (Str.trim (deliveryAddress s))); [reflexivity|].
    destruct H as [H|H]; [discriminate|].
    destruct (user s); [destruct (profile s); [discriminate|]|]; reflexivity. }
  rewrite E. unfold sameStore, sameScreen. cbn. now destruct a.
Qed.

(** X6: for a signed-in customer with an address, paying by card or
    PayPal issues no call and shows no alert: it keeps the priced order
    with a snapshot of the items, the display currency and the amount to
    pay (the total itself in NGN, the converted total otherwise),
    releases the loading state and opens one sheet, Paystack for a card
    in NGN and PayPal in every other case. *)
Theorem handleOrder_opens_sheet
    (r : Remote) (method : PaymentMethod) (s : State) (u : User) (p : Profile) :
  ready s u p -> method <> wallet ->
  let after := snd (placeOrder r method s) in
  let viaPaystack :=
    match method with
    | card => String.eqb (userCurrency s) "NGN"
    | _ => false
    end in
  fst (placeOrder r method s) = Returned tt
  /\ sameStore s after
  /\ alerts after = alerts s
  /\ loading after = false
  /\ showPaystack after = (viaPaystack || showPaystack s)
  /\ showPayPal after = (negb viaPaystack || showPayPal s)
  /\ orderData after
     = Some {| i_totals := orderTotalsNGN s;
               i_items := List.map orderItem (items s);
               i_delivery_address := Str.trim (deliveryAddress s);
               i_payment_method := method;
               i_currency := userCurrency s;
               i_original_amount :=
                 if String.eqb (userCurrency s) "NGN"
                 then total (orderTotalsNGN s)
                 else convertFromNGN (total (orderTotalsNGN s)) (userCurrency s);
               i_appliedPromo := appliedPromo s;
               i_discountAmount := discountNGN s |}.
Proof.
  intros (Hu & Hp & Ha) Hm. cbv zeta.
  set (res := placeOrder r method s).
  assert (E : res = placeOrder r method s) by reflexivity.
  unfold CheckoutSpec.placeOrder, handleOrder in E.
  unfold bind at 1 in E. unfold get at 1 in E. cbv beta iota in E.
  rewrite Ha, Hu, Hp in E. unfold sameStore.
  destruct method; [congruence| |].
  - destruct (String.eqb (userCurrency s) "NGN") eqn:Hc; rewrite E;
      cbn [orb negb]; repeat split.
  - rewrite E. cbn [orb negb]. repeat split.
Qed.

(** X7: for a signed-in customer with an address, paying from the
    wallet never throws and always ends with the loading state released
    and exactly one alert: the shortfall, the failure of the order, or
    its success, which is reported only when all six calls went through.
    In that case exactly one order and one ledger entry were added, the
    entry refers to the id of that order and carries its total, the
    stored balance is the cached balance less the total, and the cart
    is empty. *)
Theorem wallet_outcome (r : Remote) (s : State) (u : User) (p : Profile) :
  ready s u p ->
  let balance := wallet_balance p in
  let needed := total (orderTotalsNGN s) in
  let after := snd (placeOrder r wallet s) in
  let settled :=
    negb (lt balance needed) && (issued r =? 6)%nat
    && negb (failed (clearCartError r)) in
  fst (placeOrder r wallet s) = Returned tt
  /\ loading after = false
  /\ showPaystack after = showPaystack s
  /\ showPayPal after = showPayPal s
  /\ orderData after = orderData s
  /\ alerts after
     = alerts s
       ++ [if lt balance needed
           then {| title := "Insufficient Balance";
                   message := insufficientBalanceMessage convertFromNGN
                                formatCurrency balance needed (userCurrency s) |}
           else if settled then orderPlaced else orderFailed]
  /\ (settled = true ->
      orders after
      = orders s ++ [(orderId r, walletOrder u (orderTotalsNGN s) (discountNGN s) s)]
      /\ (exists entry,
            transactions after = transactions s ++ [entry]
            /\ t_reference entry = orderId r
            /\ t_amount entry = needed)
      /\ stored_balance after = sub balance needed
      /\ cart after = []).
Proof.
  intros Hready. cbv zeta.
  rewrite (placeOrder_wallet convertFromNGN formatCurrency numberToString
             r s u p Hready).
  cbv zeta. destruct Hready as (Hu & Hp & Ha).
  set (t := orderTotalsNGN s). set (dn := discountNGN s).
  set (cur := userCurrency s).
  set (msg := insufficientBalanceMessage convertFromNGN formatCurrency
                (wallet_balance p) (total t) cur).
  clearbody t dn cur msg.
  destruct s as [o ts b c us pr ca its ap da lo sp spp od al].
  cbn [user profile] in Hu, Hp. subst us pr.
  destruct (lt (wallet_balance p) (total t)).
  - cbn. repeat split; easy.
  - unfold walletOrder. rewrite <- codeOrNull_stored.
    destruct r as [[e1|] [e2|] oid [e3|] [e4|] [e5|] rp [e6|]]; unfold issued;
      cbn [failed stockValidationError orderError walletError transactionError
           refreshProfileError clearCartError orderId negb andb Nat.eqb];
      cbn; (repeat split; try easy); eexists; repeat split.
Qed.

(** X22: for a signed-in customer with an address, a wallet order is
    refused exactly when the cached balance is below the total, both in
    NGN.  A refused order issues no call and leaves the store, the
    cart and the profile as they were; its alert names the balance and
    the total, each converted to the currency the profile prefers, NGN
    when it prefers none.  An order that is not refused starts the
    settlement, whose calls are those of the plan up to the first
    failure.  A balance that is at least the total, the total itself
    included, is never refused; when neither amount is NaN, not being
    refused is the same as the balance being at least the total. *)
Theorem wallet_gate (r : Remote) (s : State) (u : User) (p : Profile) :
  ready s u p ->
  let balance := wallet_balance p in
  let needed := total (orderTotalsNGN s) in
  let shown := displayCurrency (Some p) in
  let after := snd (placeOrder r wallet s) in
  (lt balance needed = true ->
     fst (placeOrder r wallet s) = Returned tt
     /\ sameStore s after
     /\ profile after = profile s
     /\ loading after = false
     /\ alerts after
        = alerts s
          ++ [{| title := "Insufficient Balance";
                 message :=
                   "Your wallet balance is "
                   +:+ formatCurrency (convertFromNGN balance shown) shown
                   +:+ ". You need "
                   +:+ formatCurrency (convertFromNGN needed shown) shown
                   +:+ " to complete this order." |}])
  /\ (lt balance needed = false ->
        calls after
        = calls s ++ firstn (issued r)
                       (walletPlan r u p (orderTotalsNGN s) (discountNGN s) s))
  /\ (calls after <> calls s <-> lt balance needed = false)
  /\ (ge balance needed = true -> lt balance needed = false)
  /\ (isNaN balance = false -> isNaN needed = false ->
        lt balance needed = negb (ge balance needed)).
Proof.
  intros Hready. cbv zeta.
  rewrite (placeOrder_wallet convertFromNGN formatCurrency numberToString
             r s u p Hready).
  cbv zeta. destruct Hready as (Hu & Hp & Ha).
  assert (Hcur : userCurrency s = displayCurrency (Some p))
    by (now rewrite userCurrency_display, Hp).
  rewrite Hcur. clear Hcur.
  set (t := orderTotalsNGN s) in *.
  set (s1 := snd (setLoading true s)).
  assert (Hstart :
    calls (snd (finally
             (try_catch
                (processWalletPayment numberToString r u p t (discountNGN s))
                (fun _ => alert "Error" "Failed to process order. Please try again."))
             (setLoading false) s1))
    = calls s ++ firstn (issued r) (walletPlan r u p t (discountNGN s) s)).
  { destruct (guarded_store
                (processWalletPayment numberToString r u p t (discountNGN s))
                "Error" "Failed to process order. Please try again." s1)
      as (-> & _).
    exact (settle_calls numberToString r u p t (discountNGN s) s1). }
  split; [|split; [|split; [|split]]].
  - intros ->. unfold sameStore. cbn. repeat split.
  - intros ->. exact Hstart.
  - destruct (lt (wallet_balance p) (total t)) eqn:Hlt.
    + cbn. split; [congruence|discriminate].
    + rewrite Hstart. split; [reflexivity|]. intros _.
      destruct r as [[e1|] [e2|] oid [e3|] [e4|] [e5|] rp [e6|]]; cbn;
        intros H; apply (f_equal (@length Call)) in H;
        rewrite List.length_app in H; cbn in H; lia.
  - apply ge_not_lt.
  - apply lt_not_ge.
Qed.

Lemma fold_left_same {A B} (f g : A -> B -> A) (l : list B) (a : A) :
  (forall x y, f x y = g x y) -> fold_left f l a = fold_left g l a.
Proof.
  intros H. revert a. induction l as [|y l IH]; intros a; [reflexivity|].
  cbn [fold_left]. now rewrite H, IH.
Qed.

(** X9: for a customer whose display currency is NGN, because the
    profile prefers it, prefers none or is missing, [getSubtotal],
    [calculateDiscount], [getDiscountedSubtotal] and [displayTotals]
    return the amounts of the order itself, whatever [convertFromNGN]
    does. *)
Theorem ngn_display_is_base (s : State) :
  displayCurrency (profile s) = "NGN"%string ->
  getSubtotal s = getSubtotalInNGN s
  /\ calculateDiscount s = discountNGN s
  /\ getDiscountedSubtotal s = subtotal (orderTotalsNGN s)
  /\ displayTotals s
     = {| d_subtotal := getSubtotalInNGN s;
          d_discount := discountNGN s;
          d_serviceFee := serviceFee (orderTotalsNGN s);
          d_deliveryFee := deliveryFee (orderTotalsNGN s);
          d_total := total (orderTotalsNGN s) |}.
Proof.
  rewrite <- userCurrency_display. intros Hc.
  assert (H1 : getSubtotal s = getSubtotalInNGN s).
  { unfold Checkout.getSubtotal, getSubtotalInNGN. apply fold_left_same.
    intros x y. unfold getItemPriceInUserCurrency. now rewrite Hc. }
  assert (H2 : calculateDiscount s = discountNGN s).
  { unfold Checkout.calculateDiscount, discountNGN. now rewrite H1. }
  split; [exact H1|split; [exact H2|split]].
  - unfold Checkout.getDiscountedSubtotal. now rewrite H1, H2.
  - unfold Checkout.displayTotals. now rewrite Hc.
Qed.

End Settlement.

Lemma handleOrder_opens_sheet_witness :
  showPaystack (snd (CheckoutSpec.placeOrder sameAmount currencyOnly noDigits
                       allGood card (atCheckout (of_Z 0)))) = true.
Proof.
  apply (handleOrder_opens_sheet sameAmount currencyOnly noDigits allGood card
           (atCheckout (of_Z 0)) customer (account (of_Z 0))).
  - repeat split.
  - discriminate.
Defined.

Lemma wallet_outcome_witness :
  alerts (snd (CheckoutSpec.placeOrder sameAmount currencyOnly noDigits allGood
                 wallet (atCheckout (of_Z 4520)))) = [orderPlaced].
Proof.
  apply (wallet_outcome sameAmount currencyOnly noDigits allGood
           (atCheckout (of_Z 4520)) customer (account (of_Z 4520))).
  repeat split.
Defined.

Lemma wallet_gate_witness :
  alerts (snd (CheckoutSpec.placeOrder sameAmount currencyOnly noDigits allGood
                 wallet (atCheckoutAbroad (decimal 451999 2))))
  = [{| title := "Insufficient Balance";
        message :=
          "Your wallet balance is USD. You need USD to complete this order." |}].
Proof.
  apply (wallet_gate sameAmount currencyOnly noDigits allGood
           (atCheckoutAbroad (decimal 451999 2)) customer
           (abroad (decimal 451999 2))).
  - repeat split.
  - reflexivity.
Defined.

Lemma ngn_display_is_base_witness :
  Checkout.getSubtotal sameAmount (atCheckout (of_Z 0))
  = getSubtotalInNGN (atCheckout (of_Z 0)).
Proof.
  apply (ngn_display_is_base sameAmount (atCheckout (of_Z 0))). reflexivity.
Defined.

Lemma handleOrder_guards_witness :
  alerts (snd (CheckoutSpec.placeOrder sameAmount currencyOnly noDigits allGood card
                 {| orders := []; transactions := []; stored_balance := of_Z 0;
                    calls := []; user := None; profile := None; cart := [shirt];
                    items := [shirt]; appliedPromo := None;
                    deliveryAddress := "   "; loading := false;
                    showPaystack := false; showPayPal := false;
                    orderData := None; alerts := [] |}))
  = [addressRequired].
Proof.
  apply (handleOrder_guards sameAmount currencyOnly noDigits allGood card
           {| orders := []; transactions := []; stored_balance := of_Z 0;
              calls := []; user := None; profile := None; cart := [shirt];
              items := [shirt]; appliedPromo := None;
              deliveryAddress := "   "; loading := false;
              showPaystack := false; showPayPal := false;
              orderData := None; alerts := [] |}).
  left. reflexivity.
Defined.

End CheckoutMore.

(** ** More on delivery fees and promo codes *)

Module FeesMore.

Import Str StrSpec StrFacts Fees FeesSpec FeesFacts PromoSpec PromoFacts.

Lemma is_space_lower c : is_space (lower_char c) = is_space c.
Proof. destruct c as [[] [] [] [] [] [] [] []]; reflexivity. Qed.

Lemma trimStart_lower s : trimStart (toLowerCase s) = toLowerCase (trimStart s).
Proof.
  induction s as [|c s IH]; [reflexivity|].
  cbn [toLowerCase trimStart]. rewrite is_space_lower.
  now destruct (is_space c).
Qed.

Lemma trimEnd_lower s : trimEnd (toLowerCase s) = toLowerCase (trimEnd s).
Proof.
  induction s as [|c s IH]; [reflexivity|].
  cbn [toLowerCase]. rewrite !trimEnd_cons, IH, is_space_lower.
  destruct (trimEnd s); cbn [toLowerCase]; [now destruct (is_space c)|reflexivity].
Qed.

Lemma trim_lower s : trim (toLowerCase s) = toLowerCase (trim s).
Proof. unfold trim. now rewrite trimStart_lower, trimEnd_lower. Qed.

(** X10: a location made of white space only is not the empty location:
    it is charged the international fee in NGN and the national fee in
    every other currency, where the empty location is charged the local
    fee. *)
Theorem blank_location_fee (location currency : string) :
  location <> EmptyString -> trim location = EmptyString ->
  calculateDeliveryFee location currency
  = (if String.eqb currency "NGN" then Number (of_Z 15000)
     else national (feesFor currency))
  /\ calculateDeliveryFee EmptyString currency = local (feesFor currency).
Proof.
  intros Hne Hblank. split; [|reflexivity].
  unfold calculateDeliveryFee. cbv zeta.
  destruct location as [|c l]; [congruence|]. cbn [falsy].
  rewrite trim_lower, Hblank. cbn [toLowerCase].
  destruct (String.eqb_spec currency "NGN") as [->|]; [|reflexivity].
  rewrite feesFor_NGN. reflexivity.
Qed.

Lemma blank_location_fee_witness :
  calculateDeliveryFee "  " "NGN" = Number (of_Z 15000)
  /\ calculateDeliveryFee "" "NGN" = Number (of_Z 3500).
Proof.
  split.
  - apply (blank_location_fee "  " "NGN"); [discriminate|reflexivity].
  - reflexivity.
Defined.

(** X11: whatever the location, the delivery fee for a currency that
    is a name inherited from [Object.prototype] is [undefined]; for
    every other currency, known or not, it is a whole amount between 4
    and 15000 that lies between the local and the international fee of
    the table of the currency. *)
Theorem deliveryFee_bounds (location currency : string) :
  if inherited currency
  then calculateDeliveryFee location currency = Undefined
  else exists n l i : Z,
         calculateDeliveryFee location currency = Number (of_Z n)
         /\ local (feesFor currency) = Number (of_Z l)
         /\ international (feesFor currency) = Number (of_Z i)
         /\ 4 <= l /\ l <= n /\ n <= i /\ i <= 15000
         /\ le (of_Z l) (of_Z n) = true
         /\ le (of_Z n) (of_Z i) = true.
Proof.
  destruct (inherited currency) eqn:Hi.
  - now apply inherited_currency_fee.
  - rewrite deliveryFee_by_tier. unfold feesFor. rewrite Hi.
    assert (HN : forall t : Tier,
              exists n l i : Z,
                tierFee t NGN_FEES = Number (of_Z n)
                /\ local NGN_FEES = Number (of_Z l)
                /\ international NGN_FEES = Number (of_Z i)
                /\ 4 <= l /\ l <= n /\ n <= i /\ i <= 15000
                /\ le (of_Z l) (of_Z n) = true
                /\ le (of_Z n) (of_Z i) = true).
    { intros t. destruct t; cbn [tierFee NGN_FEES fees local national international];
        do 3 eexists;
        repeat split; lia. }
    destruct (DELIVERY_FEES_BY_CURRENCY !! currency) as [f|] eqn:E; [|apply HN].
    apply elem_of_list_to_map_2, list_elem_of_In in E. cbn [List.In] in E.
    destruct E as [[= <- <-]|E]; [apply HN|].
    repeat (destruct E as [[= <- <-]|E];
            [destruct (tierOf location _);
             cbn [tierFee fees local national international];
             do 3 eexists;
             repeat split; lia|]).
    destruct E.
Qed.

(** X12: the shipped promo codes carry no window and no cap, so their
    validation does not depend on the time: it is the lookup of the
    code, spelled exactly.  A code that validates is returned under its
    own name, with a discount above 0 and below 1. *)
Theorem shipped_promo_codes (now : Z) (c : string) :
  validatePromoCode now c = PROMO_CODES !! c
  /\ (forall p, validatePromoCode now c = Some p ->
                code p = c /\ lt (of_Z 0) (discount p) = true
                /\ lt (discount p) (of_Z 1) = true)
  /\ validatePromoCode now "welcome10" = None.
Proof.
  assert (H : forall p, PROMO_CODES !! c = Some p ->
                refusedb now p = false /\ code p = c
                /\ lt (of_Z 0) (discount p) = true
                /\ lt (discount p) (of_Z 1) = true).
  { intros p E. apply elem_of_list_to_map_2, list_elem_of_In in E.
    cbn [List.In] in E.
    repeat (destruct E as [[= <- <-]|E]; [now vm_compute|]).
    destruct E. }
  assert (E : validatePromoCode now c = PROMO_CODES !! c).
  { unfold validatePromoCode. rewrite validatePromoCodeIn_unfold.
    destruct (PROMO_CODES !! c) as [p|] eqn:E; [|reflexivity].
    now destruct (H p eq_refl) as (-> & _). }
  split; [exact E|split; [|reflexivity]].
  intros p Hp. rewrite E in Hp. now destruct (H p Hp) as (_ & ? & ? & ?).
Qed.

End FeesMore.

(** ** Rounding: the operations on numbers, on their values *)

Module RoundFacts.

Import RoundSpec.

(* ---------- definitions ---------- *)

(* ---------- digits ---------- *)

Lemma fexp_eq e : fexp prec emax e = Z.max (e - 53) (-1074).
Proof. reflexivity. Qed.

Lemma digits2_size p : digits2_pos p = Pos.size p.
Proof. induction p; simpl; congruence. Qed.

Lemma Zdigits2_bounds m : 0 < m -> 2 ^ (Zdigits2 m - 1) <= m < 2 ^ Zdigits2 m.
Proof.
  destruct m as [|p|p]; try lia. intros _. cbn [Zdigits2].
  rewrite digits2_size.
  pose proof (Pos.size_gt p) as Hgt. pose proof (Pos.size_le p) as Hle.
  apply Pos2Z.pos_lt_pos in Hgt. apply Pos2Z.pos_le_pos in Hle.
  rewrite Pos2Z.inj_pow in Hgt, Hle.
  assert (Hs : 2 ^ Z.pos (Pos.size p) = 2 ^ (Z.pos (Pos.size p) - 1) * 2).
  { rewrite <- (Z.pow_1_r 2) at 3. rewrite <- Z.pow_add_r by lia. f_equal. lia. }
  lia.
Qed.

Lemma Zdigits2_nonneg m : 0 <= Zdigits2 m.
Proof. destruct m; cbn; lia. Qed.

Lemma Zdigits2_pos m : 0 < m -> 0 < Zdigits2 m.
Proof. destruct m; cbn; lia. Qed.

Lemma Zdigits2_unique m d : 2 ^ (d - 1) <= m < 2 ^ d -> 0 < m -> Zdigits2 m = d.
Proof.
  intros [Hlo Hhi] Hm. pose proof (Zdigits2_bounds m Hm) as [Hlo' Hhi'].
  pose proof (Zdigits2_pos m Hm).
  assert (0 <= d).
  { destruct (Z.lt_ge_cases d 0); [|lia]. rewrite Z.pow_neg_r in Hhi; lia. }
  destruct (Z.lt_trichotomy (Zdigits2 m) d) as [Hlt|[Heq|Hgt]]; [|exact Heq|].
  - assert (2 ^ Zdigits2 m <= 2 ^ (d - 1)) by (apply Z.pow_le_mono_r; lia). lia.
  - assert (2 ^ d <= 2 ^ (Zdigits2 m - 1)) by (apply Z.pow_le_mono_r; lia). lia.
Qed.

Lemma Zdigits2_mono a b : 0 <= a <= b -> Zdigits2 a <= Zdigits2 b.
Proof.
  intros [Ha Hab]. destruct (Z.eq_dec a 0) as [->|Hne].
  - apply Zdigits2_nonneg.
  - assert (0 < a) by lia. assert (0 < b) by lia.
    pose proof (Zdigits2_bounds a ltac:(lia)) as [Hlo _].
    pose proof (Zdigits2_bounds b ltac:(lia)) as [_ Hhi].
    destruct (Z.le_gt_cases (Zdigits2 a) (Zdigits2 b)); [assumption|].
    assert (2 ^ Zdigits2 b <= 2 ^ (Zdigits2 a - 1))
      by (apply Z.pow_le_mono_r; pose proof (Zdigits2_nonneg b); lia).
    lia.
Qed.

Lemma Zdigits2_lt_pow m d : 0 <= m < 2 ^ d -> 0 <= d -> Zdigits2 m <= d.
Proof.
  intros [Hm Hlt] Hd. destruct (Z.eq_dec m 0) as [->|]; [cbn; lia|].
  pose proof (Zdigits2_bounds m ltac:(lia)) as [Hlo _].
  destruct (Z.le_gt_cases (Zdigits2 m) d); [assumption|].
  assert (2 ^ d <= 2 ^ (Zdigits2 m - 1)) by (apply Z.pow_le_mono_r; lia). lia.
Qed.

Lemma Zdigits2_ge_pow m d : 2 ^ d <= m -> 0 <= d -> d < Zdigits2 m.
Proof.
  intros Hle Hd. assert (0 < 2 ^ d) by (apply Z.pow_pos_nonneg; lia).
  pose proof (Zdigits2_bounds m ltac:(lia)) as [_ Hhi].
  destruct (Z.lt_ge_cases d (Zdigits2 m)); [assumption|].
  assert (2 ^ Zdigits2 m <= 2 ^ d)
    by (apply Z.pow_le_mono_r; pose proof (Zdigits2_nonneg m); lia).
  lia.
Qed.

Lemma Zdigits2_div_pow2 m k :
  0 <= k -> 2 ^ k <= m -> Zdigits2 (m / 2 ^ k) = Zdigits2 m - k.
Proof.
  intros Hk Hm. assert (Hp : 0 < 2 ^ k) by (apply Z.pow_pos_nonneg; lia).
  pose proof (Zdigits2_bounds m ltac:(lia)) as [Hlo Hhi].
  pose proof (Zdigits2_ge_pow m k Hm Hk) as Hd.
  apply Zdigits2_unique.
  - split.
    + apply Z.div_le_lower_bound; [lia|].
      rewrite <- Z.pow_add_r by lia. replace (k + (Zdigits2 m - k - 1)) with (Zdigits2 m - 1) by lia.
      exact Hlo.
    + apply Z.div_lt_upper_bound; [lia|].
      rewrite <- Z.pow_add_r by lia. replace (k + (Zdigits2 m - k)) with (Zdigits2 m) by lia.
      exact Hhi.
  - apply Z.div_str_pos. lia.
Qed.

Lemma Zdigits2_mul_pow2 m k :
  0 < m -> 0 <= k -> Zdigits2 (m * 2 ^ k) = Zdigits2 m + k.
Proof.
  intros Hm Hk. assert (Hp : 0 < 2 ^ k) by (apply Z.pow_pos_nonneg; lia).
  pose proof (Zdigits2_bounds m Hm) as [Hlo Hhi]. pose proof (Zdigits2_pos m Hm).
  apply Zdigits2_unique; [|nia].
  replace (Zdigits2 m + k - 1) with (Zdigits2 m - 1 + k) by lia.
  rewrite !Z.pow_add_r by lia. nia.
Qed.

(* ---------- sticky shift ---------- *)

Lemma ss1_mono a b : a <= b -> ss1 a <= ss1 b.
Proof.
  unfold ss1. intros H.
  destruct (a mod 2 =? 1) eqn:E1, (a / 2 mod 2 =? 0) eqn:E2,
           (b mod 2 =? 1) eqn:E3, (b / 2 mod 2 =? 0) eqn:E4; cbn [andb];
    rewrite ?Z.eqb_eq, ?Z.eqb_neq in *; divmod.
Qed.

Lemma ss1_nonneg a : 0 <= a -> 0 <= ss1 a.
Proof.
  unfold ss1. intros H.
  destruct ((a mod 2 =? 1) && (a / 2 mod 2 =? 0)); divmod.
Qed.

Lemma ss1_div4 a : ss1 a / 4 = a / 4 / 2.
Proof.
  unfold ss1.
  destruct (a mod 2 =? 1) eqn:E1, (a / 2 mod 2 =? 0) eqn:E2; cbn [andb];
    rewrite ?Z.eqb_eq, ?Z.eqb_neq in *; divmod.
Qed.

Lemma ss1_double a : ss1 (2 * a) = a.
Proof.
  unfold ss1.
  destruct (2 * a mod 2 =? 1) eqn:E1; cbn [andb];
    rewrite ?Z.eqb_eq, ?Z.eqb_neq in *; divmod.
Qed.

Lemma ss_mono n a b : a <= b -> ss n a <= ss n b.
Proof.
  intros H. induction n as [|n IH]; [exact H|].
  change (ss1 (ss n a) <= ss1 (ss n b)). now apply ss1_mono.
Qed.

Lemma ss_nonneg n a : 0 <= a -> 0 <= ss n a.
Proof.
  intros H. induction n as [|n IH]; [exact H|].
  change (0 <= ss1 (ss n a)). now apply ss1_nonneg.
Qed.

Lemma ss_div4 n a : ss n a / 4 = a / 4 / 2 ^ Z.of_nat n.
Proof.
  induction n as [|n IH]; [now rewrite Z.div_1_r|].
  change (ss (S n) a) with (ss1 (ss n a)). rewrite ss1_div4, IH.
  rewrite Nat2Z.inj_succ, Z.pow_succ_r by lia.
  rewrite Z.div_div by (try apply Z.pow_pos_nonneg; lia).
  f_equal. lia.
Qed.

Lemma ss_add n k a : ss (n + k) a = ss n (ss k a).
Proof. unfold ss. apply Nat.iter_add. Qed.

Lemma ss_pow2 k a : ss k (a * 2 ^ Z.of_nat k) = a.
Proof.
  induction k as [|k IH]; [cbn; lia|].
  replace (S k) with (k + 1)%nat by lia. rewrite ss_add.
  change (ss 1 (a * 2 ^ Z.of_nat (k + 1))) with (ss1 (a * 2 ^ Z.of_nat (k + 1))).
  rewrite Nat2Z.inj_add, Z.pow_add_r by lia.
  replace (a * (2 ^ Z.of_nat k * 2 ^ Z.of_nat 1)) with (2 * (a * 2 ^ Z.of_nat k))
    by (change (2 ^ Z.of_nat 1) with 2; lia).
  now rewrite ss1_double.
Qed.

(* ---------- nearest even ---------- *)

Lemma rne4_mono a b : a <= b -> rne4 a <= rne4 b.
Proof.
  unfold rne4. intros H.
  destruct (a mod 4 =? 3) eqn:E1, (a mod 4 =? 2) eqn:E2, (a / 4 mod 2 =? 1) eqn:E3,
           (b mod 4 =? 3) eqn:E4, (b mod 4 =? 2) eqn:E5, (b / 4 mod 2 =? 1) eqn:E6;
    cbn [andb orb]; rewrite ?Z.eqb_eq, ?Z.eqb_neq in *; divmod.
Qed.

Lemma rne4_bounds a : a / 4 <= rne4 a <= a / 4 + 1.
Proof.
  unfold rne4. destruct ((a mod 4 =? 3) || _); lia.
Qed.

Lemma rne4_lt a b : a < 4 * b -> rne4 a <= b.
Proof.
  unfold rne4. intros H.
  destruct (a mod 4 =? 3) eqn:E1, (a mod 4 =? 2) eqn:E2, (a / 4 mod 2 =? 1) eqn:E3;
    cbn [andb orb]; rewrite ?Z.eqb_eq, ?Z.eqb_neq in *; divmod.
Qed.

Lemma rne4_exact m : rne4 (4 * m) = m.
Proof.
  unfold rne4.
  destruct (4 * m mod 4 =? 3) eqn:E1, (4 * m mod 4 =? 2) eqn:E2;
    cbn [andb orb]; rewrite ?Z.eqb_eq, ?Z.eqb_neq in *; divmod.
Qed.

(* ---------- rounding of a sticky code ---------- *)

Lemma pow2_pos k : 0 <= k -> 0 < 2 ^ k.
Proof. intros. apply Z.pow_pos_nonneg; lia. Qed.

Lemma pow2_le a b : 0 <= a <= b -> 2 ^ a <= 2 ^ b.
Proof. intros. apply Z.pow_le_mono_r; lia. Qed.

Lemma pow2_mul_lt a j k K :
  0 <= a < 2 ^ j -> 0 <= j -> 0 <= k -> j + k <= K -> a * 2 ^ k < 2 ^ K.
Proof.
  intros Ha Hj Hk HK.
  assert (2 ^ j * 2 ^ k <= 2 ^ K) by (rewrite <- Z.pow_add_r by lia; apply pow2_le; lia).
  pose proof (pow2_pos k Hk). nia.
Qed.

Lemma pow2_mul_ge a j k K :
  2 ^ j <= a -> 0 <= j -> 0 <= k -> K <= j + k -> 2 ^ K <= a * 2 ^ k.
Proof.
  intros Ha Hj Hk HK.
  assert (2 ^ K <= 2 ^ j * 2 ^ k)
    by (rewrite <- Z.pow_add_r by lia; apply Z.pow_le_mono_r; lia).
  pose proof (pow2_pos k Hk). nia.
Qed.

(* the mantissa kept by the shift has at most 53 digits *)
Lemma kept_lt e0 f :
  0 <= f ->
  let e1 := fexp prec emax (Zdigits2 (f / 4) + e0) in
  e0 <= e1 ->
  ss (Z.to_nat (e1 - e0)) f < 4 * 2 ^ 53.
Proof.
  intros Hf e1 He. set (p := e1 - e0).
  assert (Hp : 0 <= p) by (unfold p; lia).
  assert (Hd : Zdigits2 (f / 4) <= p + 53) by (unfold p, e1; rewrite fexp_eq; lia).
  assert (H4 : ss (Z.to_nat p) f / 4 < 2 ^ 53).
  { rewrite ss_div4, Z2Nat.id by lia.
    apply Z.div_lt_upper_bound; [now apply pow2_pos|].
    rewrite <- Z.pow_add_r by lia.
    assert (0 <= f / 4) by (apply Z.div_pos; lia).
    destruct (Z.eq_dec (f / 4) 0) as [->|]; [apply pow2_pos; lia|].
    pose proof (Zdigits2_bounds (f / 4) ltac:(lia)) as [_ Hhi].
    pose proof (pow2_le (Zdigits2 (f / 4)) (p + 53)
                  ltac:(pose proof (Zdigits2_nonneg (f / 4)); lia)).
    lia. }
  pose proof (ss_nonneg (Z.to_nat p) f Hf).
  revert H4. generalize (ss (Z.to_nat p) f). intros w.
  change (2 ^ 53) with 9007199254740992. divmod.
Qed.

(* in the normal range the kept mantissa has at least 53 digits *)
Lemma kept_ge e0 f :
  0 <= f ->
  let e1 := fexp prec emax (Zdigits2 (f / 4) + e0) in
  e0 <= e1 -> -1074 < e1 ->
  4 * 2 ^ 52 <= ss (Z.to_nat (e1 - e0)) f.
Proof.
  intros Hf e1 He Hn. set (p := e1 - e0).
  assert (He1 : e1 = Zdigits2 (f / 4) + e0 - 53) by (unfold e1 in *; rewrite fexp_eq in *; lia).
  assert (Hp : 0 <= p) by (unfold p; lia).
  assert (Hd : Zdigits2 (f / 4) = p + 53) by (unfold p; lia).
  assert (H0 : 0 < f / 4).
  { assert (0 <= f / 4) by (apply Z.div_pos; lia).
    destruct (Z.eq_dec (f / 4) 0) as [E|]; [|lia].
    rewrite E in Hd. cbn in Hd. lia. }
  assert (H4 : 2 ^ 52 <= ss (Z.to_nat p) f / 4).
  { rewrite ss_div4, Z2Nat.id by lia.
    apply Z.div_le_lower_bound; [now apply pow2_pos|].
    rewrite <- Z.pow_add_r by lia.
    pose proof (Zdigits2_bounds (f / 4) H0) as [Hlo _].
    replace (p + 52) with (Zdigits2 (f / 4) - 1) by lia. exact Hlo. }
  revert H4. generalize (ss (Z.to_nat p) f). intros w.
  change (2 ^ 52) with 4503599627370496. divmod.
Qed.

Lemma rndZ_mono e0 f f' :
  e0 <= -1074 -> 0 <= f <= f' -> rndZ e0 f <= rndZ e0 f'.
Proof.
  intros He0 [Hf Hff']. unfold rndZ. cbv zeta.
  set (e1 := fexp prec emax (Zdigits2 (f / 4) + e0)).
  set (e1' := fexp prec emax (Zdigits2 (f' / 4) + e0)).
  assert (Hd : Zdigits2 (f / 4) <= Zdigits2 (f' / 4)).
  { apply Zdigits2_mono. split; [apply Z.div_pos; lia|].
    apply Z.div_le_mono; lia. }
  assert (He : e1 <= e1') by (unfold e1, e1'; rewrite !fexp_eq; lia).
  assert (He1 : -1074 <= e1) by (unfold e1; rewrite fexp_eq; lia).
  apply Z.min_le_compat_l.
  destruct (Z.eq_dec e1 e1') as [<-|Hne].
  - apply Z.mul_le_mono_nonneg_r; [apply Z.lt_le_incl, pow2_pos; lia|].
    now apply rne4_mono, ss_mono.
  - assert (Hlt : e1 < e1') by lia.
    pose proof (kept_lt e0 f Hf) as Hup. cbv zeta in Hup. fold e1 in Hup.
    specialize (Hup ltac:(lia)).
    pose proof (kept_ge e0 f' ltac:(lia)) as Hlo. cbv zeta in Hlo. fold e1' in Hlo.
    specialize (Hlo ltac:(lia) ltac:(lia)).
    apply rne4_lt in Hup.
    assert (Hm' : 2 ^ 52 <= rne4 (ss (Z.to_nat (e1' - e0)) f')).
    { pose proof (rne4_bounds (ss (Z.to_nat (e1' - e0)) f')) as [Hb _].
      revert Hb Hlo. generalize (ss (Z.to_nat (e1' - e0)) f'). intros w.
      change (2 ^ 52) with 4503599627370496. intros. 
      assert (4503599627370496 <= w / 4) by divmod. lia. }
    transitivity (2 ^ 53 * 2 ^ (e1 + 1074)).
    { apply Z.mul_le_mono_nonneg_r; [apply Z.lt_le_incl, pow2_pos; lia|exact Hup]. }
    transitivity (2 ^ 52 * 2 ^ (e1' + 1074)).
    { rewrite <- !Z.pow_add_r by lia. apply pow2_le. lia. }
    apply Z.mul_le_mono_nonneg_r; [apply Z.lt_le_incl, pow2_pos; lia|exact Hm'].
Qed.

(* ---------- shift records and their codes ---------- *)

Lemma ss1_code m c :
  0 <= c < 4 -> ss1 (4 * m + c) = 2 * m + (if c =? 0 then 0 else 1).
Proof.
  intros Hc. unfold ss1.
  assert (H1 : (4 * m + c) / 2 = 2 * m + c / 2) by divmod.
  assert (H2 : (4 * m + c) mod 2 = c mod 2) by divmod.
  rewrite H1, H2.
  assert (H3 : (2 * m + c / 2) mod 2 = c / 2) by divmod.
  rewrite H3.
  assert (Hcases : c = 0 \/ c = 1 \/ c = 2 \/ c = 3) by lia.
  destruct Hcases as [-> | [-> | [-> | ->]]].
  - change (0 mod 2) with 0. change (0 / 2) with 0. cbn [Z.eqb andb]. lia.
  - change (1 mod 2) with 1. change (1 / 2) with 0. cbn [Z.eqb Pos.eqb andb]. lia.
  - change (2 mod 2) with 0. change (2 / 2) with 1. cbn [Z.eqb Pos.eqb andb]. lia.
  - change (3 mod 2) with 1. change (3 / 2) with 1. cbn [Z.eqb Pos.eqb andb]. lia.
Qed.

Lemma enc_of_loc m l : enc (shr_record_of_loc m l) = 4 * m + loc_code l.
Proof.
  destruct l as [|[| |]]; unfold enc;
    cbn [shr_record_of_loc shr_m shr_r shr_s loc_code]; lia.
Qed.

Lemma shr_m_of_loc m l : shr_m (shr_record_of_loc m l) = m.
Proof. now destruct l as [|[| |]]. Qed.

Lemma shr_1_enc r :
  0 <= shr_m r -> enc (shr_1 r) = ss1 (enc r) /\ 0 <= shr_m (shr_1 r).
Proof.
  destruct r as [m r s]. cbn [shr_m]. intros Hm.
  assert (E : enc {| shr_m := m; shr_r := r; shr_s := s |}
              = 4 * m + ((if r then 2 else 0) + (if s then 1 else 0)))
    by (unfold enc; cbn [shr_m shr_r shr_s]; lia).
  rewrite E, ss1_code by (destruct r, s; lia).
  assert (Hc : (if (if r then 2 else 0) + (if s then 1 else 0) =? 0 then 0 else 1)
               = if r || s then 1 else 0) by now destruct r, s.
  rewrite Hc.
  destruct m as [|[p|p|]|]; try lia; unfold enc;
    cbn [shr_1 shr_m shr_r shr_s];
    (split; [|lia]); destruct (r || s); lia.
Qed.

Lemma iter_pos_nat {A} (f : A -> A) p x :
  SpecFloat.iter_pos f p x = Nat.iter (Pos.to_nat p) f x.
Proof.
  revert x. induction p as [p IH|p IH|]; intros x; cbn [SpecFloat.iter_pos].
  - rewrite !IH, Pos2Nat.inj_xI.
    replace (S (2 * Pos.to_nat p)) with (Pos.to_nat p + (Pos.to_nat p + 1))%nat by lia.
    rewrite !Nat.iter_add. reflexivity.
  - rewrite !IH, Pos2Nat.inj_xO.
    replace (2 * Pos.to_nat p)%nat with (Pos.to_nat p + Pos.to_nat p)%nat by lia.
    now rewrite Nat.iter_add.
  - reflexivity.
Qed.

Lemma iter_shr_1_enc n r :
  0 <= shr_m r ->
  enc (Nat.iter n shr_1 r) = ss n (enc r) /\ 0 <= shr_m (Nat.iter n shr_1 r).
Proof.
  intros Hm. induction n as [|n [IH1 IH2]]; [now split|].
  cbn [Nat.iter]. change (ss (S n) (enc r)) with (ss1 (ss n (enc r))).
  rewrite <- IH1. now apply shr_1_enc.
Qed.

(* the shift of [shr], on codes *)
Lemma shr_enc r e n :
  0 <= shr_m r ->
  enc (fst (shr r e n)) = ss (Z.to_nat n) (enc r)
  /\ 0 <= shr_m (fst (shr r e n))
  /\ snd (shr r e n) = e + Z.max n 0.
Proof.
  intros Hm. destruct n as [|p|p]; cbn [shr fst snd Z.to_nat].
  - split; [reflexivity|split; [assumption|lia]].
  - rewrite iter_pos_nat.
    destruct (iter_shr_1_enc (Pos.to_nat p) r Hm).
    split; [assumption|split; [assumption|lia]].
  - split; [reflexivity|split; [assumption|lia]].
Qed.

Lemma rne4_code m c :
  0 <= c < 4 ->
  rne4 (4 * m + c)
  = if (c =? 3) || ((c =? 2) && Z.odd m) then m + 1 else m.
Proof.
  intros Hc. unfold rne4.
  assert (H1 : (4 * m + c) / 4 = m) by divmod.
  assert (H2 : (4 * m + c) mod 4 = c) by divmod.
  rewrite H1, H2.
  assert (H3 : (m mod 2 =? 1) = Z.odd m).
  { rewrite Zmod_odd. now destruct (Z.odd m). }
  now rewrite H3.
Qed.

Lemma round_nearest_even_enc r :
  round_nearest_even (shr_m r) (loc_of_shr_record r) = rne4 (enc r).
Proof.
  destruct r as [m r s].
  assert (E : enc {| shr_m := m; shr_r := r; shr_s := s |}
              = 4 * m + ((if r then 2 else 0) + (if s then 1 else 0)))
    by (unfold enc; cbn [shr_m shr_r shr_s]; lia).
  rewrite E, rne4_code by (destruct r, s; lia).
  cbn [shr_m loc_of_shr_record].
  destruct r, s; cbn [round_nearest_even Z.add Z.eqb Pos.eqb orb andb Pos.add];
    try reflexivity.
  rewrite <- Z.negb_even. now destruct (Z.even m).
Qed.


Lemma shr_nonpos r e n : n <= 0 -> shr r e n = (r, e).
Proof. destruct n; [reflexivity|lia|reflexivity]. Qed.

Lemma round_tail m1 e1 :
  0 <= m1 <= 2 ^ 53 -> -1074 <= e1 ->
  (let '(mrs, e2) := shr_fexp prec emax m1 e1 loc_Exact in
   match shr_m mrs with
   | Z0 => S754_zero false
   | Zpos m => if e2 <=? emax - prec then S754_finite false m e2
               else S754_infinity false
   | Zneg _ => S754_nan
   end) = pack m1 e1.
Proof.
  intros [Hlo Hhi] He. unfold shr_fexp.
  destruct (Z.eq_dec m1 (2 ^ 53)) as [->|Hne].
  - change (Zdigits2 (2 ^ 53)) with 54. rewrite fexp_eq.
    replace (Z.max (54 + e1 - 53) (-1074) - e1) with 1 by lia.
    reflexivity.
  - assert (Hd : Zdigits2 m1 <= 53) by (apply Zdigits2_lt_pow; lia).
    rewrite shr_nonpos by (rewrite fexp_eq; lia).
    cbn [shr_record_of_loc shr_m]. unfold pack.
    destruct m1 as [|mm|mm]; [reflexivity| |lia].
    destruct (Z.eqb_spec (Z.pos mm) (2 ^ 53)); [contradiction|reflexivity].
Qed.

Lemma binary_round_aux_eq m e l :
  0 <= m ->
  let e1 := fexp prec emax (Zdigits2 m + e) in
  e <= e1 ->
  binary_round_aux prec emax false m e l
  = pack (rne4 (ss (Z.to_nat (e1 - e)) (4 * m + loc_code l))) e1.
Proof.
  intros Hm e1 He. unfold binary_round_aux. unfold shr_fexp at 1.
  fold e1.
  assert (Hm' : 0 <= shr_m (shr_record_of_loc m l)) by now rewrite shr_m_of_loc.
  destruct (shr_enc (shr_record_of_loc m l) e (e1 - e) Hm') as (H1 & H2 & H3).
  destruct (shr (shr_record_of_loc m l) e (e1 - e)) as [mrs e'].
  cbn [fst snd] in H1, H2, H3.
  rewrite round_nearest_even_enc, H1, enc_of_loc.
  replace e' with e1 by lia.
  assert (Hf : 0 <= 4 * m + loc_code l) by (destruct l as [|[| |]]; cbn; lia).
  assert (Hq : (4 * m + loc_code l) / 4 = m)
    by (destruct l as [|[| |]]; cbn [loc_code]; divmod).
  apply round_tail.
  - pose proof (kept_lt e (4 * m + loc_code l) Hf) as Hup. cbv zeta in Hup.
    rewrite Hq in Hup. specialize (Hup He).
    pose proof (ss_nonneg (Z.to_nat (e1 - e)) _ Hf) as Hnn.
    pose proof (rne4_bounds (ss (Z.to_nat (e1 - e)) (4 * m + loc_code l))) as [Hb _].
    split; [|now apply rne4_lt].
    revert Hb Hnn. generalize (ss (Z.to_nat (e1 - e)) (4 * m + loc_code l)).
    intros w ? ?. assert (0 <= w / 4) by (apply Z.div_pos; lia). lia.
  - unfold e1. rewrite fexp_eq. lia.
Qed.

Lemma ival_pack m1 e1 :
  0 <= m1 <= 2 ^ 53 -> -1074 <= e1 -> (-1074 < e1 -> 2 ^ 52 <= m1) ->
  nonneg (pack m1 e1) = true
  /\ ival (pack m1 e1) = Z.min TOP (m1 * 2 ^ (e1 + 1074)).
Proof.
  intros [Hlo Hhi] He Hn. unfold pack.
  assert (Htop : forall a k, 0 <= a -> a < 2 ^ 53 -> -1074 <= k <= 971 ->
                 a * 2 ^ (k + 1074) < TOP).
  { intros a k Ha Ha' Hk. unfold TOP. apply (pow2_mul_lt a 53); lia. }
  assert (Hover : forall a k, 2 ^ 52 <= a -> 971 < k ->
                  TOP <= a * 2 ^ (k + 1074)).
  { intros a k Ha Hk. unfold TOP. apply (pow2_mul_ge a 52); lia. }
  destruct m1 as [|mm|mm]; [| |lia].
  - split; [reflexivity|]. cbn [ival]. unfold TOP. rewrite Z.mul_0_l.
    symmetry. apply Z.min_r. apply Z.lt_le_incl, pow2_pos. lia.
  - destruct (Z.eqb_spec (Z.pos mm) (2 ^ 53)) as [E|Hne].
    + rewrite E. destruct (Z.leb_spec (e1 + 1) 971) as [Hle|Hgt].
      * split.
        -- unfold nonneg, valid. cbn [valid_binary]. unfold bounded, canonical_mantissa.
           change (Z.pos (digits2_pos (2 ^ 52))) with 53. rewrite fexp_eq.
           change (emax - prec) with 971.
           rewrite andb_true_r, andb_true_iff, Z.eqb_eq, Z.leb_le. lia.
        -- cbn [ival]. change (Z.pos (2 ^ 52)) with (2 ^ 52).
           replace (2 ^ 52 * 2 ^ (e1 + 1 + 1074)) with (2 ^ 53 * 2 ^ (e1 + 1074)).
           2:{ rewrite <- !Z.pow_add_r by lia. f_equal. lia. }
           symmetry. apply Z.min_r, Z.lt_le_incl.
           replace (2 ^ 53 * 2 ^ (e1 + 1074)) with (2 ^ 52 * 2 ^ (e1 + 1 + 1074)).
           2:{ rewrite <- !Z.pow_add_r by lia. f_equal. lia. }
           apply Htop; [apply Z.lt_le_incl, pow2_pos; lia| |lia].
           apply Z.pow_lt_mono_r; lia.
      * split; [reflexivity|]. cbn [ival]. symmetry. apply Z.min_l.
        replace (2 ^ 53 * 2 ^ (e1 + 1074)) with (2 ^ 52 * 2 ^ (e1 + 1 + 1074)).
        2:{ rewrite <- !Z.pow_add_r by lia. f_equal. lia. }
        apply Hover; lia.
    + destruct (Z.leb_spec e1 971) as [Hle|Hgt].
      * split.
        -- unfold nonneg, valid. cbn [valid_binary]. unfold bounded, canonical_mantissa.
           change (Z.pos (digits2_pos mm)) with (Zdigits2 (Z.pos mm)).
           rewrite fexp_eq. change (emax - prec) with 971.
           rewrite andb_true_r, andb_true_iff, Z.eqb_eq, Z.leb_le.
           split; [|exact Hle].
           assert (Hd : Zdigits2 (Z.pos mm) <= 53) by (apply Zdigits2_lt_pow; lia).
           destruct (Z.eq_dec e1 (-1074)) as [->|]; [lia|].
           assert (52 < Zdigits2 (Z.pos mm)) by (apply Zdigits2_ge_pow; [apply Hn|]; lia).
           lia.
        -- cbn [ival]. symmetry. apply Z.min_r, Z.lt_le_incl, Htop; lia.
      * split; [reflexivity|]. cbn [ival]. symmetry. apply Z.min_l.
        apply Hover; [apply Hn|]; lia.
Qed.

(* the result of a rounding step is a valid non-negative number whose
   value is the rounding of the code *)
Lemma binary_round_aux_spec m e l :
  0 <= m ->
  e <= fexp prec emax (Zdigits2 m + e) ->
  nonneg (binary_round_aux prec emax false m e l) = true
  /\ ival (binary_round_aux prec emax false m e l) = rndZ e (4 * m + loc_code l).
Proof.
  intros Hm He. rewrite (binary_round_aux_eq m e l Hm He).
  assert (Hf : 0 <= 4 * m + loc_code l) by (destruct l as [|[| |]]; cbn; lia).
  assert (Hq : (4 * m + loc_code l) / 4 = m)
    by (destruct l as [|[| |]]; cbn [loc_code]; divmod).
  unfold rndZ. cbv zeta. rewrite Hq.
  set (e1 := fexp prec emax (Zdigits2 m + e)) in *.
  pose proof (kept_lt e (4 * m + loc_code l) Hf) as Hup. cbv zeta in Hup.
  rewrite Hq in Hup. fold e1 in Hup. specialize (Hup He).
  pose proof (kept_ge e (4 * m + loc_code l) Hf) as Hge. cbv zeta in Hge.
  rewrite Hq in Hge. fold e1 in Hge. specialize (Hge He).
  pose proof (ss_nonneg (Z.to_nat (e1 - e)) _ Hf) as Hnn.
  pose proof (rne4_bounds (ss (Z.to_nat (e1 - e)) (4 * m + loc_code l))) as [Hb _].
  apply ival_pack.
  - split; [|now apply rne4_lt].
    revert Hb Hnn. generalize (ss (Z.to_nat (e1 - e)) (4 * m + loc_code l)).
    intros w ? ?. assert (0 <= w / 4) by (apply Z.div_pos; lia). lia.
  - unfold e1. rewrite fexp_eq. lia.
  - intros Hn. specialize (Hge Hn).
    revert Hb Hge. generalize (ss (Z.to_nat (e1 - e)) (4 * m + loc_code l)).
    intros w ? ?. change (2 ^ 52) with 4503599627370496 in *.
    assert (4503599627370496 <= w / 4) by divmod. lia.
Qed.


(* ---------- valid non-negative numbers ---------- *)

Lemma valid_finite m e :
  valid (S754_finite false m e) = true ->
  -1074 <= e <= 971 /\ Zdigits2 (Z.pos m) <= 53
  /\ fexp prec emax (Zdigits2 (Z.pos m) + e) = e
  /\ (-1074 < e -> 2 ^ 52 <= Z.pos m)
  /\ Z.pos m < 2 ^ 53.
Proof.
  unfold valid. cbn [valid_binary]. unfold bounded, canonical_mantissa.
  change (Z.pos (digits2_pos m)) with (Zdigits2 (Z.pos m)).
  change (emax - prec) with 971.
  rewrite andb_true_iff, Z.eqb_eq, Z.leb_le, fexp_eq. intros [Hc He].
  pose proof (Zdigits2_bounds (Z.pos m) ltac:(lia)) as [Hlo Hhi].
  assert (Hd : Zdigits2 (Z.pos m) <= 53) by lia.
  pose proof (Zdigits2_nonneg (Z.pos m)) as Hnn.
  repeat split; try lia.
  - intros Hn. assert (Zdigits2 (Z.pos m) = 53) by lia.
    replace 52 with (Zdigits2 (Z.pos m) - 1) by lia. exact Hlo.
  - pose proof (pow2_le (Zdigits2 (Z.pos m)) 53 ltac:(lia)). lia.
Qed.

Lemma nonneg_cases x :
  nonneg x = true ->
  x = S754_zero false \/ x = S754_infinity false
  \/ exists m e, x = S754_finite false m e /\ valid x = true.
Proof.
  unfold nonneg. rewrite andb_true_iff. intros [Hv Hs].
  destruct x as [[]|[]| |[] m e]; try discriminate; auto.
  right. right. exists m, e. split; [reflexivity|exact Hv].
Qed.

Lemma nonneg_finite m e :
  valid (S754_finite false m e) = true -> nonneg (S754_finite false m e) = true.
Proof. intros Hv. unfold nonneg. now rewrite Hv. Qed.

Lemma ival_finite m e :
  valid (S754_finite false m e) = true ->
  0 < ival (S754_finite false m e) < TOP.
Proof.
  intros Hv. destruct (valid_finite m e Hv) as ([He1 He2] & _ & _ & _ & Hm).
  cbn [ival]. pose proof (pow2_pos (e + 1074) ltac:(lia)).
  split; [nia|]. unfold TOP. apply (pow2_mul_lt _ 53); lia.
Qed.

Lemma ival_ge_pow K x m e :
  x = S754_finite false m e -> 2 ^ 52 <= Z.pos m -> 0 <= e + 1074 ->
  K <= 52 + (e + 1074) -> 2 ^ K <= ival x.
Proof. intros -> Hm He HK. cbn [ival]. apply (pow2_mul_ge _ 52); lia. Qed.

Lemma ival_range x : nonneg x = true -> 0 <= ival x <= TOP.
Proof.
  intros H. assert (0 < TOP) by (apply pow2_pos; lia).
  destruct (nonneg_cases x H) as [->|[->|(m & e & -> & Hv)]]; cbn [ival]; try lia.
  pose proof (ival_finite m e Hv). cbn [ival] in *. lia.
Qed.

Lemma ival_lt_exp m e m' e' :
  valid (S754_finite false m e) = true ->
  valid (S754_finite false m' e') = true ->
  e < e' -> Z.pos m * 2 ^ (e + 1074) < Z.pos m' * 2 ^ (e' + 1074).
Proof.
  intros Hv Hv' Hlt.
  destruct (valid_finite m e Hv) as ([He1 He2] & _ & _ & _ & Hm).
  destruct (valid_finite m' e' Hv') as ([He1' He2'] & _ & _ & Hn' & _).
  specialize (Hn' ltac:(lia)).
  pose proof (pow2_pos (e + 1074) ltac:(lia)).
  pose proof (pow2_pos (e' + 1074) ltac:(lia)).
  assert (2 ^ 53 * 2 ^ (e + 1074) <= 2 ^ 52 * 2 ^ (e' + 1074)).
  { rewrite <- !Z.pow_add_r by lia. apply pow2_le. lia. }
  nia.
Qed.

(* comparison of numbers is comparison of their values *)
Lemma SFcompare_ival x y :
  nonneg x = true -> nonneg y = true ->
  SFcompare x y = Some (ival x ?= ival y).
Proof.
  intros Hx Hy. assert (0 < TOP) by (apply pow2_pos; lia).
  destruct (nonneg_cases x Hx) as [->|[->|(m & e & -> & Hv)]];
    destruct (nonneg_cases y Hy) as [->|[->|(m' & e' & -> & Hv')]];
    try pose proof (ival_finite m e Hv);
    try pose proof (ival_finite m' e' Hv');
    cbn [SFcompare]; f_equal; symmetry;
    try (apply Z.compare_eq_iff; reflexivity);
    try (apply Z.compare_lt_iff; cbn [ival] in *; lia);
    try (apply Z.compare_gt_iff; cbn [ival] in *; lia).
  cbn [ival]. destruct (Z.compare_spec e e') as [->|Hlt|Hgt].
  - change (Pos.compare_cont Eq m m') with (Z.pos m ?= Z.pos m').
    destruct (valid_finite m e' Hv) as ([He1 He2] & _).
    pose proof (pow2_pos (e' + 1074) ltac:(lia)).
    destruct (Z.compare_spec (Z.pos m) (Z.pos m')) as [E|E|E].
    + rewrite E. apply Z.compare_eq_iff. reflexivity.
    + apply Z.compare_lt_iff. nia.
    + apply Z.compare_gt_iff. nia.
  - apply Z.compare_lt_iff. now apply ival_lt_exp.
  - apply Z.compare_gt_iff. now apply ival_lt_exp.
Qed.

Lemma le_ival x y :
  nonneg x = true -> nonneg y = true -> (le x y = true <-> ival x <= ival y).
Proof.
  intros Hx Hy. unfold le, SFleb. rewrite (SFcompare_ival x y Hx Hy).
  destruct (Z.compare_spec (ival x) (ival y)); split; try lia; try discriminate;
    reflexivity.
Qed.

Lemma lt_ival x y :
  nonneg x = true -> nonneg y = true -> (lt x y = true <-> ival x < ival y).
Proof.
  intros Hx Hy. unfold lt, SFltb. rewrite (SFcompare_ival x y Hx Hy).
  destruct (Z.compare_spec (ival x) (ival y)); split; try lia; try discriminate;
    reflexivity.
Qed.

Lemma ival_inj x y :
  nonneg x = true -> nonneg y = true -> ival x = ival y -> x = y.
Proof.
  intros Hx Hy E. assert (0 < TOP) by (apply pow2_pos; lia).
  destruct (nonneg_cases x Hx) as [->|[->|(m & e & -> & Hv)]];
    destruct (nonneg_cases y Hy) as [->|[->|(m' & e' & -> & Hv')]];
    try pose proof (ival_finite m e Hv);
    try pose proof (ival_finite m' e' Hv');
    try reflexivity; try (cbn [ival] in *; lia).
  cbn [ival] in E.
  destruct (Z.lt_trichotomy e e') as [Hlt|[->|Hgt]].
  - pose proof (ival_lt_exp m e m' e' Hv Hv' Hlt). lia.
  - destruct (valid_finite m e' Hv) as ([He1 He2] & _).
    pose proof (pow2_pos (e' + 1074) ltac:(lia)).
    assert (Z.pos m = Z.pos m') by nia. congruence.
  - pose proof (ival_lt_exp m' e' m e Hv' Hv Hgt). lia.
Qed.

(* ---------- rounding: change of scale ---------- *)

Lemma rndZ_le_TOP e0 f : rndZ e0 f <= TOP.
Proof. unfold rndZ. apply Z.le_min_l. Qed.

Lemma rndZ_coarsen e0 k f :
  0 <= f ->
  let fc := ss k f in
  let ec := e0 + Z.of_nat k in
  ec <= fexp prec emax (Zdigits2 (fc / 4) + ec) ->
  rndZ e0 f = rndZ ec fc.
Proof.
  intros Hf fc ec Hp. unfold rndZ. cbv zeta.
  assert (Hq : fc / 4 = f / 4 / 2 ^ Z.of_nat k) by apply ss_div4.
  assert (Hk : 0 < 2 ^ Z.of_nat k) by (apply pow2_pos; lia).
  assert (Hf4 : 0 <= f / 4) by (apply Z.div_pos; lia).
  assert (He : fexp prec emax (Zdigits2 (f / 4) + e0)
               = fexp prec emax (Zdigits2 (fc / 4) + ec)).
  { destruct (Z.le_gt_cases (2 ^ Z.of_nat k) (f / 4)) as [Hbig|Hsmall].
    - rewrite Hq, Zdigits2_div_pow2 by lia. f_equal. unfold ec. lia.
    - assert (E0 : fc / 4 = 0) by (rewrite Hq; apply Z.div_small; lia).
      rewrite E0 in *. cbn [Zdigits2] in *. rewrite !fexp_eq in *.
      assert (Zdigits2 (f / 4) <= Z.of_nat k) by (apply Zdigits2_lt_pow; lia).
      unfold ec in *. lia. }
  rewrite He. set (e1 := fexp prec emax (Zdigits2 (fc / 4) + ec)) in *.
  f_equal. f_equal. f_equal.
  replace (Z.to_nat (e1 - e0)) with (Z.to_nat (e1 - ec) + k)%nat by (unfold ec; lia).
  apply ss_add.
Qed.

Lemma ss_zero k : ss k 0 = 0.
Proof. induction k as [|k IH]; [reflexivity|]. change (ss1 (ss k 0) = 0). now rewrite IH. Qed.

Lemma rndZ_zero e0 : e0 <= -1074 -> rndZ e0 0 = 0.
Proof.
  intros He. unfold rndZ. cbv zeta. change (0 / 4) with 0. cbn [Zdigits2].
  rewrite ss_zero. change (rne4 0) with 0. rewrite Z.mul_0_l.
  apply Z.min_r. apply Z.lt_le_incl, pow2_pos. lia.
Qed.

(* rounding a number at its own exponent returns it *)
Lemma rndZ_self m e :
  valid (S754_finite false m e) = true ->
  rndZ e (4 * Z.pos m) = Z.pos m * 2 ^ (e + 1074).
Proof.
  intros Hv. destruct (valid_finite m e Hv) as ([He1 He2] & Hd & Hc & _ & Hm).
  unfold rndZ. cbv zeta.
  replace (4 * Z.pos m / 4) with (Z.pos m) by divmod.
  rewrite Hc, Z.sub_diag. change (ss (Z.to_nat 0) (4 * Z.pos m)) with (4 * Z.pos m).
  rewrite rne4_exact. apply Z.min_r.
  pose proof (ival_finite m e Hv) as Hi. cbn [ival] in Hi. lia.
Qed.

(* rounding an exact value given at a finer scale *)
Lemma rndZ_scale e0 e m :
  0 < m -> e0 <= e -> e <= fexp prec emax (Zdigits2 m + e) ->
  rndZ e0 (4 * (m * 2 ^ (e - e0))) = rndZ e (4 * m).
Proof.
  intros Hm He Hp.
  pose proof (rndZ_coarsen e0 (Z.to_nat (e - e0)) (4 * (m * 2 ^ (e - e0)))) as H.
  cbv zeta in H. rewrite Z2Nat.id in H by lia.
  replace (4 * (m * 2 ^ (e - e0))) with (4 * m * 2 ^ Z.of_nat (Z.to_nat (e - e0))) in H
    by (rewrite Z2Nat.id by lia; lia).
  rewrite ss_pow2 in H. rewrite Z2Nat.id in H by lia.
  replace (e0 + (e - e0)) with e in H by lia.
  replace (4 * m / 4) with m in H by divmod.
  replace (4 * (m * 2 ^ (e - e0))) with (4 * m * 2 ^ (e - e0)) by lia.
  apply H; [|exact Hp].
  pose proof (pow2_pos (e - e0) ltac:(lia)). nia.
Qed.


Lemma TOP_pos : 0 < TOP.
Proof. apply pow2_pos. lia. Qed.

(* ---------- alignment and normalisation ---------- *)

Lemma iter_xO m d : Z.pos (Pos.iter xO m d) = Z.pos m * 2 ^ Z.pos d.
Proof.
  induction d as [|d IH] using Pos.peano_ind.
  - cbn [Pos.iter]. lia.
  - rewrite Pos.iter_succ, Pos2Z.inj_succ, Z.pow_succ_r by lia.
    rewrite Pos2Z.inj_xO, IH. lia.
Qed.

Lemma shl_align_spec mx ex ex' :
  snd (shl_align mx ex ex') = Z.min ex ex'
  /\ Z.pos (fst (shl_align mx ex ex'))
     = Z.pos mx * 2 ^ (ex - Z.min ex ex').
Proof.
  unfold shl_align. destruct (ex' - ex) as [|d|d] eqn:E; cbn [fst snd].
  - replace (Z.min ex ex') with ex by lia. rewrite Z.sub_diag. lia.
  - replace (Z.min ex ex') with ex by lia. rewrite Z.sub_diag. lia.
  - replace (Z.min ex ex') with ex' by lia. split; [reflexivity|].
    rewrite iter_xO. f_equal. f_equal. lia.
Qed.

Lemma binary_round_spec m e :
  let e' := Z.min e (fexp prec emax (Zdigits2 (Z.pos m) + e)) in
  nonneg (binary_round prec emax false m e) = true
  /\ ival (binary_round prec emax false m e)
     = rndZ e' (4 * (Z.pos m * 2 ^ (e - e'))).
Proof.
  cbv zeta. unfold binary_round.
  change (Z.pos (digits2_pos m)) with (Zdigits2 (Z.pos m)).
  set (t := fexp prec emax (Zdigits2 (Z.pos m) + e)).
  destruct (shl_align_spec m e t) as [Hs Hf].
  destruct (shl_align m e t) as [mz ez]. cbn [fst snd] in Hs, Hf.
  subst ez. rewrite Hf.
  assert (Hk : 0 <= e - Z.min e t) by lia.
  assert (Hd : Zdigits2 (Z.pos m * 2 ^ (e - Z.min e t)) + Z.min e t
               = Zdigits2 (Z.pos m) + e)
    by (rewrite Zdigits2_mul_pow2 by lia; lia).
  pose proof (pow2_pos _ Hk).
  destruct (binary_round_aux_spec (Z.pos m * 2 ^ (e - Z.min e t)) (Z.min e t)
              loc_Exact) as [Hn Hv].
  - nia.
  - rewrite Hd. fold t. lia.
  - split; [exact Hn|]. rewrite Hv. cbn [loc_code]. f_equal. lia.
Qed.

(* a value rounds to itself when it is representable at exponent [e] *)
Lemma rndZ_canon m e :
  0 < m -> fexp prec emax (Zdigits2 m + e) = e ->
  m * 2 ^ (e + 1074) <= TOP ->
  rndZ e (4 * m) = m * 2 ^ (e + 1074).
Proof.
  intros Hm Hc Ht. unfold rndZ. cbv zeta.
  replace (4 * m / 4) with m by divmod.
  rewrite Hc, Z.sub_diag. change (ss (Z.to_nat 0) (4 * m)) with (4 * m).
  rewrite rne4_exact. now apply Z.min_r.
Qed.

(* the value of a number, rounded at the finest scale, is the number *)
Lemma rndZ_ival x :
  nonneg x = true -> ival x < TOP -> rndZ (-1074) (4 * ival x) = ival x.
Proof.
  intros Hx Hlt.
  destruct (nonneg_cases x Hx) as [->|[->|(m & e & -> & Hv)]]; cbn [ival] in *.
  - apply rndZ_zero. lia.
  - lia.
  - destruct (valid_finite m e Hv) as ([He1 He2] & Hd & Hc & _ & Hm).
    replace (e + 1074) with (e - -1074) by lia.
    rewrite rndZ_scale by lia.
    rewrite rndZ_self by exact Hv. reflexivity.
Qed.

(* ---------- integer literals ---------- *)

Lemma ival_of_Z n :
  0 <= n < 2 ^ 53 -> nonneg (of_Z n) = true /\ ival (of_Z n) = n * 2 ^ 1074.
Proof.
  intros [Hn Hlt]. destruct n as [|p|p]; [split; reflexivity| |lia].
  unfold of_Z, binary_normalize.
  destruct (binary_round_spec p 0) as [Hnn Hv]. cbv zeta in Hv.
  split; [exact Hnn|]. rewrite Hv. clear Hv Hnn.
  pose proof (Zdigits2_pos (Z.pos p) ltac:(lia)) as Hd.
  assert (Hd53 : Zdigits2 (Z.pos p) <= 53) by (apply Zdigits2_lt_pow; lia).
  rewrite Z.add_0_r, fexp_eq.
  replace (Z.min 0 (Z.max (Zdigits2 (Z.pos p) - 53) (-1074)))
    with (Zdigits2 (Z.pos p) - 53) by lia.
  set (d := Zdigits2 (Z.pos p)) in *.
  assert (Hp : 0 < 2 ^ (0 - (d - 53))) by (apply pow2_pos; lia).
  rewrite rndZ_canon.
  - rewrite <- Z.mul_assoc, <- Z.pow_add_r by lia. f_equal. f_equal. lia.
  - nia.
  - rewrite Zdigits2_mul_pow2 by lia. fold d. rewrite fexp_eq. lia.
  - rewrite <- Z.mul_assoc, <- Z.pow_add_r by lia.
    replace (0 - (d - 53) + (d - 53 + 1074)) with 1074 by lia.
    unfold TOP. apply Z.lt_le_incl, (pow2_mul_lt _ 53); lia.
Qed.

(* ---------- multiplication by a positive constant ---------- *)

Lemma ival_mul x m e :
  nonneg x = true -> valid (S754_finite false m e) = true ->
  nonneg (mul x (S754_finite false m e)) = true
  /\ ival (mul x (S754_finite false m e))
     = mulZ (ival x) (ival (S754_finite false m e)).
Proof.
  intros Hx Hc. pose proof TOP_pos as HT.
  destruct (valid_finite m e Hc) as ([He1 He2] & Hd & Hce & Hn & Hm).
  destruct (nonneg_cases x Hx) as [->|[->|(mx & ex & -> & Hv)]].
  - split; [reflexivity|]. unfold mulZ. cbn [ival mul SFmul xorb].
    destruct (Z.eqb_spec 0 TOP) as [E|_]; [lia|].
    rewrite Z.mul_0_l. symmetry. apply rndZ_zero. lia.
  - split; [reflexivity|]. unfold mulZ. cbn [ival mul SFmul xorb].
    now rewrite Z.eqb_refl.
  - destruct (valid_finite mx ex Hv) as ([Hx1 Hx2] & Hdx & Hcx & Hnx & Hmx).
    pose proof (ival_finite mx ex Hv) as Hi.
    unfold mul. cbn [SFmul xorb]. rewrite Pos2Z.inj_mul.
    assert (Hpos : 0 < Z.pos mx * Z.pos m) by lia.
    assert (Hp : ex + e <= fexp prec emax (Zdigits2 (Z.pos mx * Z.pos m) + (ex + e))).
    { rewrite fexp_eq.
      destruct (Z.eq_dec ex (-1074)) as [Ex|Ex];
        [destruct (Z.eq_dec e (-1074)) as [Ee|Ee]; [lia|]|].
      - specialize (Hn ltac:(lia)).
        assert (52 < Zdigits2 (Z.pos mx * Z.pos m))
          by (apply Zdigits2_ge_pow; [nia|lia]). lia.
      - specialize (Hnx ltac:(lia)).
        assert (52 < Zdigits2 (Z.pos mx * Z.pos m))
          by (apply Zdigits2_ge_pow; [nia|lia]). lia. }
    destruct (binary_round_aux_spec (Z.pos mx * Z.pos m) (ex + e) loc_Exact)
      as [Hnn Hval]; [lia|exact Hp|].
    split; [exact Hnn|]. rewrite Hval. unfold mulZ.
    destruct (Z.eqb_spec (ival (S754_finite false mx ex)) TOP) as [E|_]; [lia|].
    cbn [ival loc_code]. rewrite Z.add_0_r.
    rewrite <- (rndZ_scale (-2148) (ex + e)) by (try exact Hp; lia).
    f_equal. f_equal.
    replace (ex + e - -2148) with ((ex + 1074) + (e + 1074)) by lia.
    rewrite Z.pow_add_r by lia. ring.
Qed.

(* ---------- addition ---------- *)

Lemma ival_add x y :
  nonneg x = true -> nonneg y = true ->
  nonneg (add x y) = true /\ ival (add x y) = addZ (ival x) (ival y).
Proof.
  intros Hx Hy. pose proof TOP_pos as HT.
  assert (Hz : forall z, nonneg z = true -> ival z < TOP ->
               addZ 0 (ival z) = ival z /\ addZ (ival z) 0 = ival z).
  { intros z Hz Hlt. unfold addZ.
    destruct (Z.eqb_spec 0 TOP) as [E|_]; [lia|].
    destruct (Z.eqb_spec (ival z) TOP) as [E|_]; [lia|]. cbn [orb].
    rewrite Z.add_0_l, Z.add_0_r. split; now apply rndZ_ival. }
  destruct (nonneg_cases x Hx) as [->|[->|(mx & ex & -> & Hvx)]];
    destruct (nonneg_cases y Hy) as [->|[->|(my & ey & -> & Hvy)]];
    try pose proof (ival_finite mx ex Hvx) as Hix;
    try pose proof (ival_finite my ey Hvy) as Hiy.
  - split; [reflexivity|]. symmetry. apply (Hz (S754_zero false)); [reflexivity|exact HT].
  - split; [reflexivity|]. unfold addZ. cbn [ival]. now rewrite Z.eqb_refl, orb_true_r.
  - split; [exact Hy|]. symmetry. apply (Hz _ Hy). lia.
  - split; [reflexivity|]. unfold addZ. cbn [ival]. now rewrite Z.eqb_refl.
  - split; [reflexivity|]. unfold addZ. cbn [ival]. now rewrite Z.eqb_refl.
  - split; [reflexivity|]. unfold addZ. cbn [ival]. now rewrite Z.eqb_refl.
  - split; [exact Hx|]. symmetry. apply (Hz _ Hx). lia.
  - split; [reflexivity|]. unfold addZ. cbn [ival]. now rewrite Z.eqb_refl, orb_true_r.
  - destruct (valid_finite mx ex Hvx) as ([Hx1 Hx2] & Hdx & Hcx & Hnx & Hmx).
    destruct (valid_finite my ey Hvy) as ([Hy1 Hy2] & Hdy & Hcy & Hny & Hmy).
    unfold add. cbn [SFadd cond_Zopp].
    set (ez := Z.min ex ey).
    destruct (shl_align_spec mx ex ez) as [_ Ha].
    destruct (shl_align_spec my ey ez) as [_ Hb].
    replace (Z.min ex ez) with ez in Ha by lia.
    replace (Z.min ey ez) with ez in Hb by lia.
    set (a := fst (shl_align mx ex ez)) in *.
    set (b := fst (shl_align my ey ez)) in *.
    change (Z.pos a + Z.pos b) with (Z.pos (a + b)).
    cbn [binary_normalize].
    destruct (binary_round_spec (a + b) ez) as [Hnn Hval]. cbv zeta in Hval.
    split; [exact Hnn|]. rewrite Hval. clear Hval Hnn.
    assert (Hpa : 0 < 2 ^ (ex - ez)) by (apply pow2_pos; lia).
    assert (Hpb : 0 < 2 ^ (ey - ez)) by (apply pow2_pos; lia).
    assert (Hmin : Z.min ez (fexp prec emax (Zdigits2 (Z.pos (a + b)) + ez)) = ez).
    { rewrite fexp_eq. destruct (Z.eq_dec ez (-1074)) as [E|E]; [lia|].
      specialize (Hnx ltac:(lia)). specialize (Hny ltac:(lia)).
      assert (52 < Zdigits2 (Z.pos (a + b)))
        by (apply Zdigits2_ge_pow; [rewrite Pos2Z.inj_add; nia|lia]). lia. }
    rewrite Hmin, Z.sub_diag, Z.mul_1_r.
    unfold addZ.
    destruct (Z.eqb_spec (ival (S754_finite false mx ex)) TOP) as [E|_]; [lia|].
    destruct (Z.eqb_spec (ival (S754_finite false my ey)) TOP) as [E|_]; [lia|].
    cbn [orb ival].
    rewrite <- (rndZ_scale (-1074) ez) by lia.
    f_equal. f_equal. rewrite Pos2Z.inj_add, Ha, Hb.
    replace (ex + 1074) with ((ex - ez) + (ez - -1074)) by lia.
    replace (ey + 1074) with ((ey - ez) + (ez - -1074)) by lia.
    rewrite !Z.pow_add_r by lia. ring.
Qed.


(* ---------- division by a positive constant ---------- *)

Lemma sq_mono N N' D : 0 < D -> N <= N' -> sq N D <= sq N' D.
Proof.
  intros HD Hle. unfold sq.
  pose proof (Z.div_le_mono N N' D HD Hle) as Hq.
  pose proof (Z.div_mod N D ltac:(lia)) as E.
  pose proof (Z.div_mod N' D ltac:(lia)) as E'.
  pose proof (Z.mod_pos_bound N D HD). pose proof (Z.mod_pos_bound N' D HD).
  destruct (Z.eq_dec (N / D) (N' / D)) as [Q|Q].
  - rewrite Q in *. destruct (Z.eqb_spec (N mod D) 0), (Z.eqb_spec (N' mod D) 0); lia.
  - destruct (N mod D =? 0), (N' mod D =? 0); lia.
Qed.

Lemma sq_nonneg N D : 0 < D -> 0 <= N -> 0 <= sq N D.
Proof.
  intros HD HN. unfold sq. assert (0 <= N / D) by (apply Z.div_pos; lia).
  destruct (N mod D =? 0); lia.
Qed.

Lemma sq_div4 q r D : 0 < D -> 0 <= r < D -> sq (2 * (D * q + r)) D = 4 * q + guard r D.
Proof.
  intros HD Hr. unfold sq, guard.
  replace (2 * (D * q + r)) with (2 * r + (2 * q) * D) by ring.
  rewrite Z.div_add, Z.mod_add by lia.
  destruct (Z.ltb_spec (2 * r) D) as [Hlt|Hge].
  - rewrite Z.div_small, Z.mod_small by lia.
    destruct (Z.eqb_spec r 0), (Z.eqb_spec (2 * r) 0); lia.
  - assert (Hd : 2 * r / D = 1) by (symmetry; apply (Z.div_unique_pos _ _ _ (2 * r - D)); lia).
    assert (Hm : 2 * r mod D = 2 * r - D)
      by (symmetry; apply (Z.mod_unique_pos _ _ 1); lia).
    rewrite Hd, Hm.
    destruct (Z.eqb_spec r 0), (Z.eqb_spec (2 * r - D) 0), (Z.eqb_spec (2 * r) D); lia.
Qed.

Lemma ss1_sq N D : 0 < D -> 0 <= N -> ss1 (sq (2 * N) D) = sq N D.
Proof.
  intros HD HN.
  pose proof (Z.mod_pos_bound N D HD) as Hr.
  rewrite (Z.div_mod N D ltac:(lia)) at 1. rewrite sq_div4 by lia.
  unfold sq, guard, ss1. set (q := N / D). set (r := N mod D) in *.
  replace ((4 * q + (if r =? 0 then 0 else if 2 * r <? D then 1 else if 2 * r =? D then 2 else 3)) / 2)
    with (2 * q + (if r =? 0 then 0 else if 2 * r <? D then 0 else 1))
    by (destruct (r =? 0), (2 * r <? D), (2 * r =? D); divmod).
  replace ((4 * q + (if r =? 0 then 0 else if 2 * r <? D then 1 else if 2 * r =? D then 2 else 3)) mod 2)
    with (if r =? 0 then 0 else if 2 * r <? D then 1 else if 2 * r =? D then 0 else 1)
    by (destruct (r =? 0), (2 * r <? D), (2 * r =? D); divmod).
  replace ((2 * q + (if r =? 0 then 0 else if 2 * r <? D then 0 else 1)) mod 2)
    with (if r =? 0 then 0 else if 2 * r <? D then 0 else 1)
    by (destruct (r =? 0), (2 * r <? D); divmod).
  destruct (r =? 0), (2 * r <? D), (2 * r =? D); cbn [Z.eqb Pos.eqb andb]; lia.
Qed.

Lemma ss_sq k N D :
  0 < D -> 0 <= N -> ss k (sq (N * 2 ^ Z.of_nat k) D) = sq N D.
Proof.
  intros HD. revert N. induction k as [|k IH]; intros N HN.
  - cbn. now rewrite Z.mul_1_r.
  - replace (S k) with (k + 1)%nat by lia. rewrite ss_add.
    replace (N * 2 ^ Z.of_nat (k + 1)) with (2 * (N * 2 ^ Z.of_nat k))
      by (rewrite Nat2Z.inj_add, Z.pow_add_r by lia; change (2 ^ Z.of_nat 1) with 2; ring).
    change (ss 1 ?w) with (ss1 w).
    assert (0 < 2 ^ Z.of_nat k) by (apply pow2_pos; lia).
    rewrite ss1_sq by nia. now apply IH.
Qed.

Lemma new_location_code D r :
  0 < D -> 0 <= r < D -> loc_code (new_location D r) = guard r D.
Proof.
  intros HD Hr. unfold new_location, new_location_even, new_location_odd, guard.
  assert (HE : Z.even D = true -> D mod 2 = 0)
    by (rewrite Z.even_spec; intros [k ->]; divmod).
  assert (HO : Z.even D = false -> D mod 2 = 1).
  { intros E. rewrite <- Z.negb_odd in E. apply negb_false_iff in E.
    apply Z.odd_spec in E. destruct E as [k ->]. divmod. }
  destruct (Z.even D); [specialize (HE eq_refl); clear HO|specialize (HO eq_refl); clear HE];
    (destruct (Z.eqb_spec r 0) as [->|Hr0]; [reflexivity|]).
  - destruct (Z.compare_spec (2 * r) D);
      cbn [loc_code]; destruct (Z.ltb_spec (2 * r) D), (Z.eqb_spec (2 * r) D); lia.
  - destruct (Z.compare_spec (2 * r + 1) D);
      cbn [loc_code]; destruct (Z.ltb_spec (2 * r) D), (Z.eqb_spec (2 * r) D); divmod.
Qed.

Lemma div_core mx ex m e :
  let e' := Z.min (fexp prec emax (Zdigits2 (Z.pos mx) + ex - (Zdigits2 (Z.pos m) + e)))
                  (ex - e) in
  let N := Z.pos mx * 2 ^ (ex - e - e') in
  SFdiv_core_binary prec emax (Z.pos mx) ex (Z.pos m) e
  = (N / Z.pos m, e', new_location (Z.pos m) (N mod Z.pos m)).
Proof.
  cbv zeta. unfold SFdiv_core_binary. cbv zeta.
  set (e' := Z.min _ _). set (s := ex - e - e').
  assert (Hs : 0 <= s) by (unfold s, e'; lia).
  assert (Hm : match s with
               | 0 => Z.pos mx
               | Z.pos _ => Z.shiftl (Z.pos mx) s
               | Z.neg _ => 0
               end = Z.pos mx * 2 ^ s).
  { destruct s as [|p|p] eqn:E; [cbn; lia| |lia].
    rewrite Z.shiftl_mul_pow2 by lia. reflexivity. }
  rewrite Hm. unfold Z.div, Z.modulo.
  destruct (Z.div_eucl (Z.pos mx * 2 ^ s) (Z.pos m)) as [q r]. reflexivity.
Qed.

Lemma ival_div x m e :
  nonneg x = true -> valid (S754_finite false m e) = true ->
  nonneg (div x (S754_finite false m e)) = true
  /\ ival (div x (S754_finite false m e)) = divZ (ival x) m e.
Proof.
  intros Hx Hc. pose proof TOP_pos as HT.
  destruct (valid_finite m e Hc) as ([He1 He2] & Hd & Hce & Hn & Hm).
  destruct (nonneg_cases x Hx) as [->|[->|(mx & ex & -> & Hv)]].
  - split; [reflexivity|]. unfold divZ. cbn [ival].
    destruct (Z.eqb_spec 0 TOP) as [E|_]; [lia|].
    rewrite Z.mul_0_l. unfold sq. rewrite Z.div_0_l, Z.mod_0_l by lia.
    cbn [Z.eqb Z.mul Z.add]. symmetry. apply rndZ_zero. lia.
  - split; [reflexivity|]. unfold divZ. cbn [ival]. now rewrite Z.eqb_refl.
  - destruct (valid_finite mx ex Hv) as ([Hx1 Hx2] & Hdx & Hcx & Hnx & Hmx).
    pose proof (ival_finite mx ex Hv) as Hi.
    unfold div. cbn [SFdiv xorb]. rewrite div_core.
    set (t := Zdigits2 (Z.pos mx) + ex - (Zdigits2 (Z.pos m) + e)).
    set (e' := Z.min (fexp prec emax t) (ex - e)).
    set (s := ex - e - e').
    set (N := Z.pos mx * 2 ^ s).
    set (D := Z.pos m).
    assert (Hs : 0 <= s) by (unfold s, e'; lia).
    assert (HD : 0 < D) by (unfold D; lia).
    assert (Hps : 0 < 2 ^ s) by (apply pow2_pos; lia).
    assert (HN : 0 < N) by (unfold N; nia).
    assert (Hq : 0 <= N / D) by (apply Z.div_pos; lia).
    pose proof (Z.mod_pos_bound N D HD) as Hr.
    assert (He' : -2200 <= e').
    { unfold e'. rewrite fexp_eq. lia. }
    assert (Hp : e' <= fexp prec emax (Zdigits2 (N / D) + e')).
    { rewrite fexp_eq. destruct (Z_le_gt_dec e' (-1074)) as [Hl|Hg]; [lia|].
      assert (Ht : e' <= t - 53) by (unfold e' in *; rewrite fexp_eq in *; lia).
      pose proof (Zdigits2_bounds (Z.pos mx) ltac:(lia)) as [Hlo _].
      pose proof (Zdigits2_bounds (Z.pos m) ltac:(lia)) as [_ Hhi].
      pose proof (Zdigits2_pos (Z.pos mx) ltac:(lia)) as Hd1.
      pose proof (Zdigits2_pos (Z.pos m) ltac:(lia)) as Hd2.
      assert (Hbig : 2 ^ 52 <= N / D).
      { apply Z.div_le_lower_bound; [lia|].
        assert (H1 : 2 ^ (Zdigits2 D + 52) <= 2 ^ (Zdigits2 (Z.pos mx) - 1 + s))
          by (apply pow2_le; unfold D, s, t in *; lia).
        rewrite !Z.pow_add_r in H1 by (unfold D; lia).
        assert (0 < 2 ^ 52) by (apply pow2_pos; lia).
        unfold N, D in *. nia. }
      assert (52 < Zdigits2 (N / D)) by (apply Zdigits2_ge_pow; lia). lia. }
    destruct (binary_round_aux_spec (N / D) e' (new_location D (N mod D)) Hq Hp)
      as [Hnn Hval].
    split; [exact Hnn|]. rewrite Hval. clear Hval Hnn.
    rewrite new_location_code by lia.
    rewrite <- sq_div4 by lia. rewrite <- Z.div_mod by lia.
    unfold divZ.
    destruct (Z.eqb_spec (ival (S754_finite false mx ex)) TOP) as [E|_]; [lia|].
    cbn [ival]. fold D.
    pose proof (rndZ_coarsen (-2200) (Z.to_nat (e' + 2200))
                  (sq (2 * N * 2 ^ Z.of_nat (Z.to_nat (e' + 2200))) D)) as Hco.
    cbv zeta in Hco. rewrite ss_sq in Hco by lia.
    rewrite Z2Nat.id in Hco by lia.
    replace (-2200 + (e' + 2200)) with e' in Hco by lia.
    assert (Hq4 : sq (2 * N) D / 4 = N / D).
    { rewrite (Z.div_mod N D) at 1 by lia. rewrite sq_div4 by lia.
      unfold guard. destruct (N mod D =? 0), (2 * (N mod D) <? D), (2 * (N mod D) =? D);
        divmod. }
    rewrite Hq4 in Hco. rewrite <- Hco.
    + f_equal. f_equal. unfold N, s.
      rewrite <- !Z.mul_assoc, <- !Z.pow_add_r by lia.
      replace (2 * (Z.pos mx * 2 ^ (ex - e - e' + (e' + 2200))))
        with (Z.pos mx * 2 ^ (1 + (ex - e - e' + (e' + 2200))))
        by (rewrite (Z.pow_add_r 2 1) by lia; change (2 ^ 1) with 2; ring).
      f_equal. f_equal. lia.
    + apply sq_nonneg; [lia|].
      assert (0 < 2 ^ (e' + 2200)) by (apply pow2_pos; lia). nia.
    + exact Hp.
Qed.

(* ---------- Math.round ---------- *)

Lemma roundZ_zero : roundZ 0 = 0.
Proof.
  unfold roundZ. destruct (Z.ltb_spec 0 (2 ^ 1126)) as [_|H].
  - rewrite Z.add_0_l, Z.div_small; [reflexivity|].
    split; [apply Z.lt_le_incl, pow2_pos; lia|apply Z.pow_lt_mono_r; lia].
  - destruct (Zle_not_lt _ _ H (pow2_pos 1126 ltac:(lia))).
Qed.

Lemma roundZ_big a : 2 ^ 1126 <= a -> roundZ a = a.
Proof.
  intros H. unfold roundZ. destruct (Z.ltb_spec a (2 ^ 1126)) as [H'|_]; [|reflexivity].
  destruct (Zle_not_lt _ _ H H').
Qed.

Lemma roundZ_small a : a < 2 ^ 1126 -> roundZ a = (a + 2 ^ 1073) / 2 ^ 1074 * 2 ^ 1074.
Proof.
  intros H. unfold roundZ. destruct (Z.ltb_spec a (2 ^ 1126)) as [_|H']; [reflexivity|].
  destruct (Zle_not_lt _ _ H' H).
Qed.

(* rounding half up the quotient of [m] by [2^k] *)
Lemma half_up_bounds m k :
  0 < m < 2 ^ 53 -> 1 <= k -> 0 <= (m + 2 ^ (k - 1)) / 2 ^ k < 2 ^ 53.
Proof.
  intros Hm Hk.
  assert (HQ : 0 < 2 ^ (k - 1)) by (apply pow2_pos; lia).
  assert (E : 2 ^ k = 2 * 2 ^ (k - 1)).
  { replace k with (1 + (k - 1)) at 1 by lia. now rewrite Z.pow_add_r by lia. }
  split.
  - apply Z.div_pos; lia.
  - apply Z.div_lt_upper_bound; [lia|]. rewrite E. nia.
Qed.

Lemma ival_Math_round x :
  nonneg x = true ->
  nonneg (Math_round x) = true /\ ival (Math_round x) = roundZ (ival x).
Proof.
  intros Hx.
  destruct (nonneg_cases x Hx) as [->|[->|(m & e & -> & Hv)]].
  - split; [reflexivity|]. cbn [Math_round ival]. now rewrite roundZ_zero.
  - split; [reflexivity|]. cbn [Math_round ival]. rewrite roundZ_big; [reflexivity|].
    unfold TOP. apply pow2_le. lia.
  - destruct (valid_finite m e Hv) as ([He1 He2] & Hd & Hc & Hn & Hm).
    unfold Math_round. cbn [ival].
    destruct (Z.leb_spec 0 e) as [Hpos|Hneg].
    + split; [exact Hx|]. specialize (Hn ltac:(lia)).
      rewrite roundZ_big; [reflexivity|]. apply (pow2_mul_ge _ 52); lia.
    + set (j := e + 1074). set (k := - e).
      assert (Hj : 0 <= j) by (unfold j; lia).
      assert (Hk : 1 <= k) by (unfold k; lia).
      assert (H2j : 0 < 2 ^ j) by (apply pow2_pos; lia).
      assert (H2k : 0 < 2 ^ k) by (apply pow2_pos; lia).
      rewrite roundZ_small by (apply (pow2_mul_lt _ 53); unfold j; lia).
      assert (E73 : 2 ^ 1073 = 2 ^ (k - 1) * 2 ^ j)
        by (rewrite <- Z.pow_add_r by lia; f_equal; unfold k, j; lia).
      assert (E74 : 2 ^ 1074 = 2 ^ k * 2 ^ j)
        by (rewrite <- Z.pow_add_r by lia; f_equal; unfold k, j; lia).
      assert (Ek : 2 ^ k = 2 * 2 ^ (k - 1)).
      { replace k with (1 + (k - 1)) at 1 by lia. now rewrite Z.pow_add_r by lia. }
      assert (Hn' : round_half_up false m e = (Z.pos m + 2 ^ (k - 1)) / 2 ^ k).
      { unfold round_half_up. cbn [cond_Zopp]. fold k.
        rewrite Z.shiftr_div_pow2, Z.shiftl_mul_pow2, Z.mul_1_l by lia.
        replace (1 - e) with (1 + k) by (unfold k; lia).
        rewrite Z.pow_add_r by lia. change (2 ^ 1) with 2.
        rewrite <- (Z.div_mul_cancel_l (Z.pos m + 2 ^ (k - 1)) (2 ^ k) 2) by lia.
        f_equal. rewrite Ek. ring. }
      assert (Hq : (Z.pos m * 2 ^ j + 2 ^ 1073) / 2 ^ 1074
                   = (Z.pos m + 2 ^ (k - 1)) / 2 ^ k).
      { rewrite E73, E74, <- Z.mul_add_distr_r. apply Z.div_mul_cancel_r; lia. }
      rewrite Hq, Hn'.
      pose proof (half_up_bounds (Z.pos m) k ltac:(lia) Hk) as Hb.
      destruct ((Z.pos m + 2 ^ (k - 1)) / 2 ^ k) as [|p|p] eqn:E.
      * split; reflexivity.
      * apply ival_of_Z. lia.
      * lia.
Qed.


Lemma posfin_inv c :
  posfin c = true -> exists m e, c = S754_finite false m e /\ valid c = true.
Proof. destruct c as [| | |[] m e]; try discriminate. intros H. now exists m, e. Qed.

Lemma posfin_nonneg c : posfin c = true -> nonneg c = true.
Proof.
  intros H. destruct (posfin_inv c H) as (m & e & -> & Hv).
  unfold nonneg. now rewrite Hv.
Qed.

(* ---------- monotonicity of the value functions ---------- *)

Lemma mulZ_mono a a' c :
  0 <= a <= a' -> a' <= TOP -> 0 <= c -> mulZ a c <= mulZ a' c.
Proof.
  intros [Ha Hle] Ht Hc. unfold mulZ.
  destruct (Z.eqb_spec a' TOP) as [->|Hn'].
  - destruct (a =? TOP); [lia|apply rndZ_le_TOP].
  - destruct (Z.eqb_spec a TOP) as [->|Hn]; [lia|].
    apply rndZ_mono; [lia|]. nia.
Qed.

Lemma addZ_mono a a' b b' :
  0 <= a <= a' -> a' <= TOP -> 0 <= b <= b' -> b' <= TOP ->
  addZ a b <= addZ a' b'.
Proof.
  intros [Ha Hle] Ht [Hb Hle'] Ht'. unfold addZ.
  destruct (Z.eqb_spec a' TOP) as [->|Hn']; cbn [orb].
  - destruct ((a =? TOP) || (b =? TOP)); [lia|apply rndZ_le_TOP].
  - destruct (Z.eqb_spec b' TOP) as [->|Hm'].
    + destruct ((a =? TOP) || (b =? TOP)); [lia|apply rndZ_le_TOP].
    + destruct (Z.eqb_spec a TOP) as [->|Hn]; [lia|].
      destruct (Z.eqb_spec b TOP) as [->|Hm]; [lia|]. cbn [orb].
      apply rndZ_mono; lia.
Qed.

Lemma divZ_mono a a' m e :
  0 <= a <= a' -> a' <= TOP -> e <= 1127 -> divZ a m e <= divZ a' m e.
Proof.
  intros [Ha Hle] Ht He. unfold divZ.
  assert (Hp : 0 < 2 ^ (1127 - e)) by (apply pow2_pos; lia).
  destruct (Z.eqb_spec a' TOP) as [->|Hn'].
  - destruct (a =? TOP); [lia|apply rndZ_le_TOP].
  - destruct (Z.eqb_spec a TOP) as [->|Hn]; [lia|].
    apply rndZ_mono; [lia|]. split.
    + apply sq_nonneg; [lia|nia].
    + apply sq_mono; [lia|nia].
Qed.

Lemma roundZ_mono a a' : 0 <= a <= a' -> roundZ a <= roundZ a'.
Proof.
  intros [Ha Hle].
  assert (HP : 0 < 2 ^ 1073) by (apply pow2_pos; lia).
  assert (E1 : 2 ^ 1074 = 2 * 2 ^ 1073)
    by (change 1074 with (1 + 1073); now rewrite Z.pow_add_r by lia).
  assert (E2 : 2 ^ 1126 = 2 ^ 53 * 2 ^ 1073)
    by (change 1126 with (53 + 1073); now rewrite Z.pow_add_r by lia).
  destruct (Z_lt_ge_dec a (2 ^ 1126)) as [Hs|Hb];
    destruct (Z_lt_ge_dec a' (2 ^ 1126)) as [Hs'|Hb'].
  - rewrite !roundZ_small by assumption. rewrite E1.
    set (P := 2 ^ 1073) in *. clearbody P.
    apply Z.mul_le_mono_nonneg_r; [lia|]. apply Z.div_le_mono; lia.
  - rewrite roundZ_small by assumption. rewrite roundZ_big by lia.
    rewrite E1. rewrite E2 in Hs, Hb'.
    set (P := 2 ^ 1073) in *. clearbody P.
    assert (Hq : (a + P) / (2 * P) < 2 ^ 52 + 1)
      by (apply Z.div_lt_upper_bound; lia).
    transitivity (2 ^ 52 * (2 * P)); [|lia].
    apply Z.mul_le_mono_nonneg_r; lia.
  - exfalso. set (Q := 2 ^ 1126) in *. clearbody Q. lia.
  - rewrite !roundZ_big by lia. exact Hle.
Qed.

(* ---------- the order on non-negative numbers ---------- *)

Lemma rel_le x y : rel x y -> le x y = true.
Proof. intros (Hx & Hy & H). now apply le_ival. Qed.

Lemma le_rel x y : nonneg x = true -> nonneg y = true -> le x y = true -> rel x y.
Proof. intros Hx Hy H. repeat split; try assumption. now apply le_ival. Qed.

Lemma rel_refl x : nonneg x = true -> rel x x.
Proof. intros H. repeat split; try assumption. lia. Qed.

Lemma rel_trans x y z : rel x y -> rel y z -> rel x z.
Proof. intros (? & ? & ?) (? & ? & ?). repeat split; try assumption. lia. Qed.

Lemma rel_mul x y c : posfin c = true -> rel x y -> rel (mul x c) (mul y c).
Proof.
  intros Hc (Hx & Hy & H). destruct (posfin_inv c Hc) as (m & e & -> & Hv).
  destruct (ival_mul x m e Hx Hv) as [Nx Ex].
  destruct (ival_mul y m e Hy Hv) as [Ny Ey].
  repeat split; try assumption. rewrite Ex, Ey.
  pose proof (ival_range x Hx). pose proof (ival_range y Hy).
  pose proof (ival_finite m e Hv).
  apply mulZ_mono; lia.
Qed.

Lemma rel_div x y c : posfin c = true -> rel x y -> rel (div x c) (div y c).
Proof.
  intros Hc (Hx & Hy & H). destruct (posfin_inv c Hc) as (m & e & -> & Hv).
  destruct (ival_div x m e Hx Hv) as [Nx Ex].
  destruct (ival_div y m e Hy Hv) as [Ny Ey].
  repeat split; try assumption. rewrite Ex, Ey.
  pose proof (ival_range x Hx). pose proof (ival_range y Hy).
  destruct (valid_finite m e Hv) as ([He1 He2] & _).
  apply divZ_mono; lia.
Qed.

Lemma rel_add x y u v : rel x y -> rel u v -> rel (add x u) (add y v).
Proof.
  intros (Hx & Hy & H) (Hu & Hv & H').
  destruct (ival_add x u Hx Hu) as [N1 E1].
  destruct (ival_add y v Hy Hv) as [N2 E2].
  repeat split; try assumption. rewrite E1, E2.
  pose proof (ival_range x Hx). pose proof (ival_range y Hy).
  pose proof (ival_range u Hu). pose proof (ival_range v Hv).
  apply addZ_mono; lia.
Qed.

Lemma rel_Math_round x y : rel x y -> rel (Math_round x) (Math_round y).
Proof.
  intros (Hx & Hy & H).
  destruct (ival_Math_round x Hx) as [N1 E1].
  destruct (ival_Math_round y Hy) as [N2 E2].
  repeat split; try assumption. rewrite E1, E2.
  pose proof (ival_range x Hx). apply roundZ_mono; lia.
Qed.

Lemma add_zero_r x : nonneg x = true -> add x (S754_zero false) = x.
Proof.
  intros Hx. destruct (nonneg_cases x Hx) as [->|[->|(m & e & -> & Hv)]]; reflexivity.
Qed.

Lemma rel_add_r x d : nonneg x = true -> nonneg d = true -> rel x (add x d).
Proof.
  intros Hx Hd. rewrite <- (add_zero_r x Hx) at 1.
  apply rel_add; [now apply rel_refl|].
  repeat split; try assumption. cbn [ival]. now apply ival_range.
Qed.


(* ---------- doubling ---------- *)

Lemma dbl_mono a b : a <= b -> dbl a <= dbl b.
Proof. unfold dbl. lia. Qed.

Lemma dbl_le_TOP a : dbl a <= TOP.
Proof. unfold dbl. lia. Qed.

(* a rounding with a subnormal scale is at most 2^52 *)
Lemma rndZ_subnormal e0 f :
  e0 <= -1074 -> 0 <= f -> Zdigits2 (f / 4) + e0 - 53 < -1074 ->
  rndZ e0 f <= 2 ^ 52.
Proof.
  intros He0 Hf Hsub. unfold rndZ. cbv zeta. rewrite fexp_eq.
  replace (Z.max (Zdigits2 (f / 4) + e0 - 53) (-1074)) with (-1074) by lia.
  change (-1074 + 1074) with 0. rewrite Z.mul_1_r.
  etransitivity; [apply Z.le_min_r|]. apply rne4_lt.
  set (k := -1074 - e0). assert (Hk : 0 <= k) by (unfold k; lia).
  assert (Hf4 : 0 <= f / 4) by (apply Z.div_pos; lia).
  assert (H4 : ss (Z.to_nat k) f / 4 < 2 ^ 52).
  { rewrite ss_div4, Z2Nat.id by lia.
    apply Z.div_lt_upper_bound; [now apply pow2_pos|].
    rewrite <- Z.pow_add_r by lia.
    destruct (Z.eq_dec (f / 4) 0) as [->|]; [apply pow2_pos; lia|].
    pose proof (Zdigits2_bounds (f / 4) ltac:(lia)) as [_ Hhi].
    pose proof (Zdigits2_pos (f / 4) ltac:(lia)).
    pose proof (pow2_le (Zdigits2 (f / 4)) (k + 52) ltac:(unfold k; lia)).
    lia. }
  revert H4. generalize (ss (Z.to_nat k) f). intros w.
  change (2 ^ 52) with 4503599627370496. divmod.
Qed.

(* one more guard bit below a normal rounding doubles the result *)
Lemma rndZ_up e0 F :
  e0 <= -1074 -> 0 <= F -> 2 ^ 52 < rndZ e0 (ss1 F) ->
  rndZ e0 F = dbl (rndZ e0 (ss1 F)).
Proof.
  intros He0 HF Hbig.
  pose proof (ss1_nonneg F HF) as Hf.
  set (f := ss1 F) in *.
  assert (Hn : -1074 <= Zdigits2 (f / 4) + e0 - 53).
  { destruct (Z_lt_ge_dec (Zdigits2 (f / 4) + e0 - 53) (-1074)) as [Hs|]; [|lia].
    pose proof (rndZ_subnormal e0 f He0 Hf Hs). lia. }
  assert (Hq : f / 4 = F / 4 / 2) by apply ss1_div4.
  pose proof (Zdigits2_nonneg (f / 4)) as Hd0.
  assert (Hpos : 0 < f / 4).
  { assert (0 <= f / 4) by (apply Z.div_pos; lia).
    destruct (Z.eq_dec (f / 4) 0) as [E|]; [|lia]. rewrite E in Hn. cbn in Hn. lia. }
  assert (HF4 : 2 <= F / 4) by (rewrite Hq in Hpos; divmod).
  assert (HD : Zdigits2 (F / 4) = Zdigits2 (f / 4) + 1).
  { rewrite Hq. change (F / 4 / 2) with (F / 4 / 2 ^ 1).
    rewrite Zdigits2_div_pow2 by (change (2 ^ 1) with 2; lia). lia. }
  unfold rndZ, dbl. cbv zeta. rewrite HD, !fexp_eq.
  replace (Z.max (Zdigits2 (f / 4) + 1 + e0 - 53) (-1074))
    with (Zdigits2 (f / 4) + e0 - 53 + 1) by lia.
  replace (Z.max (Zdigits2 (f / 4) + e0 - 53) (-1074))
    with (Zdigits2 (f / 4) + e0 - 53) by lia.
  set (e1 := Zdigits2 (f / 4) + e0 - 53) in *.
  replace (Z.to_nat (e1 + 1 - e0)) with (Z.to_nat (e1 - e0) + 1)%nat by lia.
  rewrite ss_add. change (ss 1 F) with f.
  set (M := rne4 (ss (Z.to_nat (e1 - e0)) f)).
  assert (HM : 0 <= M).
  { pose proof (ss_nonneg (Z.to_nat (e1 - e0)) f Hf).
    pose proof (rne4_bounds (ss (Z.to_nat (e1 - e0)) f)) as [Hb _].
    assert (0 <= ss (Z.to_nat (e1 - e0)) f / 4) by (apply Z.div_pos; lia).
    unfold M. lia. }
  replace (e1 + 1 + 1074) with (1 + (e1 + 1074)) by lia.
  rewrite Z.pow_add_r by lia. change (2 ^ 1) with 2.
  assert (0 < 2 ^ (e1 + 1074)) by (apply pow2_pos; lia).
  pose proof TOP_pos. nia.
Qed.

Lemma mulZ_dbl a c :
  0 <= a -> 0 <= c -> 2 ^ 52 < mulZ a c -> dbl (mulZ a c) <= mulZ (dbl a) c.
Proof.
  intros Ha Hc Hbig. pose proof TOP_pos as HT. unfold mulZ in *.
  destruct (Z.eqb_spec (dbl a) TOP) as [E|E]; [apply dbl_le_TOP|].
  assert (Hd : dbl a = 2 * a) by (unfold dbl in *; lia).
  assert (Hn : a <> TOP) by (intros ->; apply E, Z.min_l; lia).
  destruct (Z.eqb_spec a TOP) as [|_]; [contradiction|].
  assert (0 <= a * c) by (apply Z.mul_nonneg_nonneg; lia).
  rewrite Hd. replace (4 * (2 * a * c)) with (2 * (4 * (a * c))) by ring.
  rewrite (rndZ_up (-2148) (2 * (4 * (a * c)))); rewrite ?ss1_double; lia.
Qed.

Lemma divZ_dbl a m e :
  0 <= a -> e <= 1127 -> 2 ^ 52 < divZ a m e -> dbl (divZ a m e) <= divZ (dbl a) m e.
Proof.
  intros Ha He Hbig. pose proof TOP_pos as HT. unfold divZ in *.
  destruct (Z.eqb_spec (dbl a) TOP) as [E|E]; [apply dbl_le_TOP|].
  assert (Hd : dbl a = 2 * a) by (unfold dbl in *; lia).
  assert (Hn : a <> TOP) by (intros ->; apply E, Z.min_l; lia).
  destruct (Z.eqb_spec a TOP) as [|_]; [contradiction|].
  assert (Hp : 0 < 2 ^ (1127 - e)) by (apply pow2_pos; lia).
  assert (HN : 0 <= a * 2 ^ (1127 - e)) by (apply Z.mul_nonneg_nonneg; lia).
  rewrite Hd. replace (2 * a * 2 ^ (1127 - e)) with (2 * (a * 2 ^ (1127 - e))) by ring.
  rewrite (rndZ_up (-2200) (sq (2 * (a * 2 ^ (1127 - e))) (Z.pos m)));
    rewrite ?ss1_sq; try lia.
  apply sq_nonneg; lia.
Qed.

Lemma addZ_dbl a b :
  0 <= a -> 0 <= b -> 2 ^ 52 < addZ a b ->
  dbl (addZ a b) <= addZ (dbl a) (dbl b).
Proof.
  intros Ha Hb Hbig. pose proof TOP_pos as HT. unfold addZ in *.
  destruct (Z.eqb_spec (dbl a) TOP) as [E|E]; [apply dbl_le_TOP|].
  destruct (Z.eqb_spec (dbl b) TOP) as [E'|E']; [apply dbl_le_TOP|]. cbn [orb].
  assert (Hd : dbl a = 2 * a) by (unfold dbl in *; lia).
  assert (Hd' : dbl b = 2 * b) by (unfold dbl in *; lia).
  assert (Hn : a <> TOP) by (intros ->; apply E, Z.min_l; lia).
  destruct (Z.eqb_spec a TOP) as [|_]; [contradiction|].
  assert (Hn' : b <> TOP) by (intros ->; apply E', Z.min_l; lia).
  destruct (Z.eqb_spec b TOP) as [|_]; [contradiction|].
  cbn [orb] in *.
  rewrite Hd, Hd'. replace (4 * (2 * a + 2 * b)) with (2 * (4 * (a + b))) by ring.
  rewrite (rndZ_up (-1074) (2 * (4 * (a + b)))); rewrite ?ss1_double; lia.
Qed.

Lemma roundZ_dbl a : 2 ^ 1126 <= a -> dbl (roundZ a) <= roundZ (dbl a).
Proof.
  intros Ha.
  assert (HT : 2 ^ 1126 <= TOP) by (apply pow2_le; lia).
  assert (HQ : 0 < 2 ^ 1126) by (apply pow2_pos; lia).
  assert (Hd : 2 ^ 1126 <= dbl a)
    by (set (Q := 2 ^ 1126) in *; clearbody Q; unfold dbl; lia).
  rewrite (roundZ_big a Ha), (roundZ_big _ Hd). lia.
Qed.

Lemma dd_mul x y c :
  posfin c = true -> dd x y -> 2 ^ 52 < ival (mul x c) -> dd (mul x c) (mul y c).
Proof.
  intros Hc (Hx & Hy & H) Hbig. destruct (posfin_inv c Hc) as (m & e & -> & Hv).
  destruct (ival_mul x m e Hx Hv) as [Nx Ex].
  destruct (ival_mul y m e Hy Hv) as [Ny Ey].
  repeat split; try assumption. rewrite Ex, Ey in *.
  pose proof (ival_range x Hx). pose proof (ival_range y Hy).
  pose proof (ival_finite m e Hv). pose proof TOP_pos.
  etransitivity; [apply mulZ_dbl; lia|].
  apply mulZ_mono; unfold dbl in *; lia.
Qed.

Lemma dd_div x y c :
  posfin c = true -> dd x y -> 2 ^ 52 < ival (div x c) -> dd (div x c) (div y c).
Proof.
  intros Hc (Hx & Hy & H) Hbig. destruct (posfin_inv c Hc) as (m & e & -> & Hv).
  destruct (ival_div x m e Hx Hv) as [Nx Ex].
  destruct (ival_div y m e Hy Hv) as [Ny Ey].
  repeat split; try assumption. rewrite Ex, Ey in *.
  pose proof (ival_range x Hx). pose proof (ival_range y Hy).
  destruct (valid_finite m e Hv) as ([He1 He2] & _). pose proof TOP_pos.
  etransitivity; [apply divZ_dbl; lia|].
  apply divZ_mono; unfold dbl in *; lia.
Qed.

Lemma dd_add x y u v :
  dd x y -> dd u v -> 2 ^ 52 < ival (add x u) -> dd (add x u) (add y v).
Proof.
  intros (Hx & Hy & H) (Hu & Hv & H') Hbig.
  destruct (ival_add x u Hx Hu) as [N1 E1].
  destruct (ival_add y v Hy Hv) as [N2 E2].
  repeat split; try assumption. rewrite E1, E2 in *.
  pose proof (ival_range x Hx). pose proof (ival_range y Hy).
  pose proof (ival_range u Hu). pose proof (ival_range v Hv). pose proof TOP_pos.
  etransitivity; [apply addZ_dbl; lia|].
  apply addZ_mono; unfold dbl in *; lia.
Qed.

Lemma dd_Math_round x y :
  dd x y -> 2 ^ 1126 <= ival x -> dd (Math_round x) (Math_round y).
Proof.
  intros (Hx & Hy & H) Hbig.
  destruct (ival_Math_round x Hx) as [N1 E1].
  destruct (ival_Math_round y Hy) as [N2 E2].
  repeat split; try assumption. rewrite E1, E2.
  pose proof (ival_range x Hx). pose proof TOP_pos.
  etransitivity; [apply roundZ_dbl; exact Hbig|]. clear Hbig.
  apply roundZ_mono; unfold dbl in *; lia.
Qed.


(* ---------- subtraction of a smaller number ---------- *)

Lemma ival_zero x : nonneg x = true -> ival x = 0 -> x = S754_zero false.
Proof. intros Hx E. now apply ival_inj. Qed.

Lemma ival_sub x y :
  nonneg x = true -> nonneg y = true -> ival y <= ival x -> ival y < TOP ->
  nonneg (sub x y) = true /\ ival (sub x y) = subZ (ival x) (ival y).
Proof.
  intros Hx Hy Hle Hfin. pose proof TOP_pos as HT.
  pose proof (ival_range y Hy) as Hy0.
  destruct (nonneg_cases x Hx) as [->|[->|(mx & ex & -> & Hvx)]].
  - cbn [ival] in Hle. rewrite (ival_zero y Hy) by lia.
    split; [reflexivity|]. unfold subZ. cbn [ival].
    destruct (Z.eqb_spec 0 TOP); [lia|]. symmetry. apply rndZ_zero. lia.
  - unfold subZ. cbn [ival]. rewrite Z.eqb_refl.
    destruct (nonneg_cases y Hy) as [->|[->|(my & ey & -> & Hvy)]];
      [split; reflexivity|cbn [ival] in Hfin; lia|split; reflexivity].
  - pose proof (ival_finite mx ex Hvx) as Hix.
    unfold subZ. destruct (Z.eqb_spec (ival (S754_finite false mx ex)) TOP) as [E|_]; [lia|].
    destruct (nonneg_cases y Hy) as [->|[->|(my & ey & -> & Hvy)]].
    + split; [exact Hx|]. cbn [ival sub SFsub]. rewrite Z.sub_0_r.
      symmetry. apply (rndZ_ival (S754_finite false mx ex) Hx). lia.
    + cbn [ival] in Hfin. lia.
    + destruct (valid_finite mx ex Hvx) as ([Hx1 Hx2] & _).
      destruct (valid_finite my ey Hvy) as ([Hy1 Hy2] & _).
      unfold sub. cbn [SFsub cond_Zopp].
      set (ez := Z.min ex ey).
      destruct (shl_align_spec mx ex ez) as [_ Ha].
      destruct (shl_align_spec my ey ez) as [_ Hb].
      replace (Z.min ex ez) with ez in Ha by lia.
      replace (Z.min ey ez) with ez in Hb by lia.
      set (a := fst (shl_align mx ex ez)) in *.
      set (b := fst (shl_align my ey ez)) in *.
      assert (Hpz : 0 < 2 ^ (ez + 1074)) by (apply pow2_pos; lia).
      assert (Ea : ival (S754_finite false mx ex) = Z.pos a * 2 ^ (ez + 1074)).
      { cbn [ival]. rewrite Ha, <- Z.mul_assoc, <- Z.pow_add_r by lia.
        f_equal. f_equal. lia. }
      assert (Eb : ival (S754_finite false my ey) = Z.pos b * 2 ^ (ez + 1074)).
      { cbn [ival]. rewrite Hb, <- Z.mul_assoc, <- Z.pow_add_r by lia.
        f_equal. f_equal. lia. }
      rewrite Ea, Eb in *. rewrite <- Z.mul_sub_distr_r.
      destruct (Z.pos a - Z.pos b) as [|p|p] eqn:E.
      * split; [reflexivity|]. cbn [binary_normalize ival]. rewrite Z.mul_0_l.
        symmetry. apply rndZ_zero. lia.
      * cbn [binary_normalize].
        destruct (binary_round_spec p ez) as [Hnn Hval]. cbv zeta in Hval.
        split; [exact Hnn|]. rewrite Hval. clear Hval Hnn.
        set (e' := Z.min ez (fexp prec emax (Zdigits2 (Z.pos p) + ez))).
        assert (He' : -1074 <= e' <= ez) by (unfold e'; rewrite fexp_eq; lia).
        assert (Hk : 0 < 2 ^ (ez - e')) by (apply pow2_pos; lia).
        rewrite <- (rndZ_scale (-1074) e').
        -- f_equal. f_equal. rewrite <- Z.mul_assoc, <- Z.pow_add_r by lia.
           f_equal. f_equal. lia.
        -- nia.
        -- lia.
        -- rewrite Zdigits2_mul_pow2 by lia.
           replace (Zdigits2 (Z.pos p) + (ez - e') + e') with (Zdigits2 (Z.pos p) + ez) by lia.
           unfold e'. lia.
      * exfalso. nia.
Qed.

Lemma sub_bounds x y :
  nonneg x = true -> nonneg y = true -> ival y <= ival x -> ival y < TOP ->
  rel (sub x y) x.
Proof.
  intros Hx Hy Hle Hfin. destruct (ival_sub x y Hx Hy Hle Hfin) as [Hn Hv].
  repeat split; try assumption. rewrite Hv. unfold subZ.
  pose proof (ival_range x Hx). pose proof (ival_range y Hy).
  destruct (Z.eqb_spec (ival x) TOP) as [E|E]; [lia|].
  rewrite <- (rndZ_ival x Hx) at 2 by lia.
  apply rndZ_mono; lia.
Qed.

(* ---------- the sign of zero ---------- *)

Lemma SFcompare_plus x y : SFcompare (plus x) (plus y) = SFcompare x y.
Proof. destruct x as [[]|[]| |[] ? ?], y as [[]|[]| |[] ? ?]; reflexivity. Qed.

Lemma le_plus x y : le (plus x) (plus y) = le x y.
Proof. unfold le, SFleb. now rewrite SFcompare_plus. Qed.

Lemma nonneg_plus x :
  valid x = true -> le (of_Z 0) x = true -> nonneg (plus x) = true.
Proof.
  intros Hv Hle. destruct x as [[]|[]| |[] m e]; try discriminate; try reflexivity.
  unfold nonneg. cbn [plus]. now rewrite Hv.
Qed.

Lemma nonneg_le_zero x : nonneg x = true -> valid x = true /\ le (of_Z 0) x = true.
Proof.
  intros Hx. destruct (nonneg_cases x Hx) as [->|[->|(m & e & -> & Hv)]];
    split; try reflexivity. exact Hv.
Qed.

Lemma plus_nonneg x : nonneg x = true -> plus x = x.
Proof.
  intros Hx. destruct (nonneg_cases x Hx) as [->|[->|(m & e & -> & Hv)]]; reflexivity.
Qed.

Lemma posfin_of_Z n : 0 < n < 2 ^ 53 -> posfin (of_Z n) = true.
Proof.
  intros Hn. destruct (ival_of_Z n ltac:(lia)) as [Hnn Hv].
  assert (HP : 0 < 2 ^ 1074) by (apply pow2_pos; lia).
  assert (HT : n * 2 ^ 1074 < TOP) by (unfold TOP; apply (pow2_mul_lt _ 53); lia).
  assert (H0 : 0 < n * 2 ^ 1074) by (apply Z.mul_pos_pos; lia).
  destruct (nonneg_cases _ Hnn) as [E|[E|(m & e & E & Hval)]]; rewrite E in *.
  - cbn [ival] in Hv. rewrite <- Hv in H0. destruct (Z.lt_irrefl _ H0).
  - cbn [ival] in Hv. rewrite <- Hv in HT. destruct (Z.lt_irrefl _ HT).
  - exact Hval.
Qed.

Lemma rel_of_Z n k : 0 <= n <= k -> k < 2 ^ 53 -> rel (of_Z n) (of_Z k).
Proof.
  intros Hn Hk. destruct (ival_of_Z n ltac:(lia)) as [N1 E1].
  destruct (ival_of_Z k ltac:(lia)) as [N2 E2].
  repeat split; try assumption. rewrite E1, E2.
  apply Z.mul_le_mono_nonneg_r; [apply Z.lt_le_incl, pow2_pos|]; lia.
Qed.


(* ---------- the error of one rounding ---------- *)

(* the rounding of a code in the normal range is within one part in
   2^52 of the code *)
Lemma rndZ_bracket e0 f :
  e0 <= -1074 -> 0 <= f -> -1074 <= Zdigits2 (f / 4) + e0 - 53 ->
  2 ^ 52 * (rndZ e0 f * 2 ^ (- e0 - 1074)) <= (2 ^ 52 + 1) * (f / 4)
  /\ (rndZ e0 f < TOP ->
      (2 ^ 52 - 1) * (f / 4) <= 2 ^ 52 * (rndZ e0 f * 2 ^ (- e0 - 1074))).
Proof.
  intros He0 Hf Hn. unfold rndZ. cbv zeta. rewrite fexp_eq.
  set (q := f / 4) in *. set (d := Zdigits2 q) in *.
  replace (Z.max (d + e0 - 53) (-1074)) with (d + e0 - 53) by zlia.
  set (k := d - 53). assert (Hk : 0 <= k) by (unfold k; zlia).
  replace (d + e0 - 53 - e0) with k by (unfold k; zlia).
  replace (d + e0 - 53 + 1074) with (k + (e0 + 1074)) by (unfold k; zlia).
  set (M := rne4 (ss (Z.to_nat k) f)).
  assert (Hq : 0 < q).
  { assert (0 <= q) by (apply Z.div_pos; zlia).
    destruct (Z.eq_dec q 0) as [E|]; [|zlia].
    unfold d in *. rewrite E in *. cbn [Zdigits2] in *. zlia. }
  pose proof (Zdigits2_bounds q Hq) as [Hlo _]. fold d in Hlo.
  replace (d - 1) with (52 + k) in Hlo by (unfold k; zlia).
  rewrite Z.pow_add_r in Hlo by zlia.
  assert (HK : 0 < 2 ^ k) by (apply pow2_pos; zlia).
  assert (HM : q / 2 ^ k <= M <= q / 2 ^ k + 1).
  { pose proof (rne4_bounds (ss (Z.to_nat k) f)) as HB.
    rewrite ss_div4, Z2Nat.id in HB by zlia. exact HB. }
  pose proof (Z.div_mod q (2 ^ k) ltac:(zlia)) as Hdm.
  pose proof (Z.mod_pos_bound q (2 ^ k) HK) as Hmod.
  assert (HS : 0 < 2 ^ (- e0 - 1074)) by (apply pow2_pos; zlia).
  assert (EU : M * 2 ^ (k + (e0 + 1074)) * 2 ^ (- e0 - 1074) = M * 2 ^ k).
  { rewrite <- Z.mul_assoc, <- Z.pow_add_r by zlia. f_equal. f_equal. zlia. }
  assert (HM0 : 0 <= M).
  { assert (0 <= q / 2 ^ k) by (apply Z.div_pos; zlia). zlia. }
  assert (HU : 0 <= M * 2 ^ (k + (e0 + 1074)))
    by (apply Z.mul_nonneg_nonneg; [zlia|apply Z.lt_le_incl, pow2_pos; zlia]).
  assert (Hup : M * 2 ^ k <= q + 2 ^ k) by znia.
  assert (Hdn : q - 2 ^ k < M * 2 ^ k) by znia.
  pose proof TOP_pos as HT.
  split.
  - transitivity (2 ^ 52 * (M * 2 ^ (k + (e0 + 1074)) * 2 ^ (- e0 - 1074))).
    + apply Z.mul_le_mono_nonneg_l; [zlia|].
      apply Z.mul_le_mono_nonneg_r; [zlia|]. apply Z.le_min_r.
    + rewrite EU. znia.
  - intros Hlt. rewrite Z.min_r by zlia. rewrite EU. znia.
Qed.

(* the same for an integral number of units of the smallest double:
   the double nearest to [V * 2^-1074] *)
Lemma round_bracket V :
  2 ^ 52 <= V ->
  2 ^ 52 * rndZ (-1074) (4 * V) <= (2 ^ 52 + 1) * V
  /\ (rndZ (-1074) (4 * V) < TOP ->
      (2 ^ 52 - 1) * V <= 2 ^ 52 * rndZ (-1074) (4 * V)).
Proof.
  intros HV. assert (H0 : 0 < 2 ^ 52) by (apply pow2_pos; zlia).
  assert (Hd : 52 < Zdigits2 V) by (apply Zdigits2_ge_pow; zlia).
  pose proof (rndZ_bracket (-1074) (4 * V) ltac:(zlia) ltac:(zlia)) as H.
  replace (4 * V / 4) with V in H
    by (symmetry; rewrite Z.mul_comm; apply Z.div_mul; zlia).
  change (- -1074 - 1074) with 0 in H. rewrite Z.pow_0_r, Z.mul_1_r in H.
  apply H. zlia.
Qed.

(* the product by a constant whose exact value is a whole number [V] of
   units of the smallest double *)
Lemma mulZ_whole a c V :
  0 <= a < TOP -> 0 < V -> a * c = V * 2 ^ 1074 ->
  mulZ a c = rndZ (-1074) (4 * V).
Proof.
  intros [Ha Hlt] HV E. unfold mulZ.
  destruct (Z.eqb_spec a TOP) as [->|_]; [destruct (Z.lt_irrefl _ Hlt)|].
  rewrite E. change 1074 with (-1074 - -2148) at 1.
  apply rndZ_scale; [exact HV|zlia|rewrite fexp_eq; zlia].
Qed.

Lemma addZ_whole a b :
  0 <= a < TOP -> 0 <= b < TOP -> addZ a b = rndZ (-1074) (4 * (a + b)).
Proof.
  intros [Ha Hlt] [Hb Hlt']. unfold addZ.
  destruct (Z.eqb_spec a TOP) as [->|_]; [destruct (Z.lt_irrefl _ Hlt)|].
  destruct (Z.eqb_spec b TOP) as [->|_]; [destruct (Z.lt_irrefl _ Hlt')|].
  reflexivity.
Qed.

End RoundFacts.

(** ** The total of an order against its subtotal *)

Module TotalFacts.

Import Str Fees FeesSpec FeesFacts RoundSpec RoundFacts TotalSpec.

Lemma posfin_100 : posfin (of_Z 100) = true.
Proof. reflexivity. Qed.

Lemma posfin_rate : posfin SERVICE_FEE_PERCENTAGE = true.
Proof. reflexivity. Qed.

Lemma rel_roundToCents x y : rel x y -> rel (roundToCents x) (roundToCents y).
Proof.
  intros H. unfold roundToCents.
  apply rel_div; [exact posfin_100|]. apply rel_Math_round.
  apply rel_mul; [exact posfin_100|exact H].
Qed.

Lemma rel_fee x y : rel x y -> rel (calculateServiceFee x) (calculateServiceFee y).
Proof.
  intros H. unfold calculateServiceFee.
  apply rel_div; [exact posfin_100|]. apply rel_Math_round.
  apply rel_mul; [exact posfin_100|]. apply rel_mul; [exact posfin_rate|exact H].
Qed.

Lemma rel_totalOf s s' d d' : rel s s' -> rel d d' -> rel (totalOf s d) (totalOf s' d').
Proof.
  intros Hs Hd. unfold totalOf. apply rel_roundToCents.
  apply rel_add; [|exact Hd]. apply rel_add; [exact Hs|now apply rel_fee].
Qed.

Lemma rel_feeOnly s s' : rel s s' -> rel (feeOnly s) (feeOnly s').
Proof.
  intros Hs. unfold feeOnly. apply rel_roundToCents.
  apply rel_add; [exact Hs|now apply rel_fee].
Qed.

Lemma feeOnly_totalOf s d :
  nonneg s = true -> nonneg d = true -> rel (feeOnly s) (totalOf s d).
Proof.
  intros Hs Hd. unfold feeOnly, totalOf. apply rel_roundToCents.
  apply rel_add_r; [|exact Hd].
  destruct (rel_add s s _ _ (rel_refl s Hs) (rel_fee s s (rel_refl s Hs))) as (H & _).
  exact H.
Qed.

Lemma climb_sound f goal :
  (forall x y, rel x y -> rel (f x) (f y)) ->
  nonneg goal = true ->
  forall fuel a, climb f goal fuel a = true ->
  forall s, rel a s -> ival s < ival goal -> rel s (f s).
Proof.
  intros Hf Hg. induction fuel as [|n IH]; intros a Hc s Has Hs; cbn [climb] in Hc.
  - destruct (le goal a) eqn:E; [|discriminate].
    destruct Has as (Ha & _ & Hle). apply le_ival in E; try assumption. lia.
  - destruct (le goal a) eqn:E.
    + destruct Has as (Ha & _ & Hle). apply le_ival in E; try assumption. lia.
    + pose proof (Hf a s Has) as (Hfa & Hfs & Hle).
      destruct Has as (Ha & Hs' & Hle').
      destruct (Z_le_gt_dec (ival (f a)) (ival s)) as [Hl|Hgt].
      * apply (IH (f a) Hc); [|exact Hs]. repeat split; assumption.
      * repeat split; try assumption. lia.
Qed.


Lemma low_chain : climb (fun s => totalOf s (of_Z 4)) two52 1600 (of_Z 0) = true.
Proof. vm_compute. reflexivity. Qed.

Lemma binade_chain : climb feeOnly two53 40 two52 = true.
Proof. vm_compute. reflexivity. Qed.

Lemma valid_intro m e :
  fexp prec emax (Zdigits2 (Z.pos m) + e) = e -> e <= 971 ->
  valid (S754_finite false m e) = true.
Proof.
  intros Hc He. unfold valid. cbn [valid_binary]. unfold bounded, canonical_mantissa.
  change (Z.pos (digits2_pos m)) with (Zdigits2 (Z.pos m)).
  change (emax - prec) with 971.
  now rewrite andb_true_iff, Z.eqb_eq, Z.leb_le.
Qed.

Lemma valid_lower m e :
  0 <= e -> valid (S754_finite false m (e + 1)) = true ->
  valid (S754_finite false m e) = true.
Proof.
  intros He Hv. destruct (valid_finite m (e + 1) Hv) as ([_ He2] & _ & Hc & _).
  rewrite fexp_eq in Hc. apply valid_intro; [rewrite fexp_eq|]; lia.
Qed.

(* at and above 2^52 the fee-only total of the double is at least the
   double of the fee-only total *)
Lemma feeOnly_dd x y : rel two52 x -> dd x y -> dd (feeOnly x) (feeOnly y).
Proof.
  intros Hx Hxy. unfold feeOnly, roundToCents, calculateServiceFee.
  set (p := SERVICE_FEE_PERCENTAGE). set (c := of_Z 100).
  assert (Hp : posfin p = true) by reflexivity.
  assert (Hc : posfin c = true) by reflexivity.
  pose proof (rel_mul _ _ p Hp Hx) as R1.
  pose proof (rel_mul _ _ c Hc R1) as R2.
  pose proof (rel_Math_round _ _ R2) as R3.
  pose proof (rel_div _ _ c Hc R3) as R4.
  pose proof (rel_add _ _ _ _ Hx R4) as R5.
  pose proof (rel_mul _ _ c Hc R5) as R6.
  pose proof (rel_Math_round _ _ R6) as R7.
  pose proof (rel_div _ _ c Hc R7) as R8.
  assert (B1 : 2 ^ 53 <= ival (mul two52 p))
    by (eapply ival_ge_pow; [vm_compute; reflexivity|discriminate|lia|lia]).
  assert (B2 : 2 ^ 1126 <= ival (mul (mul two52 p) c))
    by (eapply ival_ge_pow; [vm_compute; reflexivity|discriminate|lia|lia]).
  assert (B4 : 2 ^ 53 <= ival (div (Math_round (mul (mul two52 p) c)) c))
    by (eapply ival_ge_pow; [vm_compute; reflexivity|discriminate|lia|lia]).
  assert (B5 : 2 ^ 53 <= ival (add two52 (div (Math_round (mul (mul two52 p) c)) c)))
    by (eapply ival_ge_pow; [vm_compute; reflexivity|discriminate|lia|lia]).
  assert (B6 : 2 ^ 1126
               <= ival (mul (add two52 (div (Math_round (mul (mul two52 p) c)) c)) c))
    by (eapply ival_ge_pow; [vm_compute; reflexivity|discriminate|lia|lia]).
  assert (B8 : 2 ^ 53 <= ival (div (Math_round (mul (add two52
                 (div (Math_round (mul (mul two52 p) c)) c)) c)) c))
    by (eapply ival_ge_pow; [vm_compute; reflexivity|discriminate|lia|lia]).
  assert (L : 2 ^ 52 < 2 ^ 53) by (apply Z.pow_lt_mono_r; lia).
  assert (L' : 2 ^ 53 <= 2 ^ 1126) by (apply pow2_le; lia).
  destruct R1 as (_ & _ & R1), R2 as (_ & _ & R2), R4 as (_ & _ & R4),
    R5 as (_ & _ & R5), R6 as (_ & _ & R6), R8 as (_ & _ & R8).
  apply dd_div; [exact Hc| |exact (Z.lt_le_trans _ _ _ L (Z.le_trans _ _ _ B8 R8))].
  apply dd_Math_round; [|exact (Z.le_trans _ _ _ B6 R6)].
  apply dd_mul;
    [exact Hc| |exact (Z.lt_le_trans _ _ _ L (Z.le_trans _ _ _ L' (Z.le_trans _ _ _ B6 R6)))].
  apply dd_add; [exact Hxy| |exact (Z.lt_le_trans _ _ _ L (Z.le_trans _ _ _ B5 R5))].
  apply dd_div; [exact Hc| |exact (Z.lt_le_trans _ _ _ L (Z.le_trans _ _ _ B4 R4))].
  apply dd_Math_round; [|exact (Z.le_trans _ _ _ B2 R2)].
  apply dd_mul;
    [exact Hc| |exact (Z.lt_le_trans _ _ _ L (Z.le_trans _ _ _ L' (Z.le_trans _ _ _ B2 R2)))].
  apply dd_mul; [exact Hp|exact Hxy|exact (Z.lt_le_trans _ _ _ L (Z.le_trans _ _ _ B1 R1))].
Qed.

Lemma ival_two52 : ival two52 = 2 ^ 1126.
Proof.
  unfold two52. cbn [ival]. change (Z.pos (2 ^ 52)) with (2 ^ 52).
  now rewrite <- Z.pow_add_r by lia.
Qed.

Lemma ival_two53 : ival two53 = 2 ^ 1127.
Proof.
  unfold two53. cbn [ival]. change (Z.pos (2 ^ 52)) with (2 ^ 52).
  now rewrite <- Z.pow_add_r by lia.
Qed.

(* every number with a non-negative exponent is at most its fee-only total *)
Lemma binade n m :
  valid (S754_finite false m (Z.of_nat n)) = true ->
  rel (S754_finite false m (Z.of_nat n)) (feeOnly (S754_finite false m (Z.of_nat n))).
Proof.
  revert m. induction n as [|n IH]; intros m Hv.
  - destruct (valid_finite m _ Hv) as (_ & _ & _ & Hn & Hm).
    specialize (Hn ltac:(cbn; lia)).
    apply (climb_sound feeOnly two53 rel_feeOnly eq_refl 40 two52 binade_chain).
    + repeat split; [now apply nonneg_finite|].
      rewrite ival_two52. cbn [ival Z.of_nat Z.add].
      apply (pow2_mul_ge _ 52); lia.
    + rewrite ival_two53. cbn [ival Z.of_nat Z.add].
      apply (pow2_mul_lt _ 53); lia.
  - rewrite Nat2Z.inj_succ in *. unfold Z.succ in *.
    set (e := Z.of_nat n) in *. assert (He : 0 <= e) by (unfold e; lia).
    pose proof (valid_lower m e He Hv) as Hv'.
    specialize (IH m Hv').
    destruct (valid_finite m e Hv') as (_ & _ & _ & Hn & Hm).
    specialize (Hn ltac:(lia)).
    pose proof (ival_finite m (e + 1) Hv) as Hi.
    assert (E2 : ival (S754_finite false m (e + 1)) = 2 * ival (S754_finite false m e)).
    { cbn [ival]. replace (e + 1 + 1074) with (1 + (e + 1074)) by lia.
      rewrite Z.pow_add_r by lia. change (2 ^ 1) with 2. ring. }
    assert (Hdd : dd (S754_finite false m e) (S754_finite false m (e + 1))).
    { repeat split; try now apply nonneg_finite. rewrite E2. unfold dbl. lia. }
    assert (Hb : rel two52 (S754_finite false m e)).
    { repeat split; [now apply nonneg_finite|].
      rewrite ival_two52. cbn [ival]. apply (pow2_mul_ge _ 52); lia. }
    destruct (feeOnly_dd _ _ Hb Hdd) as (_ & Hy & Hle).
    destruct IH as (_ & _ & IH).
    repeat split; [now apply nonneg_finite|exact Hy|].
    apply dbl_mono in IH. unfold dbl in IH, Hle. lia.
Qed.

(* the total is never below a non-negative subtotal *)
Lemma totalOf_ge s d :
  nonneg s = true -> rel (of_Z 4) d -> rel s (totalOf s d).
Proof.
  intros Hs Hd. assert (Hd' : nonneg d = true) by apply Hd.
  destruct (Z_lt_ge_dec (ival s) (ival two52)) as [Hlow|Hhigh].
  - apply rel_trans with (totalOf s (of_Z 4)).
    + assert (Hm : forall x y, rel x y -> rel (totalOf x (of_Z 4)) (totalOf y (of_Z 4)))
        by (intros x y H; apply rel_totalOf; [exact H|now apply rel_refl]).
      apply (climb_sound (fun s => totalOf s (of_Z 4)) two52 Hm
               eq_refl 1600 (of_Z 0) low_chain); [|exact Hlow].
      repeat split; [exact Hs|]. change (ival (of_Z 0)) with 0. now apply ival_range.
    + apply rel_totalOf; [now apply rel_refl|exact Hd].
  - apply rel_trans with (feeOnly s); [|now apply feeOnly_totalOf].
    rewrite ival_two52 in Hhigh.
    destruct (nonneg_cases s Hs) as [->|[->|(m & e & -> & Hv)]].
    + cbn [ival] in Hhigh.
      destruct (Zle_not_lt _ _ (Z.ge_le _ _ Hhigh) (pow2_pos 1126 ltac:(lia))).
    + now vm_compute.
    + destruct (valid_finite m e Hv) as ([He1 He2] & _ & _ & _ & Hm).
      assert (He : 0 <= e).
      { destruct (Z_lt_ge_dec e 0) as [Hneg|]; [|lia]. cbn [ival] in Hhigh.
        assert (Z.pos m * 2 ^ (e + 1074) < 2 ^ 1126)
          by (apply (pow2_mul_lt _ 53); lia).
        set (Q := 2 ^ 1126) in *. clearbody Q. lia. }
      rewrite <- (Z2Nat.id e He) in *. now apply binade.
Qed.


(** The sign of a zero subtotal does not show in the fee or the total. *)
Lemma fee_plus x :
  valid x = true -> le (of_Z 0) x = true ->
  plus (calculateServiceFee x) = calculateServiceFee (plus x).
Proof.
  intros Hv Hle. pose proof (nonneg_plus x Hv Hle) as Hn.
  destruct x as [[]|[]| |[] m e]; try discriminate; try reflexivity.
  cbn [plus] in *. apply plus_nonneg. now apply (rel_fee _ _ (rel_refl _ Hn)).
Qed.

Lemma totalOf_plus x d : posfin d = true -> totalOf x d = totalOf (plus x) d.
Proof.
  intros Hd. destruct (posfin_inv d Hd) as (m & e & -> & _).
  destruct x as [[]|[]| |[] ? ?]; reflexivity.
Qed.

(** Outside the names inherited from [Object.prototype], every
    delivery fee is a whole amount between 4 and 15000. *)
Lemma feesFor_table currency :
  inherited currency = false ->
  List.In (feesFor currency)
    [ NGN_FEES; fees 5 8 25; fees 4 7 20; fees 4 6 18; fees 6 9 28; fees 6 9 30;
      fees 500 800 2500; fees 30 50 150; fees 300 500 1500; fees 80 120 400 ].
Proof.
  intros Hi. unfold feesFor. rewrite Hi.
  destruct (DELIVERY_FEES_BY_CURRENCY !! currency) as [f|] eqn:E; [|now left].
  apply elem_of_list_to_map_2, list_elem_of_In in E. cbn [List.In] in E.
  repeat (destruct E as [[= <- <-]|E]; [cbn [List.In]; tauto|]).
  destruct E.
Qed.

Lemma deliveryFee_whole location currency :
  inherited currency = false ->
  exists n : Z,
    4 <= n <= 15000 /\ calculateDeliveryFee location currency = Number (of_Z n).
Proof.
  intros Hi. rewrite deliveryFee_by_tier.
  pose proof (feesFor_table currency Hi) as H. cbn [List.In] in H.
  repeat (destruct H as [<-|H];
          [destruct (tierOf location currency); cbn [tierFee];
           eexists; (split; [|reflexivity]); lia|]).
  destruct H.
Qed.

Lemma whole_fee_rel n :
  4 <= n <= 15000 -> posfin (of_Z n) = true /\ rel (of_Z 4) (of_Z n).
Proof.
  intros Hn. assert (15000 < 2 ^ 53) by reflexivity.
  split; [apply posfin_of_Z|apply rel_of_Z]; lia.
Qed.

Lemma total_as_totalOf subtotal location currency discountAmount d :
  calculateDeliveryFee location currency = Number d ->
  total (calculateOrderTotal subtotal location currency discountAmount)
  = totalOf subtotal d.
Proof. unfold calculateOrderTotal, totalOf, roundToCents. cbn [total]. now intros ->. Qed.

Lemma le_zero_trans a b :
  le (of_Z 0) a = true -> le a b = true -> le (of_Z 0) b = true.
Proof.
  destruct a as [[]|[]| |[] ? ?], b as [[]|[]| |[] ? ?];
    try discriminate; try reflexivity; cbn; congruence.
Qed.

Lemma rel_plus a b :
  valid a = true -> valid b = true -> le (of_Z 0) a = true -> le a b = true ->
  rel (plus a) (plus b).
Proof.
  intros Va Vb Ha Hab. apply le_rel.
  - now apply nonneg_plus.
  - apply nonneg_plus; [exact Vb|]. now apply (le_zero_trans a b).
  - now rewrite le_plus.
Qed.

(** X13: for every subtotal that is a number and at least 0, +0 and -0
    and Infinity included, every location and every currency that is
    not a name inherited from [Object.prototype], the total of
    [calculateOrderTotal] is at least the subtotal, the delivery fee is
    a number, and the service fee and the delivery fee are at least 0.
    All of it is binary64 arithmetic: the two roundings to cents never
    take the total below the subtotal. *)
Theorem total_at_least_subtotal
    (subtotal : number) (location currency : string) (discountAmount : number) :
  inherited currency = false ->
  valid subtotal = true -> le (of_Z 0) subtotal = true ->
  let t := calculateOrderTotal subtotal location currency discountAmount in
  le subtotal (total t) = true
  /\ le (of_Z 0) (serviceFee t) = true
  /\ exists fee : number,
       deliveryFee t = Number fee /\ le (of_Z 0) fee = true.
Proof.
  intros Hi Hv Hle. cbv zeta.
  destruct (deliveryFee_whole location currency Hi) as (n & Hn & Ed).
  destruct (whole_fee_rel n Hn) as [Hd Hd4].
  pose proof (nonneg_plus subtotal Hv Hle) as Hp.
  rewrite (total_as_totalOf _ _ _ _ _ Ed).
  change (serviceFee (calculateOrderTotal subtotal location currency discountAmount))
    with (calculateServiceFee subtotal).
  change (deliveryFee (calculateOrderTotal subtotal location currency discountAmount))
    with (calculateDeliveryFee location currency).
  split; [|split].
  - rewrite totalOf_plus by exact Hd.
    pose proof (totalOf_ge (plus subtotal) _ Hp Hd4) as H.
    rewrite <- le_plus. rewrite (plus_nonneg (totalOf _ _)) by apply H.
    now apply rel_le.
  - rewrite <- le_plus. rewrite fee_plus by assumption.
    apply (nonneg_le_zero (calculateServiceFee (plus subtotal))).
    now apply (rel_fee _ _ (rel_refl _ Hp)).
  - exists (of_Z n). split; [exact Ed|].
    apply nonneg_le_zero. now apply posfin_nonneg.
Qed.

Lemma total_at_least_subtotal_witness :
  let t := calculateOrderTotal (decimal 725 2) "12 rue de Rivoli, Paris" "EUR" (of_Z 0) in
  le (decimal 725 2) (total t) = true
  /\ le (of_Z 0) (serviceFee t) = true
  /\ exists fee : number,
       deliveryFee t = Number fee /\ le (of_Z 0) fee = true.
Proof.
  apply (total_at_least_subtotal (decimal 725 2)); reflexivity.
Defined.

(** C8 at the subtotal 1000 sent to Paris in the currency
    [constructor].  The name is not a currency of the table, so the NGN
    amounts should apply and the total should be at least 1000; the
    read of the table finds the member every object inherits under that
    name, the delivery fee is [undefined], the total is NaN and the
    comparison of the total with the subtotal fails. *)
Theorem total_with_inherited_currency :
  let t := calculateOrderTotal (of_Z 1000) "Paris" "constructor" (of_Z 0) in
  le (of_Z 0) (of_Z 1000) = true
  /\ DELIVERY_FEES_BY_CURRENCY !! "constructor"%string = None
  /\ serviceFee t = of_Z 20
  /\ deliveryFee t = Undefined
  /\ total t = NaN
  /\ ge (total t) (of_Z 1000) = false
  /\ total (calculateOrderTotal (of_Z 1000) "Paris" "XYZ" (of_Z 0)) = of_Z 6020.
Proof. vm_compute. repeat split. Qed.

(** X14: [calculateServiceFee] is monotone on the subtotals from 0 up:
    a larger subtotal never has a smaller fee, and the fee is a
    number. *)
Theorem serviceFee_monotone (a b : number) :
  valid a = true -> valid b = true ->
  le (of_Z 0) a = true -> le a b = true ->
  le (calculateServiceFee a) (calculateServiceFee b) = true
  /\ isNaN (calculateServiceFee b) = false.
Proof.
  intros Va Vb Ha Hab.
  pose proof (rel_plus a b Va Vb Ha Hab) as R.
  pose proof (le_zero_trans a b Ha Hab) as Hb.
  apply rel_fee in R. split.
  - rewrite <- le_plus, !fee_plus by assumption. now apply rel_le.
  - destruct R as (_ & N & _). rewrite <- fee_plus in N by assumption.
    now destruct (calculateServiceFee b).
Qed.

Lemma serviceFee_monotone_witness :
  le (calculateServiceFee (decimal 725 2)) (calculateServiceFee (of_Z 1000)) = true
  /\ isNaN (calculateServiceFee (of_Z 1000)) = false.
Proof.
  apply (serviceFee_monotone (decimal 725 2) (of_Z 1000)); reflexivity.
Defined.

(** X15: for a fixed location and a currency that is not a name
    inherited from [Object.prototype], the total of
    [calculateOrderTotal] is monotone in the subtotal from 0 up. *)
Theorem total_monotone
    (a b : number) (location currency : string) (da db : number) :
  inherited currency = false ->
  valid a = true -> valid b = true ->
  le (of_Z 0) a = true -> le a b = true ->
  le (total (calculateOrderTotal a location currency da))
     (total (calculateOrderTotal b location currency db)) = true.
Proof.
  intros Hi Va Vb Ha Hab.
  destruct (deliveryFee_whole location currency Hi) as (n & Hn & Ed).
  destruct (whole_fee_rel n Hn) as [Hd Hd4].
  rewrite !(total_as_totalOf _ _ _ _ _ Ed).
  rewrite (totalOf_plus a) by exact Hd. rewrite (totalOf_plus b) by exact Hd.
  apply rel_le, rel_totalOf; [now apply rel_plus|].
  apply rel_refl. now apply posfin_nonneg.
Qed.

Lemma total_monotone_witness :
  le (total (calculateOrderTotal (decimal 725 2) "Lagos" "NGN" (of_Z 0)))
     (total (calculateOrderTotal (of_Z 1000) "Lagos" "NGN" (of_Z 100))) = true.
Proof.
  apply (total_monotone (decimal 725 2) (of_Z 1000)); reflexivity.
Defined.

End TotalFacts.

(** ** The balance written by a wallet payment *)

Module WalletFacts.

Import Fees FeesSpec ProductModal Checkout NumFacts CheckoutSpec CheckoutFacts
  RoundSpec RoundFacts TotalSpec TotalFacts.

(** A finite balance less an amount it covers lies between 0 and the
    balance. *)
Lemma debit_bounds (balance needed : number) :
  valid balance = true -> lt balance Infinity = true ->
  nonneg needed = true -> lt balance needed = false ->
  le (of_Z 0) (sub balance needed) = true
  /\ le (sub balance needed) balance = true.
Proof.
  intros Vb Hfin Hn Hge.
  destruct balance as [[]|[]| |[] m e]; try discriminate.
  - destruct (nonneg_cases needed Hn) as [->|[->|(m' & e' & -> & Hv)]];
      try discriminate; split; reflexivity.
  - destruct (nonneg_cases needed Hn) as [->|[->|(m' & e' & -> & Hv)]];
      try discriminate; split; reflexivity.
  - exfalso. destruct (nonneg_cases needed Hn) as [->|[->|(m' & e' & -> & Hv)]];
      discriminate.
  - exfalso. destruct (nonneg_cases needed Hn) as [->|[->|(m' & e' & -> & Hv)]];
      discriminate.
  - assert (Hb : nonneg (S754_finite false m e) = true) by now apply nonneg_finite.
    pose proof (ival_finite m e Vb) as Hi.
    assert (Hle : ival needed <= ival (S754_finite false m e)).
    { destruct (Z_le_gt_dec (ival needed) (ival (S754_finite false m e))); [assumption|].
      assert (lt (S754_finite false m e) needed = true) by (apply lt_ival; try assumption; lia).
      congruence. }
    pose proof (sub_bounds _ _ Hb Hn Hle ltac:(lia)) as R.
    split; [|now apply rel_le]. apply nonneg_le_zero, R.
Qed.

Section Debit.

Variable convertFromNGN : number -> string -> number.
Variable formatCurrency : number -> string -> string.
Variable numberToString : number -> string.

(** X16: a wallet order never overdraws the wallet.  For a signed-in
    customer with an address, a finite balance and a discounted
    subtotal that is a number and at least 0, whatever the remote calls
    answer, [handleOrder] leaves the stored balance as it was or writes
    the cached balance less the total, and that new balance is at least
    0 and at most the cached balance. *)
Theorem wallet_never_overdrawn
    (r : Remote) (s : State) (u : User) (p : Profile) :
  ready s u p ->
  valid (wallet_balance p) = true ->
  lt (wallet_balance p) Infinity = true ->
  valid (sub (getSubtotalInNGN s) (discountNGN s)) = true ->
  le (of_Z 0) (sub (getSubtotalInNGN s) (discountNGN s)) = true ->
  let after :=
    snd (CheckoutSpec.placeOrder convertFromNGN formatCurrency numberToString
           r wallet s) in
  stored_balance after = stored_balance s
  \/ (stored_balance after = sub (wallet_balance p) (total (orderTotalsNGN s))
      /\ le (of_Z 0) (stored_balance after) = true
      /\ le (stored_balance after) (wallet_balance p) = true).
Proof.
  intros Hready Vb Hfin Vx Hx. cbv zeta.
  assert (Hn : nonneg (total (orderTotalsNGN s)) = true).
  { destruct (deliveryFee_whole (deliveryAddress s) "NGN" eq_refl)
      as (n & Hn & Ed).
    destruct (whole_fee_rel n Hn) as [Hd Hd4].
    unfold orderTotalsNGN. rewrite (total_as_totalOf _ _ _ _ _ Ed).
    rewrite totalOf_plus by exact Hd.
    apply (rel_totalOf _ _ _ _ (rel_refl _ (nonneg_plus _ Vx Hx))
             (rel_refl _ (posfin_nonneg _ Hd))). }
  rewrite (placeOrder_wallet convertFromNGN formatCurrency numberToString
             r s u p Hready).
  cbv zeta. destruct Hready as (Hu & Hp & Ha).
  set (t := orderTotalsNGN s) in *. set (dn := discountNGN s).
  set (cur := userCurrency s).
  set (msg := insufficientBalanceMessage convertFromNGN formatCurrency
                (wallet_balance p) (total t) cur).
  clearbody t dn cur msg. clear Vx Hx.
  destruct (lt (wallet_balance p) (total t)) eqn:Hlt.
  - left. destruct s as [o ts b c us pr ca its ap da lo sp spp od al]. reflexivity.
  - pose proof (debit_bounds _ _ Vb Hfin Hn Hlt) as HB.
    destruct s as [o ts b c us pr ca its ap da lo sp spp od al].
    destruct r as [[e1|] [e2|] oid [e3|] [e4|] [e5|] rp [e6|]];
      first [left; reflexivity|right; split; [reflexivity|exact HB]].
Qed.

End Debit.

Lemma wallet_never_overdrawn_witness :
  let after :=
    snd (CheckoutSpec.placeOrder sameAmount currencyOnly noDigits allGood wallet
           (atCheckout (of_Z 5000))) in
  stored_balance after = stored_balance (atCheckout (of_Z 5000))
  \/ (stored_balance after
      = sub (of_Z 5000) (total (orderTotalsNGN (atCheckout (of_Z 5000))))
      /\ le (of_Z 0) (stored_balance after) = true
      /\ le (stored_balance after) (of_Z 5000) = true).
Proof.
  apply (wallet_never_overdrawn sameAmount currencyOnly noDigits allGood
           (atCheckout (of_Z 5000)) customer (account (of_Z 5000)));
    [repeat split|reflexivity|reflexivity|reflexivity|reflexivity].
Defined.

End WalletFacts.

(** ** The quantity of the product sheet *)

Module QuantityFacts.

Import ProductModal RoundSpec RoundFacts QuantitySpec.

Lemma one_rel : rel (of_Z 1) (of_Z 1).
Proof. now apply rel_refl. Qed.

Lemma increment_keeps q : rel (of_Z 1) q -> rel (of_Z 1) (add q (of_Z 1)).
Proof.
  intros H. apply rel_trans with q; [exact H|].
  apply rel_add_r; [apply H|reflexivity].
Qed.

Lemma decrement_keeps q :
  rel (of_Z 1) q -> rel (of_Z 1) (Math_max (of_Z 1) (sub q (of_Z 1))).
Proof.
  intros (_ & Hq & Hle).
  assert (H1 : ival (of_Z 1) < TOP) by (apply Z.ltb_lt; vm_compute; reflexivity).
  destruct (ival_sub q (of_Z 1) Hq eq_refl Hle H1) as [Hn _].
  set (z := sub q (of_Z 1)) in *. unfold Math_max.
  assert (Hnan : isNaN z = false).
  { destruct (nonneg_cases z Hn) as [->|[->|(m & e & -> & _)]]; reflexivity. }
  replace (isNaN (of_Z 1)) with false by reflexivity. rewrite Hnan. cbn [orb].
  destruct (lt (of_Z 1) z) eqn:E.
  - apply lt_ival in E; [|reflexivity|exact Hn].
    repeat split; [exact Hn|lia].
  - destruct (lt z (of_Z 1)); apply one_rel.
Qed.

(** X17: from the quantity 1 of a fresh sheet, whatever sequence of
    plus and minus buttons is pressed, the quantity stays a number and
    never drops below 1. *)
Theorem quantity_at_least_one (bs : list Button) (m : Modal) :
  let q := selectedQuantity (pressAll bs (resetModal m)) in
  valid q = true /\ le (of_Z 1) q = true /\ isNaN q = false.
Proof.
  cbv zeta.
  assert (H : rel (of_Z 1) (selectedQuantity (pressAll bs (resetModal m)))).
  { unfold pressAll. generalize (resetModal m) (one_rel : rel (of_Z 1) (selectedQuantity (resetModal m))).
    induction bs as [|b bs IH]; intros m0 H0; [exact H0|].
    cbn [fold_left]. apply IH. destruct b; cbn [press incrementQuantity decrementQuantity selectedQuantity].
    - now apply increment_keeps.
    - now apply decrement_keeps. }
  pose proof (rel_le _ _ H) as Hle. destruct H as (_ & Hn & _).
  destruct (nonneg_le_zero _ Hn) as [Hv _].
  repeat split; try assumption.
  destruct (nonneg_cases _ Hn) as [->|[->|(m' & e' & -> & _)]]; reflexivity.
Qed.

End QuantityFacts.

(** ** The discount of a promo code *)

Module DiscountFacts.

Import Fees FeesSpec PromoSpec PromoFacts RoundSpec RoundFacts.

Lemma rndZ_unit x :
  nonneg x = true -> ival x < TOP ->
  rndZ (-2148) (4 * (ival x * 2 ^ 1074)) = ival x.
Proof.
  intros Hx Hlt.
  destruct (nonneg_cases x Hx) as [->|[->|(m & e & -> & Hv)]]; cbn [ival] in *.
  - rewrite Z.mul_0_l. apply rndZ_zero. lia.
  - destruct (Z.lt_irrefl _ Hlt).
  - destruct (valid_finite m e Hv) as ([He1 He2] & Hd & Hc & _ & Hm).
    rewrite <- Z.mul_assoc, <- Z.pow_add_r by lia.
    replace (e + 1074 + 1074) with (e - -2148) by lia.
    rewrite rndZ_scale by lia. now apply rndZ_self.
Qed.

(* multiplying by a constant that is at most 1 does not raise a number *)
Lemma mul_below x c :
  nonneg x = true -> posfin c = true -> ival c <= 2 ^ 1074 -> rel (mul x c) x.
Proof.
  intros Hx Hc Hle. destruct (posfin_inv c Hc) as (m & e & -> & Hv).
  destruct (ival_mul x m e Hx Hv) as [Hn E].
  repeat split; try assumption. rewrite E. unfold mulZ.
  pose proof (ival_range x Hx) as Hr. pose proof (ival_finite m e Hv) as Hi.
  destruct (Z.eqb_spec (ival x) TOP) as [->|Hne]; [lia|].
  rewrite <- (rndZ_unit x Hx) at 2 by lia.
  apply rndZ_mono; [lia|]. split.
  - assert (0 <= ival x * ival (S754_finite false m e))
      by (apply Z.mul_nonneg_nonneg; lia). lia.
  - apply Z.mul_le_mono_nonneg_l; [lia|].
    apply Z.mul_le_mono_nonneg_l; [lia|exact Hle].
Qed.

(** The discounts of the shipped codes are positive and below 1. *)
Lemma validated_discount now c p :
  validatePromoCode now c = Some p ->
  exists m e, discount p = S754_finite false m e
              /\ valid (discount p) = true /\ e <= -53.
Proof.
  unfold validatePromoCode. rewrite validatePromoCodeIn_unfold.
  destruct (PROMO_CODES !! c) as [q|] eqn:E; [|discriminate].
  destruct (refusedb now q); [discriminate|]. intros [= <-].
  apply elem_of_list_to_map_2, list_elem_of_In in E. cbn [List.In] in E.
  repeat (destruct E as [[= <- <-]|E];
          [eexists _, _; split; [vm_compute; reflexivity|split; [reflexivity|lia]]|]).
  destruct E.
Qed.

(** X18: the discount of a code that [validatePromoCode] accepts is
    between 0 and the subtotal it is taken from, for every subtotal
    that is a number and at least 0; when the subtotal is finite, what
    is left after the discount is between 0 and the subtotal. *)
Theorem discount_within_subtotal
    (now : Z) (c : string) (p : PromoCode) (subtotal : number) :
  validatePromoCode now c = Some p ->
  valid subtotal = true -> le (of_Z 0) subtotal = true ->
  let d := Fees.calculateDiscount subtotal p in
  le (of_Z 0) d = true
  /\ le d subtotal = true
  /\ (lt subtotal Infinity = true ->
      le (of_Z 0) (sub subtotal d) = true /\ le (sub subtotal d) subtotal = true).
Proof.
  intros Hp Hv Hle. cbv zeta. unfold Fees.calculateDiscount.
  destruct (validated_discount now c p Hp) as (m & e & E & Vd & He).
  rewrite E in *.
  pose proof (nonneg_plus subtotal Hv Hle) as Hn.
  destruct subtotal as [[]|[]| |[] ms es]; try discriminate.
  - repeat split.
  - repeat split.
  - repeat split; discriminate.
  - cbn [plus] in Hn.
    assert (Hc : posfin (S754_finite false m e) = true) by exact Vd.
    assert (H1 : ival (S754_finite false m e) <= 2 ^ 1074).
    { destruct (valid_finite m e Vd) as ([He1 _] & _ & _ & _ & Hm).
      cbn [ival]. apply Z.lt_le_incl, (pow2_mul_lt _ 53); lia. }
    pose proof (mul_below _ _ Hn Hc H1) as R.
    pose proof (ival_finite ms es Hv) as Hi.
    destruct R as (Nd & _ & Rle).
    split; [now apply nonneg_le_zero|]. split; [now apply le_ival|].
    intros _.
    pose proof (sub_bounds _ _ Hn Nd Rle ltac:(lia)) as R'.
    split; [apply nonneg_le_zero, R'|now apply rel_le].
Qed.

Lemma discount_within_subtotal_witness :
  let d := Fees.calculateDiscount (of_Z 1000) (promo "SAVE20" "20% off your order" 20) in
  le (of_Z 0) d = true
  /\ le d (of_Z 1000) = true
  /\ (lt (of_Z 1000) Infinity = true ->
      le (of_Z 0) (sub (of_Z 1000) d) = true /\ le (sub (of_Z 1000) d) (of_Z 1000) = true).
Proof.
  apply (discount_within_subtotal 0 "SAVE20"); reflexivity.
Defined.

End DiscountFacts.

(** ** The subtotal and the item count of a cart *)

Module CartMore.

Import ProductModal Checkout CheckoutSpec RoundSpec RoundFacts CartSpec.

Lemma sane_cases x :
  saneNumber x = true ->
  x = S754_zero true \/ (nonneg x = true /\ ival x < TOP).
Proof.
  unfold saneNumber. rewrite !andb_true_iff. intros [[Hv Hle] Hfin].
  destruct x as [[]|[]| |[] m e]; try discriminate; [now left|right|right].
  - split; [reflexivity|apply TOP_pos].
  - split; [now apply nonneg_finite|now apply ival_finite].
Qed.

Lemma mul_sane x y :
  saneNumber x = true -> saneNumber y = true -> nonneg (plus (mul x y)) = true.
Proof.
  intros Hx Hy.
  destruct (sane_cases x Hx) as [->|[Nx Fx]], (sane_cases y Hy) as [->|[Ny Fy]].
  - reflexivity.
  - destruct (nonneg_cases y Ny) as [->|[->|(m & e & -> & Hv)]];
      [reflexivity|destruct (Z.lt_irrefl _ Fy)|reflexivity].
  - destruct (nonneg_cases x Nx) as [->|[->|(m & e & -> & Hv)]];
      [reflexivity|destruct (Z.lt_irrefl _ Fx)|reflexivity].
  - destruct (nonneg_cases y Ny) as [->|[->|(m & e & -> & Hv)]].
    + destruct (nonneg_cases x Nx) as [->|[->|(m & e & -> & Hv)]];
        [reflexivity|destruct (Z.lt_irrefl _ Fx)|reflexivity].
    + destruct (Z.lt_irrefl _ Fy).
    + destruct (ival_mul x m e Nx Hv) as [H _]. now rewrite plus_nonneg.
Qed.

Lemma sane_plus x : saneNumber x = true -> nonneg (plus x) = true.
Proof.
  intros Hx. destruct (sane_cases x Hx) as [->|[Nx _]]; [reflexivity|].
  now rewrite plus_nonneg.
Qed.

Lemma add_plus_r acc q :
  nonneg acc = true -> add acc q = add acc (plus q).
Proof.
  intros Ha. destruct q as [[]| | |]; try reflexivity.
  destruct (nonneg_cases acc Ha) as [->|[->|(m & e & -> & Hv)]]; reflexivity.
Qed.

Lemma add_grows acc q :
  nonneg acc = true -> nonneg (plus q) = true -> rel acc (add acc q).
Proof. intros Ha Hq. rewrite add_plus_r by exact Ha. now apply rel_add_r. Qed.

Lemma fold_add_grows {A} (f : A -> number) (l : list A) (acc : number) :
  nonneg acc = true -> (forall a, List.In a l -> nonneg (plus (f a)) = true) ->
  rel acc (fold_left (fun sum a => add sum (f a)) l acc).
Proof.
  revert acc. induction l as [|a l IH]; intros acc Ha Hl; cbn [fold_left].
  - now apply rel_refl.
  - pose proof (add_grows acc (f a) Ha (Hl a (or_introl eq_refl))) as R.
    apply rel_trans with (add acc (f a)); [exact R|].
    apply IH; [apply R|]. intros b Hb. apply Hl. now right.
Qed.

(** X19: for a cart whose prices and quantities are finite numbers at
    least 0, the subtotal in NGN and the item count are numbers at
    least 0 (never NaN, even where the sum overflows), and adding one
    more such item at the end lowers neither. *)
Theorem cart_subtotal (s s' : State) (it : CartItem) :
  forallb saneItem (items s) = true -> saneItem it = true ->
  items s' = items s ++ [it] ->
  valid (getSubtotalInNGN s) = true
  /\ le (of_Z 0) (getSubtotalInNGN s) = true
  /\ le (getSubtotalInNGN s) (getSubtotalInNGN s') = true
  /\ valid (getTotalItems s) = true
  /\ le (of_Z 0) (getTotalItems s) = true
  /\ le (getTotalItems s) (getTotalItems s') = true.
Proof.
  intros Hall Hit Hs'. unfold getSubtotalInNGN, getTotalItems. rewrite Hs'.
  rewrite !fold_left_app. cbn [fold_left].
  rewrite forallb_forall in Hall.
  unfold saneItem in Hit. apply andb_true_iff in Hit as [Hp Hq].
  assert (H1 : forall a, List.In a (items s) ->
               nonneg (plus (mul (itemPrice a) (quantity a))) = true).
  { intros a Ha. specialize (Hall a Ha). unfold saneItem in Hall.
    apply andb_true_iff in Hall as [? ?]. now apply mul_sane. }
  assert (H2 : forall a, List.In a (items s) -> nonneg (plus (quantity a)) = true).
  { intros a Ha. specialize (Hall a Ha). unfold saneItem in Hall.
    apply andb_true_iff in Hall as [? ?]. now apply sane_plus. }
  pose proof (fold_add_grows (fun a => mul (itemPrice a) (quantity a)) (items s)
                (of_Z 0) eq_refl H1) as (_ & N1 & _).
  pose proof (fold_add_grows quantity (items s) (of_Z 0) eq_refl H2) as (_ & N2 & _).
  destruct (nonneg_le_zero _ N1) as [V1 L1]. destruct (nonneg_le_zero _ N2) as [V2 L2].
  repeat split; try assumption.
  - apply rel_le, add_grows; [exact N1|now apply mul_sane].
  - apply rel_le, add_grows; [exact N2|now apply sane_plus].
Qed.

Lemma cart_subtotal_witness :
  le (getSubtotalInNGN (atCheckout (of_Z 0)))
     (getSubtotalInNGN
        {| orders := []; transactions := []; stored_balance := of_Z 0;
           calls := []; user := None; profile := None; cart := [];
           items := [shirt; shirt]; appliedPromo := None;
           deliveryAddress := "Enugu"; loading := false;
           showPaystack := false; showPayPal := false;
           orderData := None; alerts := [] |}) = true.
Proof.
  apply (cart_subtotal (atCheckout (of_Z 0))
           {| orders := []; transactions := []; stored_balance := of_Z 0;
              calls := []; user := None; profile := None; cart := [];
              items := [shirt; shirt]; appliedPromo := None;
              deliveryAddress := "Enugu"; loading := false;
              showPaystack := false; showPayPal := false;
              orderData := None; alerts := [] |} shirt);
    reflexivity.
Defined.

End CartMore.

(** ** Whole amounts: the fee and the total are exact *)

Module WholeFacts.

Import Str Fees FeesSpec FeesFacts RoundSpec RoundFacts TotalSpec TotalFacts.

(* the fee rate and the constant 100 *)
Lemma rate_value : SERVICE_FEE_PERCENTAGE = S754_finite false 5764607523034235 (-58).
Proof. vm_compute. reflexivity. Qed.

Lemma hundred_value : of_Z 100 = S754_finite false 7036874417766400 (-46).
Proof. vm_compute. reflexivity. Qed.

Lemma ival_hundred : ival (of_Z 100) = 100 * 2 ^ 1074.
Proof. apply ival_of_Z. split; [zlia|reflexivity]. Qed.

Lemma mul_hundred x :
  nonneg x = true -> 0 < ival x < TOP ->
  nonneg (mul x (of_Z 100)) = true
  /\ ival (mul x (of_Z 100)) = rndZ (-1074) (4 * (100 * ival x)).
Proof.
  intros Hx Hr. pose proof ival_hundred as E100. rewrite hundred_value in *.
  destruct (ival_mul x 7036874417766400 (-46) Hx eq_refl) as [Hn E].
  split; [exact Hn|]. rewrite E, E100.
  apply mulZ_whole; [zlia|zlia|zring].
Qed.

(* the value of the product of a whole amount by the rate and by 100
   is within half a unit of the double amount *)
Lemma fee_cents_bracket n :
  1 <= n <= 2 ^ 48 ->
  let y := mul (mul (of_Z n) SERVICE_FEE_PERCENTAGE) (of_Z 100) in
  nonneg y = true
  /\ (4 * n - 1) * 2 ^ 1073 <= ival y < (4 * n + 1) * 2 ^ 1073.
Proof.
  intros Hn. cbv zeta.
  assert (H48 : 2 ^ 48 < 2 ^ 53) by (apply Z.pow_lt_mono_r; zlia).
  destruct (ival_of_Z n ltac:(zlia)) as [N0 E0].
  rewrite rate_value.
  destruct (ival_mul (of_Z n) 5764607523034235 (-58) N0 eq_refl) as [N1 E1].
  set (x1 := mul (of_Z n) (S754_finite false 5764607523034235 (-58))) in *.
  assert (HW : 0 < 2 ^ 1016) by (apply pow2_pos; zlia).
  assert (ET : 2 ^ 1074 = 2 ^ 58 * 2 ^ 1016)
    by (change 1074 with (58 + 1016); now rewrite Z.pow_add_r by zlia).
  assert (EH : 2 ^ 1073 = 2 ^ 57 * 2 ^ 1016)
    by (change 1073 with (57 + 1016); now rewrite Z.pow_add_r by zlia).
  assert (ETOP : 2 ^ 110 * 2 ^ 1016 <= TOP)
    by (unfold TOP; rewrite <- Z.pow_add_r by zlia; apply pow2_le; zlia).
  assert (Hlt0 : n * 2 ^ 1074 < TOP)
    by (unfold TOP; apply (pow2_mul_lt _ 53); zlia).
  assert (E1' : ival x1 = rndZ (-1074) (4 * (n * 5764607523034235 * 2 ^ 1016))).
  { rewrite E1, E0. cbn [ival]. change (-58 + 1074) with 1016.
    apply mulZ_whole; [split; [|exact Hlt0]|znia|zring].
    apply Z.mul_nonneg_nonneg; zlia. }
  set (U := n * 2 ^ 1016).
  assert (HU : 2 ^ 1016 <= U <= 2 ^ 48 * 2 ^ 1016) by (unfold U; znia).
  replace (n * 5764607523034235 * 2 ^ 1016) with (5764607523034235 * U) in E1'
    by (unfold U; zring).
  destruct (round_bracket (5764607523034235 * U)) as [Up1 Lo1];
    [change (2 ^ 52) with 4503599627370496;
     set (W := 2 ^ 1016) in *; clearbody W U; zlia|].
  rewrite <- E1' in Up1, Lo1.
  set (R1 := ival x1) in *.
  assert (HR1 : 0 < R1 < TOP).
  { change (2 ^ 52) with 4503599627370496 in *.
    change (2 ^ 48) with 281474976710656 in *.
    change (2 ^ 110) with 1298074214633706907132624082305024 in *.
    split.
    - destruct (Z_lt_le_dec R1 TOP) as [Hlt|Hge].
      + specialize (Lo1 Hlt). set (W := 2 ^ 1016) in *. clearbody W U R1. zlia.
      + set (W := 2 ^ 1016) in *. clearbody W U R1. zlia.
    - set (W := 2 ^ 1016) in *. clearbody W U R1. zlia. }
  specialize (Lo1 ltac:(zlia)).
  destruct (mul_hundred x1 N1 HR1) as [N2 E2]. fold R1 in E2.
  destruct (round_bracket (100 * R1)) as [Up2 Lo2].
  { change (2 ^ 52) with 4503599627370496 in *.
    set (W := 2 ^ 1016) in *. clearbody W U R1. zlia. }
  rewrite <- E2 in Up2, Lo2.
  set (R2 := ival (mul x1 (of_Z 100))) in *.
  split; [exact N2|].
  rewrite EH. fold U.
  change (2 ^ 52) with 4503599627370496 in *.
  change (2 ^ 48) with 281474976710656 in *.
  change (2 ^ 57) with 144115188075855872 in *.
  change (2 ^ 110) with 1298074214633706907132624082305024 in *.
  assert (Hlt2 : R2 < TOP).
  { set (W := 2 ^ 1016) in *. clearbody W U R1 R2. zlia. }
  specialize (Lo2 Hlt2).
  replace ((4 * n - 1) * (144115188075855872 * 2 ^ 1016))
    with (576460752303423488 * U - 144115188075855872 * 2 ^ 1016) by (unfold U; zring).
  replace ((4 * n + 1) * (144115188075855872 * 2 ^ 1016))
    with (576460752303423488 * U + 144115188075855872 * 2 ^ 1016) by (unfold U; zring).
  set (W := 2 ^ 1016) in *. clearbody W U R1 R2. zlia.
Qed.

(* a value within half a unit of a whole number rounds to it *)
Lemma round_to_whole y k :
  nonneg y = true -> 0 <= k < 2 ^ 52 ->
  (2 * k - 1) * 2 ^ 1073 <= ival y < (2 * k + 1) * 2 ^ 1073 ->
  Math_round y = of_Z k.
Proof.
  intros Hy Hk Hb. destruct (ival_Math_round y Hy) as [N E].
  assert (H52 : 2 ^ 52 < 2 ^ 53) by (apply Z.pow_lt_mono_r; zlia).
  destruct (ival_of_Z k ltac:(zlia)) as [N' E'].
  apply ival_inj; try assumption. rewrite E, E'.
  assert (HH : 0 < 2 ^ 1073) by (apply pow2_pos; zlia).
  assert (ET : 2 ^ 1074 = 2 * 2 ^ 1073)
    by (change 1074 with (1 + 1073); now rewrite Z.pow_add_r by zlia).
  assert (EQ : 2 ^ 1126 = 2 ^ 53 * 2 ^ 1073)
    by (change 1126 with (53 + 1073); now rewrite Z.pow_add_r by zlia).
  change (2 ^ 52) with 4503599627370496 in *.
  change (2 ^ 53) with 9007199254740992 in *.
  rewrite roundZ_small.
  - f_equal. rewrite ET. symmetry.
    apply (Z.div_unique_pos _ _ _ (ival y + 2 ^ 1073 - 2 * 2 ^ 1073 * k)).
    + set (H := 2 ^ 1073) in *. clearbody H.
      replace ((2 * k - 1) * H) with (2 * (k * H) - H) in Hb by zring.
      replace ((2 * k + 1) * H) with (2 * (k * H) + H) in Hb by zring.
      replace (2 * H * k) with (2 * (k * H)) by zring.
      set (X := k * H) in *. clearbody X. zlia.
    + zring.
  - rewrite EQ. set (H := 2 ^ 1073) in *. clearbody H.
    assert ((2 * k + 1) * H <= 9007199254740992 * H)
      by (apply Z.mul_le_mono_nonneg_r; zlia).
    zlia.
Qed.

(* the fee on a whole amount is the double nearest to 2% of it *)
Lemma fee_of_whole n :
  0 <= n <= 2 ^ 48 -> calculateServiceFee (of_Z n) = decimal (2 * n) 2.
Proof.
  intros Hn. destruct (Z.eq_dec n 0) as [->|Hne]; [reflexivity|].
  destruct (fee_cents_bracket n ltac:(zlia)) as [Ny Hy]. cbv zeta in Hy.
  unfold calculateServiceFee.
  rewrite (round_to_whole _ (2 * n) Ny).
  - reflexivity.
  - assert (2 ^ 48 * 2 < 2 ^ 52) by reflexivity. zlia.
  - replace (2 * (2 * n) - 1) with (4 * n - 1) by zlia.
    replace (2 * (2 * n) + 1) with (4 * n + 1) by zlia. exact Hy.
Qed.

(** X20: on a whole amount [n] up to 2^48 the service fee is exact:
    [calculateServiceFee n] is the double nearest to [2 * n / 100], the
    2% of [n] in cents with nothing to round.  The miss of C2 needs a
    fractional subtotal. *)
Theorem serviceFee_whole (n : Z) :
  0 <= n <= 2 ^ 48 ->
  calculateServiceFee (of_Z n) = decimal (2 * n) 2
  /\ halfUpFeeCents n 0 = 2 * n.
Proof.
  intros Hn. split; [now apply fee_of_whole|].
  unfold halfUpFeeCents. change (10 ^ Z.of_nat 0) with 1.
  symmetry. apply (Z.div_unique_pos _ _ _ 1); lia.
Qed.

Lemma serviceFee_whole_witness :
  calculateServiceFee (of_Z 1000) = decimal (2 * 1000) 2
  /\ halfUpFeeCents 1000 0 = 2 * 1000.
Proof. apply (serviceFee_whole 1000). lia. Defined.


Lemma sq_quarter N D : 0 <= N -> 0 < D -> sq N D / 4 = N / (D * 2).
Proof.
  intros HN HD. rewrite <- Z.div_div by zlia. unfold sq.
  assert (0 <= N / D) by (apply Z.div_pos; zlia).
  destruct (N mod D =? 0); generalize dependent (N / D); intros x Hx; divmod.
Qed.

(* the quotient of a whole amount [k] by 100 is within one part in 2^52
   of [k / 100] *)
Lemma div_hundred_bracket x k :
  nonneg x = true -> 1 <= k < 2 ^ 53 -> ival x = k * 2 ^ 1074 ->
  let R := ival (div x (of_Z 100)) in
  nonneg (div x (of_Z 100)) = true
  /\ R < TOP
  /\ 100 * 2 ^ 52 * R <= (2 ^ 52 + 1) * (k * 2 ^ 1074)
  /\ (2 ^ 52 - 1) * (k * 2 ^ 1074) <= 100 * 2 ^ 52 * R.
Proof.
  intros Hx Hk Ex. cbv zeta. rewrite hundred_value.
  destruct (ival_div x 7036874417766400 (-46) Hx eq_refl) as [Hn E].
  split; [exact Hn|]. rewrite E. clear E. unfold divZ. rewrite Ex.
  assert (Hlt : k * 2 ^ 1074 < TOP) by (unfold TOP; apply (pow2_mul_lt _ 53); zlia).
  destruct (Z.eqb_spec (k * 2 ^ 1074) TOP) as [E|_]; [zlia|].
  change (1127 - -46) with 1173.
  set (Y := k * 2 ^ 1072). set (P := 2 ^ 1126).
  assert (HP : 0 < P) by (apply pow2_pos; zlia).
  assert (HY : 2 ^ 1072 <= Y) by (unfold Y; assert (0 < 2 ^ 1072) by (apply pow2_pos; zlia); znia).
  assert (EN : k * 2 ^ 1074 * 2 ^ 1173 = Y * P * 2 ^ 49).
  { unfold Y, P. rewrite <- !Z.mul_assoc, <- !Z.pow_add_r by zlia. reflexivity. }
  assert (E4 : k * 2 ^ 1074 = 4 * Y).
  { unfold Y. change 1074 with (2 + 1072). rewrite Z.pow_add_r by zlia.
    change (2 ^ 2) with 4. zring. }
  rewrite EN, E4.
  set (N := Y * P * 2 ^ 49). set (D := Z.pos 7036874417766400).
  assert (HYP : 0 < Y * P).
  { apply Z.mul_pos_pos; [|exact HP]. assert (0 < 2 ^ 1072) by (apply pow2_pos; zlia). zlia. }
  assert (HN : 0 <= N) by (unfold N; apply Z.mul_nonneg_nonneg; zlia).
  assert (Hq : sq N D / 4 = Y * P / 25).
  { rewrite sq_quarter by (unfold D; zlia). unfold N.
    change (D * 2) with (25 * 2 ^ 49). apply Z.div_mul_cancel_r; zlia. }
  set (q := Y * P / 25) in *.
  pose proof (Z.div_mod (Y * P) 25 ltac:(zlia)) as Hdm. fold q in Hdm.
  pose proof (Z.mod_pos_bound (Y * P) 25 ltac:(zlia)) as Hmod.
  assert (Hbig : 2 ^ 1179 <= q).
  { unfold q. apply Z.div_le_lower_bound; [zlia|].
    assert (2 ^ 5 * 2 ^ 1179 <= 2 ^ 1072 * 2 ^ 1126)
      by (rewrite <- !Z.pow_add_r by zlia; apply pow2_le; zlia).
    assert (0 < 2 ^ 1179) by (apply pow2_pos; zlia).
    assert (2 ^ 1072 * P <= Y * P) by (apply Z.mul_le_mono_nonneg_r; zlia).
    fold P in H. change (2 ^ 5) with 32 in H. zlia. }
  assert (Hd : 1179 < Zdigits2 q) by (apply Zdigits2_ge_pow; zlia).
  destruct (rndZ_bracket (-2200) (sq N D) ltac:(zlia)
              ltac:(apply sq_nonneg; unfold D; zlia)) as [Up Lo];
    [rewrite Hq; zlia|].
  rewrite Hq in Up, Lo. change (- -2200 - 1074) with 1126 in Up, Lo. fold P in Up, Lo.
  set (R := rndZ (-2200) (sq N D)) in *.
  change (2 ^ 52) with 4503599627370496 in *.
  assert (Up' : 25 * 4503599627370496 * R <= (4503599627370496 + 1) * Y).
  { apply (Z.mul_le_mono_pos_r _ _ P HP).
    replace (25 * 4503599627370496 * R * P) with (25 * (4503599627370496 * (R * P))) by zring.
    replace ((4503599627370496 + 1) * Y * P) with ((4503599627370496 + 1) * (Y * P)) by zring.
    clearbody q R. set (Z := Y * P) in *. clearbody Z. zlia. }
  assert (HR : R < TOP).
  { assert (Y < 2 ^ 53 * 2 ^ 1072)
      by (unfold Y; apply Z.mul_lt_mono_pos_r; [apply pow2_pos|]; zlia).
    assert (2 ^ 53 * 2 ^ 1072 <= TOP)
      by (unfold TOP; rewrite <- Z.pow_add_r by zlia; apply pow2_le; zlia).
    clearbody R Y. zlia. }
  specialize (Lo HR).
  assert (Lo' : (4503599627370496 - 1) * Y <= 25 * 4503599627370496 * R).
  { assert (HPbig : 25 * 4503599627370496 <= P).
    { unfold P. change (25 * 4503599627370496) with (25 * 2 ^ 52).
      assert (2 ^ 5 * 2 ^ 52 <= 2 ^ 1126)
        by (rewrite <- Z.pow_add_r by zlia; apply pow2_le; zlia).
      assert (0 < 2 ^ 52) by (apply pow2_pos; zlia).
      change (2 ^ 5) with 32 in H. zlia. }
    assert (Hs : ((4503599627370496 - 1) * Y - 1) * P < 25 * 4503599627370496 * R * P).
    { replace (25 * 4503599627370496 * R * P) with (25 * (4503599627370496 * (R * P))) by zring.
      replace (((4503599627370496 - 1) * Y - 1) * P)
        with ((4503599627370496 - 1) * (Y * P) - P) by zring.
      clearbody q R. set (Z := Y * P) in *. clearbody Z P. zlia. }
    apply Z.mul_lt_mono_pos_r in Hs; [|exact HP]. zlia. }
  clearbody R Y. repeat split; zlia.
Qed.

Lemma add_whole x y :
  nonneg x = true -> nonneg y = true -> ival x < TOP -> ival y < TOP ->
  nonneg (add x y) = true
  /\ ival (add x y) = rndZ (-1074) (4 * (ival x + ival y)).
Proof.
  intros Hx Hy Fx Fy. destruct (ival_add x y Hx Hy) as [Hn E].
  split; [exact Hn|]. rewrite E.
  pose proof (ival_range x Hx). pose proof (ival_range y Hy).
  apply addZ_whole; zlia.
Qed.

(* the sum of a whole subtotal, its fee and a whole delivery fee, as a
   value: within one part in 2^50 of the exact sum *)
Lemma sum_bracket n dn :
  1 <= n <= 2 ^ 40 -> 0 <= dn <= 2 ^ 20 ->
  let v := add (add (of_Z n) (calculateServiceFee (of_Z n))) (of_Z dn) in
  let E := (51 * n + 50 * dn) * 2 ^ 1074 in
  nonneg v = true
  /\ 0 < ival v < TOP
  /\ 2 ^ 50 * (50 * ival v - E) <= E
  /\ 2 ^ 50 * (E - 50 * ival v) <= E.
Proof.
  intros Hn Hdn. cbv zeta.
  assert (H40 : 2 ^ 40 < 2 ^ 48) by (apply Z.pow_lt_mono_r; zlia).
  assert (H48 : 2 ^ 48 < 2 ^ 52) by (apply Z.pow_lt_mono_r; zlia).
  assert (H52 : 2 ^ 52 < 2 ^ 53) by (apply Z.pow_lt_mono_r; zlia).
  assert (H20 : 2 ^ 20 < 2 ^ 40) by (apply Z.pow_lt_mono_r; zlia).
  rewrite (fee_of_whole n) by zlia. unfold decimal.
  change (10 ^ Z.of_nat 2) with 100.
  destruct (ival_of_Z n ltac:(zlia)) as [N0 E0].
  destruct (ival_of_Z (2 * n) ltac:(zlia)) as [N2 E2].
  destruct (ival_of_Z dn ltac:(zlia)) as [Nd Ed].
  destruct (div_hundred_bracket (of_Z (2 * n)) (2 * n) N2 ltac:(zlia) E2)
    as (Nf & Ff & Upf & Lof).
  set (fee := div (of_Z (2 * n)) (of_Z 100)) in *.
  set (Rf := ival fee) in *.
  assert (HT : 0 < 2 ^ 1074) by (apply pow2_pos; zlia).
  assert (ETOP : 2 ^ 60 * 2 ^ 1074 <= TOP)
    by (unfold TOP; rewrite <- Z.pow_add_r by zlia; apply pow2_le; zlia).
  set (T := 2 ^ 1074) in *.
  set (U := n * T) in *. set (Dv := dn * T) in *.
  assert (HU : T <= U <= 2 ^ 40 * T) by (unfold U; znia).
  assert (HD : 0 <= Dv <= 2 ^ 20 * T) by (unfold Dv; znia).
  replace (2 * n * T) with (2 * U) in * by (unfold U; zring).
  replace ((51 * n + 50 * dn) * T) with (51 * U + 50 * Dv) by (unfold U, Dv; zring).
  change (2 ^ 52) with 4503599627370496 in *.
  change (2 ^ 50) with 1125899906842624 in *.
  change (2 ^ 40) with 1099511627776 in *.
  change (2 ^ 20) with 1048576 in *.
  change (2 ^ 60) with 1152921504606846976 in *.
  assert (HRf : 0 <= Rf) by (clearbody Rf U Dv T; zlia).
  assert (FU : U < TOP) by (clearbody Rf U Dv T; zlia).
  destruct (add_whole (of_Z n) fee N0 Nf ltac:(rewrite E0; exact FU) Ff) as [Na Ea].
  rewrite E0 in Ea. fold Rf in Ea.
  destruct (round_bracket (U + Rf)) as [Upa Loa];
    [change (2 ^ 52) with 4503599627370496; unfold T in HU;
     assert (2 ^ 52 <= 2 ^ 1074) by (apply pow2_le; zlia);
     change (2 ^ 52) with 4503599627370496 in *; clearbody Rf U Dv; zlia|].
  change (2 ^ 52) with 4503599627370496 in *.
  rewrite <- Ea in Upa, Loa.
  set (Ra := ival (add (of_Z n) fee)) in *.
  assert (Fa : Ra < TOP) by (clearbody Ra Rf U Dv T; zlia).
  specialize (Loa Fa).
  assert (FD : ival (of_Z dn) < TOP) by (rewrite Ed; fold Dv; clearbody Ra Rf U Dv T; zlia).
  destruct (add_whole (add (of_Z n) fee) (of_Z dn) Na Nd Fa FD) as [Nb Eb].
  rewrite Ed in Eb. fold Ra Dv in Eb.
  destruct (round_bracket (Ra + Dv)) as [Upb Lob];
    [change (2 ^ 52) with 4503599627370496; unfold T in HU;
     assert (2 ^ 52 <= 2 ^ 1074) by (apply pow2_le; zlia);
     change (2 ^ 52) with 4503599627370496 in *; clearbody Ra Rf U Dv; zlia|].
  change (2 ^ 52) with 4503599627370496 in *.
  rewrite <- Eb in Upb, Lob.
  set (Rb := ival (add (add (of_Z n) fee) (of_Z dn))) in *.
  assert (Fb : Rb < TOP) by (clearbody Rb Ra Rf U Dv T; zlia).
  specialize (Lob Fb).
  split; [exact Nb|].
  clearbody Rb Ra Rf U Dv T. repeat split; zlia.
Qed.

(* a sum within one part in 2^50 of [K / 100] is rounded to [K] cents *)
Lemma cents_of_sum v K :
  nonneg v = true -> 0 < ival v < TOP -> 1 <= K <= 2 ^ 47 ->
  2 ^ 50 * (50 * ival v - K * 2 ^ 1073) <= K * 2 ^ 1073 ->
  2 ^ 50 * (K * 2 ^ 1073 - 50 * ival v) <= K * 2 ^ 1073 ->
  roundToCents v = decimal K 2.
Proof.
  intros Hv Hr HK Up Lo. unfold roundToCents.
  assert (H47 : 2 ^ 47 < 2 ^ 52) by (apply Z.pow_lt_mono_r; zlia).
  destruct (mul_hundred v Hv Hr) as [Nw Ew].
  assert (HH : 0 < 2 ^ 1073) by (apply pow2_pos; zlia).
  assert (H52 : 2 ^ 52 <= 2 ^ 1073) by (apply pow2_le; zlia).
  set (H := 2 ^ 1073) in *. set (E := K * H) in *.
  assert (HE : H <= E <= 2 ^ 47 * H) by (unfold E; znia).
  set (Rb := ival v) in *.
  change (2 ^ 52) with 4503599627370496 in *.
  change (2 ^ 50) with 1125899906842624 in *.
  change (2 ^ 47) with 140737488355328 in *.
  destruct (round_bracket (100 * Rb)) as [Upc Loc];
    [change (2 ^ 52) with 4503599627370496; clearbody Rb E H; zlia|].
  change (2 ^ 52) with 4503599627370496 in *.
  rewrite <- Ew in Upc, Loc.
  set (Rc := ival (mul v (of_Z 100))) in *.
  assert (ETOP : 2 ^ 60 * 2 ^ 1073 <= TOP)
    by (unfold TOP; rewrite <- Z.pow_add_r by zlia; apply pow2_le; zlia).
  fold H in ETOP. change (2 ^ 60) with 1152921504606846976 in ETOP.
  assert (Fc : Rc < TOP) by (clearbody Rc Rb E H; zlia).
  specialize (Loc Fc).
  rewrite (round_to_whole _ K Nw).
  - reflexivity.
  - change (2 ^ 52) with 4503599627370496. zlia.
  - fold H. fold Rc.
    replace ((2 * K - 1) * H) with (2 * E - H) by (unfold E; zring).
    replace ((2 * K + 1) * H) with (2 * E + H) by (unfold E; zring).
    clearbody Rc Rb E H. zlia.
Qed.

Lemma totalOf_whole n dn :
  0 <= n <= 2 ^ 40 -> 1 <= dn <= 2 ^ 20 ->
  totalOf (of_Z n) (of_Z dn) = decimal (102 * n + 100 * dn) 2.
Proof.
  intros Hn Hdn. unfold totalOf.
  assert (H40 : 2 ^ 40 = 1099511627776) by reflexivity.
  assert (H20 : 2 ^ 20 = 1048576) by reflexivity.
  assert (H47 : 2 ^ 47 = 140737488355328) by reflexivity.
  assert (H53 : 2 ^ 53 = 9007199254740992) by reflexivity.
  assert (ET : 2 ^ 1074 = 2 * 2 ^ 1073)
    by (change 1074 with (1 + 1073); now rewrite Z.pow_add_r by zlia).
  destruct (Z.eq_dec n 0) as [->|Hne].
  - change (calculateServiceFee (of_Z 0)) with (S754_zero false).
    change (add (of_Z 0) (S754_zero false)) with (S754_zero false).
    destruct (ival_of_Z dn ltac:(zlia)) as [Nd Ed].
    pose proof (posfin_of_Z dn ltac:(zlia)) as Pd.
    assert (Ez : add (S754_zero false) (of_Z dn) = of_Z dn).
    { destruct (posfin_inv _ Pd) as (m & e & -> & _). reflexivity. }
    rewrite Ez. apply cents_of_sum; try assumption.
    + rewrite Ed. split; [apply Z.mul_pos_pos; [zlia|apply pow2_pos; zlia]|].
      unfold TOP. apply (pow2_mul_lt _ 53); zlia.
    + zlia.
    + rewrite Ed, ET.
      assert (HH : 0 < 2 ^ 1073) by (apply pow2_pos; zlia).
      set (H := 2 ^ 1073) in *. clearbody H.
      replace (50 * (dn * (2 * H)) - (102 * 0 + 100 * dn) * H) with 0 by zring.
      assert (0 <= (102 * 0 + 100 * dn) * H) by (apply Z.mul_nonneg_nonneg; zlia).
      zlia.
    + rewrite Ed, ET.
      assert (HH : 0 < 2 ^ 1073) by (apply pow2_pos; zlia).
      set (H := 2 ^ 1073) in *. clearbody H.
      replace ((102 * 0 + 100 * dn) * H - 50 * (dn * (2 * H))) with 0 by zring.
      assert (0 <= (102 * 0 + 100 * dn) * H) by (apply Z.mul_nonneg_nonneg; zlia).
      zlia.
  - destruct (sum_bracket n dn ltac:(zlia) ltac:(zlia)) as (Nv & Rv & Up & Lo).
    cbv zeta in Up, Lo.
    replace ((51 * n + 50 * dn) * 2 ^ 1074) with ((102 * n + 100 * dn) * 2 ^ 1073)
      in Up, Lo by (rewrite ET; zring).
    apply cents_of_sum; try assumption. zlia.
Qed.

(** X21: on a whole subtotal [n] up to 2^40, for every location and
    every currency that is not a name inherited from
    [Object.prototype], [calculateOrderTotal] returns the exact
    amounts: the delivery fee is a whole amount [dn], the service fee
    is the double nearest to [2 * n / 100] and the total is the double
    nearest to [(102 * n + 100 * dn) / 100], that is subtotal plus 2%
    plus delivery, to the cent. *)
Theorem orderTotal_whole
    (n : Z) (location currency : string) (discountAmount : number) :
  inherited currency = false ->
  0 <= n <= 2 ^ 40 ->
  let t := calculateOrderTotal (of_Z n) location currency discountAmount in
  exists dn : Z,
    4 <= dn <= 15000
    /\ deliveryFee t = Number (of_Z dn)
    /\ serviceFee t = decimal (2 * n) 2
    /\ total t = decimal (102 * n + 100 * dn) 2.
Proof.
  intros Hi Hn. cbv zeta.
  assert (H40 : 2 ^ 40 < 2 ^ 48) by (apply Z.pow_lt_mono_r; zlia).
  assert (H20 : 15000 < 2 ^ 20) by reflexivity.
  destruct (deliveryFee_whole location currency Hi) as (dn & Hdn & Ed).
  exists dn. split; [exact Hdn|]. split; [exact Ed|]. split.
  - apply (fee_of_whole n). zlia.
  - rewrite (total_as_totalOf _ _ _ _ _ Ed). apply totalOf_whole; zlia.
Qed.

Lemma orderTotal_whole_witness :
  exists dn : Z,
    4 <= dn <= 15000
    /\ deliveryFee (calculateOrderTotal (of_Z 1000) "Lagos" "NGN" (of_Z 0))
       = Number (of_Z dn)
    /\ serviceFee (calculateOrderTotal (of_Z 1000) "Lagos" "NGN" (of_Z 0))
       = decimal (2 * 1000) 2
    /\ total (calculateOrderTotal (of_Z 1000) "Lagos" "NGN" (of_Z 0))
       = decimal (102 * 1000 + 100 * dn) 2.
Proof.
  apply (orderTotal_whole 1000 "Lagos" "NGN" (of_Z 0)); [reflexivity|lia].
Defined.


End WholeFacts.
